(** * Channel synchronisation, export and reconciliation: a shallow embedding

    The TypeScript sources embedded here are
      - [src/fetch-youtube-videos.ts]  (duration parsing, upload listing),
      - [src/lib/db-operations.ts]     (the persistence gateway),
      - the export script              (CSV writer and summary report),
      - the verification script        (the four reconciliation checks).

    Conventions.  JavaScript strings are [string] (sequences of 8-bit code
    units; every character the code inspects is ASCII).  A JavaScript number
    holding an integer is a [Z], which is exact for the safe integers (up to
    [2^53 - 1] in absolute value); [NaN] is kept as a separate
    constructor because [parseInt] can produce it and [x || 0] tests for it.
    [async]/[await] is sequential composition, except for the requests
    awaited together with [Promise.all], which the store commits in an order
    of its own; a rejected promise or a thrown exception is the [Throw]
    result.  A JavaScript object used as a map keeps its own properties in a
    finite map, and a lookup that finds none falls back on what every object
    inherits. *)

From Stdlib Require Import ZArith Lia Ascii String List DecimalString DecimalPos.
From stdpp Require Import base option list strings sorting gmap sets.

Local Open Scope Z_scope.

(* ===================================================================== *)
(** ** JavaScript values and string primitives                            *)
(* ===================================================================== *)

(** A JavaScript [number] restricted to the values this program computes
    with: integers and [NaN].  The integers are those of [Z]: they and
    the arithmetic on them agree with JavaScript's doubles as long as
    every value stays within the safe integers, up to [2^53 - 1] in
    absolute value; the statements that depend on it carry that bound. *)
Inductive number : Type :=
  | NaN
  | Num (z : Z).

Global Instance number_eq_dec : EqDecision number.
Proof. solve_decision. Defined.

(** [a + b], [a * b] on numbers: [NaN] is absorbing. *)
Definition nadd (a b : number) : number :=
  match a, b with
  | Num x, Num y => Num (x + y)
  | _, _ => NaN
  end.

Definition nmul (a b : number) : number :=
  match a, b with
  | Num x, Num y => Num (x * y)
  | _, _ => NaN
  end.

(** [Math.floor(a / d)] for a positive integer constant [d]. *)
Definition floor_div (a : number) (d : Z) : number :=
  match a with
  | Num x => Num (x / d)
  | NaN => NaN
  end.

(** [a % d]: the remainder has the sign of the dividend. *)
Definition nrem (a : number) (d : Z) : number :=
  match a with
  | Num x => Num (Z.rem x d)
  | NaN => NaN
  end.

(** [a < k] and [a > k]: every comparison with [NaN] is false. *)
Definition nltb (a : number) (k : Z) : bool :=
  match a with
  | Num x => x <? k
  | NaN => false
  end.

Definition ngtb (a : number) (k : Z) : bool :=
  match a with
  | Num x => k <? x
  | NaN => false
  end.

(** [String(n)] / [n.toString()] / template interpolation of a number:
    every digit of an integer, which is JavaScript's text for a
    magnitude below [10^21]. *)
Definition number_toString (a : number) : string :=
  match a with
  | Num x => NilZero.string_of_int (Z.to_int x)
  | NaN => "NaN"
  end.

(** [x || 0] for an optional number: [undefined], [null], [NaN] and [0]
    are falsy. *)
Definition or_zero (x : option number) : Z :=
  match x with
  | Some (Num z) => z
  | Some NaN => 0
  | None => 0
  end.

(** [s || d] for an optional string: [undefined], [null] and [''] are
    falsy. *)
Definition or_string (x : option string) (d : string) : string :=
  match x with
  | Some (String c r) => String c r
  | Some EmptyString => d
  | None => d
  end.

(** [s || null] for an optional string. *)
Definition or_null (x : option string) : option string :=
  match x with
  | Some (String c r) => Some (String c r)
  | Some EmptyString => None
  | None => None
  end.

(** Truthiness of an optional string. *)
Definition truthy_string (x : option string) : bool :=
  match x with
  | Some (String _ _) => true
  | _ => false
  end.

Definition is_digit (c : ascii) : bool :=
  let n := N_of_ascii c in (48 <=? n)%N && (n <=? 57)%N.

Definition digit_val (c : ascii) : Z := Z.of_N (N_of_ascii c) - 48.

Definition digit_char (d : Z) : ascii := ascii_of_N (Z.to_N (d + 48)).

(** The longest prefix of decimal digits, and the rest. *)
Fixpoint span_digits (s : string) : string * string :=
  match s with
  | String c r =>
      if is_digit c
      then let '(ds, rest) := span_digits r in (String c ds, rest)
      else (EmptyString, s)
  | EmptyString => (EmptyString, EmptyString)
  end.

(** Value of a run of decimal digits read left to right, stopping at the
    first character that is not a digit. *)
Fixpoint digits_value (acc : Z) (s : string) : Z :=
  match s with
  | String c r => if is_digit c then digits_value (10 * acc + digit_val c) r else acc
  | EmptyString => acc
  end.

Definition hex_val (c : ascii) : option Z :=
  let n := Z.of_N (N_of_ascii c) in
  if (48 <=? n) && (n <=? 57) then Some (n - 48)
  else if (97 <=? n) && (n <=? 102) then Some (n - 87)
  else if (65 <=? n) && (n <=? 70) then Some (n - 55)
  else None.

Fixpoint hex_value (acc : option Z) (s : string) : option Z :=
  match s with
  | String c r =>
      match hex_val c with
      | Some d => hex_value (Some (16 * default 0 acc + d)) r
      | None => acc
      end
  | EmptyString => acc
  end.

(** [s.startsWith(p)] *)
Fixpoint starts_with (p s : string) : bool :=
  match p, s with
  | EmptyString, _ => true
  | String a p', String b s' => Ascii.eqb a b && starts_with p' s'
  | String _ _, EmptyString => false
  end.

Fixpoint trimStart (s : string) : string :=
  match s with
  | String c r => if Ascii.is_space c then trimStart r else s
  | EmptyString => EmptyString
  end.

(** [parseInt(s)] with no radix argument: leading white space, an
    optional sign, an optional [0x]/[0X] prefix, then the longest run of
    digits; [NaN] when there is no digit.  The value is the exact
    integer of the digits, which is JavaScript's result for a magnitude
    up to [2^53]; beyond, JavaScript rounds to the nearest double. *)
Definition parseInt (s : string) : number :=
  let s1 := trimStart s in
  let '(neg, s2) :=
    match s1 with
    | String c r =>
        if Ascii.eqb c "-" then (true, r)
        else if Ascii.eqb c "+" then (false, r)
        else (false, s1)
    | EmptyString => (false, s1)
    end in
  let magnitude :=
    if starts_with "0x" s2 || starts_with "0X" s2
    then hex_value None (String.substring 2 (String.length s2 - 2) s2)
    else match s2 with
         | String c _ => if is_digit c then Some (digits_value 0 s2) else None
         | EmptyString => None
         end in
  match magnitude with
  | Some m => Num (if neg then - m else m)
  | None => NaN
  end.

(** [s.padStart(n, c)]. *)
Definition padStart (n : nat) (c : ascii) (s : string) : string :=
  String.app (string_of_list_ascii (repeat c (n - String.length s))) s.

(** [s.includes(needle)]. *)
Fixpoint includes (s needle : string) : bool :=
  starts_with needle s
  || match s with
     | String _ r => includes r needle
     | EmptyString => false
     end.

(** [s.includes(c)] for a one-character needle. *)
Fixpoint includes_char (s : string) (c : ascii) : bool :=
  match s with
  | String d r => Ascii.eqb d c || includes_char r c
  | EmptyString => false
  end.

(* ===================================================================== *)
(** ** Remote catalog client: durations                                   *)
(* ===================================================================== *)

(** The text after the leftmost occurrence of ["PT"], where the regular
    expression [/PT(?:(\d+)H)?(?:(\d+)M)?(?:(\d+)S)?/] starts to match:
    every group is optional, so the leftmost ["PT"] always matches. *)
Fixpoint after_PT (s : string) : option string :=
  match s with
  | String c r =>
      match r with
      | String d r' =>
          if Ascii.eqb c "P" && Ascii.eqb d "T" then Some r' else after_PT r
      | EmptyString => None
      end
  | EmptyString => None
  end.

(** One optional group [(?:(\d+)X)?]: the captured digits (if the group
    matches) and the text left to match.  [\d+] is greedy, and giving a
    digit back never helps because the next character would be a digit,
    not [X]. *)
Definition duration_group (X : ascii) (s : string) : option string * string :=
  match span_digits s with
  | (String d ds, String c r) =>
      if Ascii.eqb c X then (Some (String d ds), r) else (None, s)
  | _ => (None, s)
  end.

(** [duration.match(...)]: the three captures, or [None] for no match. *)
Definition duration_match (duration : string)
  : option (option string * option string * option string) :=
  match after_PT duration with
  | None => None
  | Some r =>
      let '(h, r1) := duration_group "H" r in
      let '(m, r2) := duration_group "M" r1 in
      let '(s, _) := duration_group "S" r2 in
      Some (h, m, s)
  end.

Definition parseDurationToSeconds (duration : string) : number :=
  match duration_match duration with
  | None => Num 0
  | Some (h, m, s) =>
      let hours := parseInt (or_string h "0") in
      let minutes := parseInt (or_string m "0") in
      let seconds := parseInt (or_string s "0") in
      nadd (nadd (nmul hours (Num 3600)) (nmul minutes (Num 60))) seconds
  end.

Definition formatDuration (duration : string) : string :=
  let totalSeconds := parseDurationToSeconds duration in
  let hours := floor_div totalSeconds 3600 in
  let minutes := floor_div (nrem totalSeconds 3600) 60 in
  let seconds := nrem totalSeconds 60 in
  if ngtb hours 0
  then number_toString hours +:+ ":" +:+ padStart 2 "0" (number_toString minutes)
       +:+ ":" +:+ padStart 2 "0" (number_toString seconds)
  else number_toString minutes +:+ ":" +:+ padStart 2 "0" (number_toString seconds).

(* ===================================================================== *)
(** ** Remote catalog client: the upload listing                          *)
(* ===================================================================== *)

(** A remote video record ([YouTubeVideo]).  A thumbnail [{ url }] is kept
    as its url. *)
Record YouTubeThumbnails : Type := {
  yt_default : option string;
  yt_medium : option string;
  yt_high : option string;
  yt_standard : option string;
  yt_maxres : option string
}.

Record YouTubeVideoStatistics : Type := {
  viewCount : option string;
  likeCount : option string;
  commentCount : option string
}.

Record YouTubeVideo : Type := {
  yv_id : string;
  yv_title : string;
  yv_description : string;
  yv_publishedAt : string;
  yv_thumbnails : YouTubeThumbnails;
  yv_duration : string;
  yv_statistics : option YouTubeVideoStatistics
}.

(** [VideoData] of [db-operations.ts]. *)
Record Thumbnails : Type := {
  th_default : option string;
  th_medium : option string;
  th_high : option string;
  th_standard : option string;
  th_maxres : option string
}.

Record VideoData : Type := {
  vd_id : string;
  vd_title : string;
  vd_date : string;
  vd_contentType : option string;
  vd_duration : option string;
  vd_description : option string;
  vd_thumbnails : option Thumbnails;
  vd_views : option number;
  vd_likes : option number;
  vd_comments : option number
}.

(** How the [for] loop over one page of video details ended. *)
Inductive LoopExit : Type :=
  | Completed      (* every record of the page was processed *)
  | LimitReached   (* [return videos] after the push that reached the limit *)
  | Thrown.        (* an exception left the loop body *)

(** What the remote answers to the detail request of a page. *)
Inductive DetailsResponse : Type :=
  | DetailsThrow
  | DetailsData (items : option (list YouTubeVideo)).

(** The remote's answers to the successive playlist requests: a rejected
    request, or a page with its [items] (each reduced to
    [item.snippet?.resourceId?.videoId]), the answer to the detail
    request for that page, its [nextPageToken], and the answers to the
    requests that would follow. *)
Inductive PlaylistPages : Type :=
  | PageThrow
  | PageData (items : option (list (option string)))
             (details : DetailsResponse)
             (nextPageToken : option string)
             (following : PlaylistPages).

Record Remote : Type := {
  uploadsPlaylistId : option string;   (* result of [getUploadsPlaylistId] *)
  playlistPages : PlaylistPages
}.

Section Listing.

(** [new Date(publishedAt).toISOString().split('T')[0]]: the calendar
    date of a timestamp, [None] when [toISOString] throws a
    [RangeError] (invalid date).  The [Date] object belongs to the
    JavaScript runtime, so it is a parameter of the listing. *)
Variable toISODate : string -> option string.

(** [limitVideos && videos.length >= limitVideos]. *)
Definition limit_reached (limitVideos : option Z) (videos : list VideoData) : bool :=
  match limitVideos with
  | Some l => negb (l =? 0) && (l <=? Z.of_nat (length videos))
  | None => false
  end.

Definition is_short (video : YouTubeVideo) : bool :=
  nltb (parseDurationToSeconds (yv_duration video)) 120.

(** The record pushed for a video that passed the duration filter. *)
Definition toVideoData (video : YouTubeVideo) (date : string) : VideoData :=
  let statistics := yv_statistics video in
  let stat (f : YouTubeVideoStatistics -> option string) :=
    parseInt (or_string (statistics ≫= f) "0") in
  let thumbnails := yv_thumbnails video in
  {| vd_id := yv_id video;
     vd_title := yv_title video;
     vd_date := date;
     vd_contentType := Some "podcast";
     vd_duration := Some (formatDuration (yv_duration video));
     vd_description := Some (yv_description video);
     vd_thumbnails :=
       Some {| th_default := Some (or_string (yt_default thumbnails) "");
               th_medium := Some (or_string (yt_medium thumbnails) "");
               th_high := Some (or_string (yt_high thumbnails) "");
               th_standard := Some (or_string (yt_standard thumbnails) "");
               th_maxres := Some (or_string (yt_maxres thumbnails) "") |};
     vd_views := Some (stat viewCount);
     vd_likes := Some (stat likeCount);
     vd_comments := Some (stat commentCount) |}.

(** The body of [for (const video of videoDetailsData.items || [])]. *)
Fixpoint process_items (limitVideos : option Z) (videos : list VideoData)
    (items : list YouTubeVideo) : list VideoData * LoopExit :=
  match items with
  | [] => (videos, Completed)
  | video :: rest =>
      if is_short video then process_items limitVideos videos rest
      else
        match toISODate (yv_publishedAt video) with
        | None => (videos, Thrown)
        | Some date =>
            let videos' := videos ++ [toVideoData video date] in
            if limit_reached limitVideos videos' then (videos', LimitReached)
            else process_items limitVideos videos' rest
        end
  end.

(** The [while (true)] loop of [getVideosFromChannel]. *)
Fixpoint fetch_pages (limitVideos : option Z) (videos : list VideoData)
    (pages : PlaylistPages) : list VideoData :=
  match pages with
  | PageThrow => videos
  | PageData None _ _ _ => videos
  | PageData (Some items) details nextPageToken following =>
      let videoIds := filter (fun id => truthy_string id = true) items in
      if (length videoIds =? 0)%nat then videos
      else
        match details with
        | DetailsThrow => videos
        | DetailsData ditems =>
            match process_items limitVideos videos (default [] ditems) with
            | (videos', Completed) =>
                if truthy_string nextPageToken
                then fetch_pages limitVideos videos' following
                else videos'
            | (videos', _) => videos'
            end
        end
  end.

Definition getVideosFromChannel (remote : Remote) (limitVideos : option Z)
  : list VideoData :=
  if truthy_string (uploadsPlaylistId remote)
  then fetch_pages limitVideos [] (playlistPages remote)
  else [].

End Listing.

(* ===================================================================== *)
(** ** The relational store behind the Supabase client                    *)
(* ===================================================================== *)

(** Rows ([Tables<...>['Row']] of [types/database.ts]); a nullable column
    is an [option]. *)
Record ChannelRow : Type := {
  ch_slug : string;
  ch_name : string;
  ch_youtube_id : option string;
  ch_visible : option bool;
  ch_created_at : option string
}.

Record MediaItemRow : Type := {
  mi_id : string;
  mi_title : string;
  mi_date : option string;
  mi_content_type : option string;
  mi_duration : option string;
  mi_description : option string;
  mi_youtube_id : option string;
  mi_image : option string;
  mi_channel_slug : option string;
  mi_youtube_url : option string;
  mi_views : option Z;
  mi_likes : option Z;
  mi_comments : option Z;
  mi_apple_podcasts_url : option string;
  mi_created_at : option string
}.

Record StatisticsRow : Type := {
  st_id : Z;
  st_channel_slug : string;
  st_date : string;
  st_subscriber_count : option Z;
  st_total_channel_views : option Z;
  st_total_videos : option Z;
  st_calculated_total_likes : option Z;
  st_calculated_total_comments : option Z;
  st_created_at : option string
}.

(** Payloads ([TablesInsert] / [TablesUpdate]): every column may be left
    out ([None]); a nullable column that is present may hold [null]. *)
Record ChannelPayload : Type := {
  pc_slug : option string;
  pc_name : option string;
  pc_youtube_id : option (option string);
  pc_visible : option (option bool);
  pc_created_at : option (option string)
}.

Record MediaItemPayload : Type := {
  pm_id : option string;
  pm_title : option string;
  pm_date : option (option string);
  pm_content_type : option (option string);
  pm_duration : option (option string);
  pm_description : option (option string);
  pm_youtube_id : option (option string);
  pm_image : option (option string);
  pm_channel_slug : option (option string);
  pm_youtube_url : option (option string);
  pm_views : option (option Z);
  pm_likes : option (option Z);
  pm_comments : option (option Z);
  pm_apple_podcasts_url : option (option string);
  pm_created_at : option (option string)
}.

Record StatisticsPayload : Type := {
  ps_id : option Z;
  ps_channel_slug : option string;
  ps_date : option string;
  ps_subscriber_count : option (option Z);
  ps_total_channel_views : option (option Z);
  ps_total_videos : option (option Z);
  ps_calculated_total_likes : option (option Z);
  ps_calculated_total_comments : option (option Z);
  ps_created_at : option (option string)
}.

Record Tables : Type := {
  tv_channels : list ChannelRow;
  tv_media_items : list MediaItemRow;
  tv_channel_statistics : list StatisticsRow
}.

Inductive Table : Type := TvChannels | TvMediaItems | TvChannelStatistics.
Inductive Verb : Type := Select | Insert | Update | Upsert.

(** What the program does not control about the store: requests that are
    refused (connectivity, permissions, ...) with the store's message,
    the column defaults of the schema, which is not part of the
    repository, and the order in which requests that are in flight
    together are committed: [arrival i] is the rank of the [i]-th
    request fired, and the store commits by increasing rank. *)
Record Backend : Type := {
  fault : Table -> Verb -> option string;
  default_created_at : option string;
  default_visible : option bool;
  arrival : nat -> nat
}.

(** The requests fired together, in the order the store commits them:
    by increasing rank, requests of equal rank in the order they were
    fired. *)
Fixpoint insert_by_rank {A : Type} (k : nat) (x : A) (queue : list (nat * A))
  : list (nat * A) :=
  match queue with
  | [] => [(k, x)]
  | (k', y) :: rest =>
      if (k <=? k')%nat then (k, x) :: queue
      else (k', y) :: insert_by_rank k x rest
  end.

Fixpoint commit_queue {A : Type} (rank : nat -> nat) (i : nat) (requests : list A)
  : list (nat * A) :=
  match requests with
  | [] => []
  | x :: rest => insert_by_rank (rank i) x (commit_queue rank (S i) rest)
  end.

Definition commit_order {A : Type} (rank : nat -> nat) (requests : list A) : list A :=
  snd <$> commit_queue rank 0 requests.

(** The [{ data, error }] answer of a request. *)
Inductive Response (A : Type) : Type :=
  | Data (data : A)
  | Error (message : string).
Arguments Data {A} data.
Arguments Error {A} message.

(** A JavaScript number sent to an integer column: [NaN] is serialised
    as [null]. *)
Definition db_number (n : number) : option Z :=
  match n with
  | Num z => Some z
  | NaN => None
  end.

(** A column of a payload written over a stored value. *)
Definition write {A : Type} (new : option A) (old : A) : A := default old new.

Definition patch_channel (p : ChannelPayload) (r : ChannelRow) : ChannelRow :=
  {| ch_slug := write (pc_slug p) (ch_slug r);
     ch_name := write (pc_name p) (ch_name r);
     ch_youtube_id := write (pc_youtube_id p) (ch_youtube_id r);
     ch_visible := write (pc_visible p) (ch_visible r);
     ch_created_at := write (pc_created_at p) (ch_created_at r) |}.

Definition patch_media_item (p : MediaItemPayload) (r : MediaItemRow) : MediaItemRow :=
  {| mi_id := write (pm_id p) (mi_id r);
     mi_title := write (pm_title p) (mi_title r);
     mi_date := write (pm_date p) (mi_date r);
     mi_content_type := write (pm_content_type p) (mi_content_type r);
     mi_duration := write (pm_duration p) (mi_duration r);
     mi_description := write (pm_description p) (mi_description r);
     mi_youtube_id := write (pm_youtube_id p) (mi_youtube_id r);
     mi_image := write (pm_image p) (mi_image r);
     mi_channel_slug := write (pm_channel_slug p) (mi_channel_slug r);
     mi_youtube_url := write (pm_youtube_url p) (mi_youtube_url r);
     mi_views := write (pm_views p) (mi_views r);
     mi_likes := write (pm_likes p) (mi_likes r);
     mi_comments := write (pm_comments p) (mi_comments r);
     mi_apple_podcasts_url := write (pm_apple_podcasts_url p) (mi_apple_podcasts_url r);
     mi_created_at := write (pm_created_at p) (mi_created_at r) |}.

Definition patch_statistics (p : StatisticsPayload) (r : StatisticsRow) : StatisticsRow :=
  {| st_id := write (ps_id p) (st_id r);
     st_channel_slug := write (ps_channel_slug p) (st_channel_slug r);
     st_date := write (ps_date p) (st_date r);
     st_subscriber_count := write (ps_subscriber_count p) (st_subscriber_count r);
     st_total_channel_views := write (ps_total_channel_views p) (st_total_channel_views r);
     st_total_videos := write (ps_total_videos p) (st_total_videos r);
     st_calculated_total_likes :=
       write (ps_calculated_total_likes p) (st_calculated_total_likes r);
     st_calculated_total_comments :=
       write (ps_calculated_total_comments p) (st_calculated_total_comments r);
     st_created_at := write (ps_created_at p) (st_created_at r) |}.

(** The row an [INSERT] of a payload creates: the columns left out take
    their defaults; the columns without a default ([slug], [name], [id],
    [title], ...) must be present. *)
Definition new_channel (be : Backend) (p : ChannelPayload) : option ChannelRow :=
  slug ← pc_slug p;
  name ← pc_name p;
  Some {| ch_slug := slug;
          ch_name := name;
          ch_youtube_id := default None (pc_youtube_id p);
          ch_visible := default (default_visible be) (pc_visible p);
          ch_created_at := default (default_created_at be) (pc_created_at p) |}.

Definition new_media_item (be : Backend) (p : MediaItemPayload) : option MediaItemRow :=
  id ← pm_id p;
  title ← pm_title p;
  Some {| mi_id := id;
          mi_title := title;
          mi_date := default None (pm_date p);
          mi_content_type := default None (pm_content_type p);
          mi_duration := default None (pm_duration p);
          mi_description := default None (pm_description p);
          mi_youtube_id := default None (pm_youtube_id p);
          mi_image := default None (pm_image p);
          mi_channel_slug := default None (pm_channel_slug p);
          mi_youtube_url := default None (pm_youtube_url p);
          mi_views := default None (pm_views p);
          mi_likes := default None (pm_likes p);
          mi_comments := default None (pm_comments p);
          mi_apple_podcasts_url := default None (pm_apple_podcasts_url p);
          mi_created_at := default (default_created_at be) (pm_created_at p) |}.

(** The serial [id] of a new statistics row. *)
Definition next_statistics_id (rows : list StatisticsRow) : Z :=
  1 + foldr Z.max 0 (st_id <$> rows).

Definition new_statistics (be : Backend) (rows : list StatisticsRow)
    (p : StatisticsPayload) : option StatisticsRow :=
  slug ← ps_channel_slug p;
  date ← ps_date p;
  Some {| st_id := default (next_statistics_id rows) (ps_id p);
          st_channel_slug := slug;
          st_date := date;
          st_subscriber_count := default None (ps_subscriber_count p);
          st_total_channel_views := default None (ps_total_channel_views p);
          st_total_videos := default None (ps_total_videos p);
          st_calculated_total_likes := default None (ps_calculated_total_likes p);
          st_calculated_total_comments := default None (ps_calculated_total_comments p);
          st_created_at := default (default_created_at be) (ps_created_at p) |}.

(** Constraints of the schema: primary keys [tv_channels.slug],
    [tv_media_items.id], [tv_channel_statistics.id], and the two foreign
    keys on [channel_slug] listed under [Relationships]. *)
Definition channels_ok (channels : list ChannelRow) : bool :=
  bool_decide (NoDup (ch_slug <$> channels)).

Definition slug_known (channels : list ChannelRow) (slug : string) : bool :=
  bool_decide (slug ∈ ch_slug <$> channels).

Definition media_items_ok (channels : list ChannelRow) (items : list MediaItemRow) : bool :=
  bool_decide (NoDup (mi_id <$> items))
  && forallb (fun r => match mi_channel_slug r with
                       | Some slug => slug_known channels slug
                       | None => true
                       end) items.

(** Modelled from the spec: the schema definition of
    [tv_channel_statistics] is not in the repository; the spec gives it a
    composite-unique constraint on [(channel_slug, date)]. *)
Definition statistics_ok (channels : list ChannelRow) (rows : list StatisticsRow) : bool :=
  bool_decide (NoDup (st_id <$> rows))
  && bool_decide (NoDup ((fun r => (st_channel_slug r, st_date r)) <$> rows))
  && forallb (fun r => slug_known channels (st_channel_slug r)) rows.

Definition not_null_violation : string :=
  "null value in column violates not-null constraint".
Definition constraint_violation : string :=
  "duplicate key value or foreign key violates constraint".

Definition set_channels (t : Tables) (rows : list ChannelRow) : Tables :=
  {| tv_channels := rows;
     tv_media_items := tv_media_items t;
     tv_channel_statistics := tv_channel_statistics t |}.

Definition set_media_items (t : Tables) (rows : list MediaItemRow) : Tables :=
  {| tv_channels := tv_channels t;
     tv_media_items := rows;
     tv_channel_statistics := tv_channel_statistics t |}.

Definition set_statistics (t : Tables) (rows : list StatisticsRow) : Tables :=
  {| tv_channels := tv_channels t;
     tv_media_items := tv_media_items t;
     tv_channel_statistics := rows |}.

Section Store.

Variable be : Backend.

(** [from(CHANNELS_TABLE).select('*')] *)
Definition select_channels (t : Tables) : Response (list ChannelRow) :=
  match fault be TvChannels Select with
  | Some m => Error m
  | None => Data (tv_channels t)
  end.

(** [from(VIDEOS_TABLE).select(...).eq('channel_slug', slug)] *)
Definition select_media_items (slug : string) (t : Tables)
  : Response (list MediaItemRow) :=
  match fault be TvMediaItems Select with
  | Some m => Error m
  | None =>
      Data (filter (fun r => mi_channel_slug r = Some slug) (tv_media_items t))
  end.

(** [from(CHANNEL_STATISTICS_TABLE).select('*').eq('channel_slug', slug)] *)
Definition select_statistics (slug : string) (t : Tables)
  : Response (list StatisticsRow) :=
  match fault be TvChannelStatistics Select with
  | Some m => Error m
  | None => Data (filter (fun r => st_channel_slug r = slug) (tv_channel_statistics t))
  end.

(** [from(VIDEOS_TABLE).update(p).eq('id', id)]: one statement, applied
    to every row with that id, or not at all. *)
Definition update_media_item (p : MediaItemPayload) (id : string) (t : Tables)
  : Tables * Response unit :=
  match fault be TvMediaItems Update with
  | Some m => (t, Error m)
  | None =>
      let rows :=
        (fun r => if decide (mi_id r = id) then patch_media_item p r else r)
          <$> tv_media_items t in
      if media_items_ok (tv_channels t) rows
      then (set_media_items t rows, Data ())
      else (t, Error constraint_violation)
  end.

(** [from(VIDEOS_TABLE).insert(records)]: one statement for the batch. *)
Definition insert_media_items (records : list MediaItemPayload) (t : Tables)
  : Tables * Response unit :=
  match fault be TvMediaItems Insert with
  | Some m => (t, Error m)
  | None =>
      match mapM (new_media_item be) records with
      | None => (t, Error not_null_violation)
      | Some new =>
          let rows := tv_media_items t ++ new in
          if media_items_ok (tv_channels t) rows
          then (set_media_items t rows, Data ())
          else (t, Error constraint_violation)
      end
  end.

(** [from(CHANNELS_TABLE).upsert(record)]: insert, or on a conflict on
    the primary key [slug] overwrite the columns of the payload. *)
Definition upsert_channel (p : ChannelPayload) (t : Tables)
  : Tables * Response unit :=
  match fault be TvChannels Upsert with
  | Some m => (t, Error m)
  | None =>
      match new_channel be p with
      | None => (t, Error not_null_violation)
      | Some new =>
          let rows :=
            if slug_known (tv_channels t) (ch_slug new)
            then (fun r => if decide (ch_slug r = ch_slug new)
                           then patch_channel p r else r) <$> tv_channels t
            else tv_channels t ++ [new] in
          if channels_ok rows
          then (set_channels t rows, Data ())
          else (t, Error constraint_violation)
      end
  end.

(** Modelled from the spec: [from(CHANNEL_STATISTICS_TABLE).upsert(record)]
    depends on the schema of [tv_channel_statistics], which is not in the
    repository; the spec has the snapshot written "keyed by
    [(channelSlug, date)]": a row of the same channel and date is
    overwritten, otherwise a row is added. *)
Definition upsert_statistics (p : StatisticsPayload) (t : Tables)
  : Tables * Response unit :=
  match fault be TvChannelStatistics Upsert with
  | Some m => (t, Error m)
  | None =>
      match new_statistics be (tv_channel_statistics t) p with
      | None => (t, Error not_null_violation)
      | Some new =>
          let same r :=
            bool_decide (st_channel_slug r = st_channel_slug new
                         ∧ st_date r = st_date new) in
          let rows :=
            if existsb same (tv_channel_statistics t)
            then (fun r => if same r then patch_statistics p r else r)
                   <$> tv_channel_statistics t
            else tv_channel_statistics t ++ [new] in
          if statistics_ok (tv_channels t) rows
          then (set_statistics t rows, Data ())
          else (t, Error constraint_violation)
      end
  end.

End Store.

(* ===================================================================== *)
(** ** Persistence gateway ([lib/db-operations.ts])                       *)
(* ===================================================================== *)

Record ChannelData : Type := {
  cd_slug : string;
  cd_name : string;
  cd_youtubeId : option string
}.

Record ChannelStatistics : Type := {
  cs_subscriberCount : option string;
  cs_viewCount : option string;
  cs_videoCount : option string
}.

(** The outcome of an [async] function: it returns, or it throws
    [new Error(message)]. *)
Inductive Result (A : Type) : Type :=
  | Ok (value : A)
  | Throw (message : string).
Arguments Ok {A} value.
Arguments Throw {A} message.

(** [a || b] on optional strings. *)
Definition or_else (a b : option string) : option string :=
  if truthy_string a then a else b.

(** [x || 0] on a nullable integer column. *)
Definition or_zero_column (x : option Z) : Z := default 0 x.

(** [statistics.f ? parseInt(statistics.f) : 0] *)
Definition parse_count (f : option string) : number :=
  if truthy_string f then parseInt (default "" f) else Num 0.

(** Descending order on the [date] column, null dates first. *)
Definition later_date (a b : MediaItemRow) : Prop :=
  match mi_date a, mi_date b with
  | None, _ => True
  | Some _, None => False
  | Some x, Some y => String.le y x
  end.

Global Instance later_date_dec : RelDecision later_date.
Proof.
  intros a b. unfold later_date.
  destruct (mi_date a), (mi_date b); apply _.
Defined.

(** The [channelRecord] of [upsertChannel]. *)
Definition channelRecord (channelData : ChannelData) : ChannelPayload :=
  {| pc_slug := Some (cd_slug channelData);
     pc_name := Some (cd_name channelData);
     pc_youtube_id := Some (or_null (cd_youtubeId channelData));
     pc_visible := None;
     pc_created_at := None |}.

(** The [updateRecord] of an already stored video. *)
Definition updateRecord (video : VideoData) : MediaItemPayload :=
  {| pm_id := None;
     pm_title := None;
     pm_date := None;
     pm_content_type := None;
     pm_duration := None;
     pm_description := None;
     pm_youtube_id := None;
     pm_image := None;
     pm_channel_slug := None;
     pm_youtube_url := None;
     pm_views := Some (Some (or_zero (vd_views video)));
     pm_likes := Some (Some (or_zero (vd_likes video)));
     pm_comments := Some (Some (or_zero (vd_comments video)));
     pm_apple_podcasts_url := None;
     pm_created_at := None |}.

(** The [record] of a video seen for the first time. *)
Definition newRecord (channelSlug : string) (video : VideoData) : MediaItemPayload :=
  {| pm_id := Some (vd_id video);
     pm_title := Some (vd_title video);
     pm_date := Some (Some (vd_date video));
     pm_content_type := Some (Some (or_string (vd_contentType video) "podcast"));
     pm_duration := Some (or_null (vd_duration video));
     pm_description := Some (or_null (vd_description video));
     pm_youtube_id := Some (Some (vd_id video));
     pm_image :=
       Some (or_null (or_else (vd_thumbnails video ≫= th_high)
                              (vd_thumbnails video ≫= th_default)));
     pm_channel_slug := Some (Some channelSlug);
     pm_youtube_url := Some (Some ("https://www.youtube.com/watch?v=" +:+ vd_id video));
     pm_views := Some (Some (or_zero (vd_views video)));
     pm_likes := Some (Some (or_zero (vd_likes video)));
     pm_comments := Some (Some (or_zero (vd_comments video)));
     pm_apple_podcasts_url := None;
     pm_created_at := None |}.

(** The [for (const video of videos)] loop: the records to insert and the
    update requests (target id and payload), both in batch order. *)
Fixpoint partition_videos (existingIds : gset string) (channelSlug : string)
    (videos : list VideoData)
  : list MediaItemPayload * list (string * MediaItemPayload) :=
  match videos with
  | [] => ([], [])
  | video :: rest =>
      let '(newRecords, updates) := partition_videos existingIds channelSlug rest in
      if decide (vd_id video ∈ existingIds)
      then (newRecords, (vd_id video, updateRecord video) :: updates)
      else (newRecord channelSlug video :: newRecords, updates)
  end.

Section Gateway.

Variable be : Backend.

Definition upsertChannel (channelData : ChannelData) (t : Tables)
  : Tables * Result unit :=
  match upsert_channel be (channelRecord channelData) t with
  | (t', Error m) => (t', Throw ("Failed to upsert channel: " +:+ m))
  | (t', Data _) => (t', Ok ())
  end.

(** Update requests applied one after the other, each a statement of
    its own; the [{ data, error }] each one resolves to is dropped. *)
Fixpoint run_updates (updates : list (string * MediaItemPayload)) (t : Tables)
  : Tables :=
  match updates with
  | [] => t
  | (id, p) :: rest => run_updates rest (fst (update_media_item be p id t))
  end.

Definition insertNewMediaItems (channelSlug : string) (videos : list VideoData)
    (t : Tables) : Tables * Result unit :=
  match select_media_items be channelSlug t with
  | Error m => (t, Throw ("Failed to fetch existing videos: " +:+ m))
  | Data existingData =>
      let existingIds : gset string := list_to_set (mi_id <$> existingData) in
      let '(newRecords, updates) :=
        partition_videos existingIds channelSlug videos in
      (* [await Promise.all(updatePromises)]: the requests are in flight
         together and the store commits them in an order of its own *)
      let t1 := run_updates (commit_order (arrival be) updates) t in
      match newRecords with
      | [] => (t1, Ok ())
      | _ :: _ =>
          match insert_media_items be newRecords t1 with
          | (t2, Error m) =>
              (t2, Throw ("Failed to insert new media items: " +:+ m))
          | (t2, Data _) => (t2, Ok ())
          end
      end
  end.

Definition getChannelMediaItems (channelSlug : string) (t : Tables)
  : Result (list MediaItemRow) :=
  match select_media_items be channelSlug t with
  | Error m => Throw ("Failed to get channel media items: " +:+ m)
  | Data data => Ok data
  end.

Definition getAllChannels (t : Tables) : Result (list ChannelRow) :=
  match select_channels be t with
  | Error m => Throw ("Failed to get all channels: " +:+ m)
  | Data data => Ok data
  end.

(** [.order('date', { ascending: false }).limit(1)]: descending order puts
    the rows without a date first. *)
Definition getLatestMediaItemDate (channelSlug : string) (t : Tables)
  : Result (option string) :=
  match select_media_items be channelSlug t with
  | Error m => Throw ("Failed to get latest media item date: " +:+ m)
  | Data data =>
      match merge_sort later_date data with
      | first :: _ => Ok (or_null (mi_date first))
      | [] => Ok None
      end
  end.

(** [today] is [new Date().toISOString().split('T')[0]]. *)
Definition upsertChannelStatistics (today : string) (channelSlug : string)
    (statistics : ChannelStatistics) (date : option string) (t : Tables)
  : Tables * Result unit :=
  let statisticsDate := or_string date today in
  match select_media_items be channelSlug t with
  | Error m => (t, Throw ("Failed to get video stats: " +:+ m))
  | Data videoStats =>
      let calculatedLikes :=
        foldl (fun sum item => sum + or_zero_column (mi_likes item)) 0 videoStats in
      let calculatedComments :=
        foldl (fun sum item => sum + or_zero_column (mi_comments item)) 0 videoStats in
      let record :=
        {| ps_id := None;
           ps_channel_slug := Some channelSlug;
           ps_date := Some statisticsDate;
           ps_subscriber_count :=
             Some (db_number (parse_count (cs_subscriberCount statistics)));
           ps_total_channel_views :=
             Some (db_number (parse_count (cs_viewCount statistics)));
           ps_total_videos := Some (db_number (parse_count (cs_videoCount statistics)));
           ps_calculated_total_likes := Some (Some calculatedLikes);
           ps_calculated_total_comments := Some (Some calculatedComments);
           ps_created_at := None |} in
      match upsert_statistics be record t with
      | (t', Error m) => (t', Throw ("Failed to upsert channel statistics: " +:+ m))
      | (t', Data _) => (t', Ok ())
      end
  end.

(** [.order('date', { ascending: false }).limit(days)] *)
Definition getChannelStatisticsHistory (channelSlug : string) (days : nat)
    (t : Tables) : Result (list StatisticsRow) :=
  match select_statistics be channelSlug t with
  | Error m => Throw ("Failed to get channel statistics history: " +:+ m)
  | Data data =>
      Ok (take days (merge_sort (fun a b => String.le (st_date b) (st_date a)) data))
  end.

End Gateway.

Global Instance result_ret : MRet Result := fun A a => Ok a.
Global Instance result_bind : MBind Result :=
  fun A B f m => match m with
                 | Ok a => f a
                 | Throw e => Throw e
                 end.

(** [for (const x of xs) { all = all.concat(await f(x)) }]: the first
    exception ends the loop. *)
Fixpoint concat_results {A B : Type} (f : A -> Result (list B)) (xs : list A)
  : Result (list B) :=
  match xs with
  | [] => Ok []
  | x :: rest =>
      ys ← f x;
      zs ← concat_results f rest;
      Ok (ys ++ zs)
  end.

(* ===================================================================== *)
(** ** Export writer                                                      *)
(* ===================================================================== *)

Definition comma : ascii := ",".
Definition dquote : ascii := "034".
Definition newline : ascii := "010".

(** The values found in a row object. *)
Inductive JsValue : Type :=
  | VUndefined
  | VNull
  | VString (s : string)
  | VNumber (n : number)
  | VBoolean (b : bool).

(** [String(value)] *)
Definition to_String (value : JsValue) : string :=
  match value with
  | VUndefined => "undefined"
  | VNull => "null"
  | VString s => s
  | VNumber n => number_toString n
  | VBoolean true => "true"
  | VBoolean false => "false"
  end.

(** [str.replace] with the global pattern for the double-quote
    character: every occurrence is replaced by two of them. *)
Fixpoint double_quotes (str : string) : string :=
  match str with
  | String c r =>
      if Ascii.eqb c dquote
      then String dquote (String dquote (double_quotes r))
      else String c (double_quotes r)
  | EmptyString => EmptyString
  end.

Definition needs_quoting (str : string) : bool :=
  includes_char str comma || includes_char str dquote || includes_char str newline.

Definition escapeCSV (value : JsValue) : string :=
  match value with
  | VNull | VUndefined => ""
  | _ =>
      let str := to_String value in
      if needs_quoting str
      then String dquote (double_quotes str +:+ String dquote "")
      else str
  end.

(** [arrayToCSV(data, headers)]; [get row header] is [row[header]]. *)
Definition arrayToCSV {Row : Type} (get : Row -> string -> JsValue)
    (data : list Row) (headers : list string) : string :=
  String.concat (String newline "")
    (String.concat "," headers
     :: ((fun row => String.concat "," ((fun header => escapeCSV (get row header)) <$> headers))
           <$> data)).

Definition nullable_string (x : option string) : JsValue :=
  match x with
  | Some s => VString s
  | None => VNull
  end.

Definition nullable_number (x : option Z) : JsValue :=
  match x with
  | Some z => VNumber (Num z)
  | None => VNull
  end.

Definition nullable_boolean (x : option bool) : JsValue :=
  match x with
  | Some b => VBoolean b
  | None => VNull
  end.

(** [row[header]] for the three kinds of rows. *)
Definition channel_column (row : ChannelRow) (header : string) : JsValue :=
  if String.eqb header "slug" then VString (ch_slug row)
  else if String.eqb header "name" then VString (ch_name row)
  else if String.eqb header "youtube_id" then nullable_string (ch_youtube_id row)
  else if String.eqb header "visible" then nullable_boolean (ch_visible row)
  else if String.eqb header "created_at" then nullable_string (ch_created_at row)
  else VUndefined.

Definition media_item_column (row : MediaItemRow) (header : string) : JsValue :=
  if String.eqb header "id" then VString (mi_id row)
  else if String.eqb header "title" then VString (mi_title row)
  else if String.eqb header "date" then nullable_string (mi_date row)
  else if String.eqb header "content_type" then nullable_string (mi_content_type row)
  else if String.eqb header "duration" then nullable_string (mi_duration row)
  else if String.eqb header "description" then nullable_string (mi_description row)
  else if String.eqb header "youtube_id" then nullable_string (mi_youtube_id row)
  else if String.eqb header "image" then nullable_string (mi_image row)
  else if String.eqb header "channel_slug" then nullable_string (mi_channel_slug row)
  else if String.eqb header "youtube_url" then nullable_string (mi_youtube_url row)
  else if String.eqb header "views" then nullable_number (mi_views row)
  else if String.eqb header "likes" then nullable_number (mi_likes row)
  else if String.eqb header "comments" then nullable_number (mi_comments row)
  else if String.eqb header "apple_podcasts_url"
       then nullable_string (mi_apple_podcasts_url row)
  else if String.eqb header "created_at" then nullable_string (mi_created_at row)
  else VUndefined.

Definition statistics_column (row : StatisticsRow) (header : string) : JsValue :=
  if String.eqb header "id" then VNumber (Num (st_id row))
  else if String.eqb header "channel_slug" then VString (st_channel_slug row)
  else if String.eqb header "date" then VString (st_date row)
  else if String.eqb header "subscriber_count"
       then nullable_number (st_subscriber_count row)
  else if String.eqb header "total_channel_views"
       then nullable_number (st_total_channel_views row)
  else if String.eqb header "total_videos" then nullable_number (st_total_videos row)
  else if String.eqb header "calculated_total_likes"
       then nullable_number (st_calculated_total_likes row)
  else if String.eqb header "calculated_total_comments"
       then nullable_number (st_calculated_total_comments row)
  else if String.eqb header "created_at" then nullable_string (st_created_at row)
  else VUndefined.

Record Visibility : Type := {
  visible : Z;
  hidden : Z;
  null_visibility : Z
}.

(** The object written to (and parsed back from) [export_summary.json]. *)
Record Summary : Type := {
  total_channels : Z;
  channels_by_visibility : Visibility;
  channels_with_youtube_id : Z;
  total_videos : Z;
  videos_per_channel : gmap string Z;
  export_timestamp : string
}.

(** The files of the working directory read and written by the export
    and verification scripts. *)
Record Files : Type := {
  export_channels_csv : option string;
  export_videos_csv : option string;
  export_channel_statistics_csv : option string;
  export_summary_json : option Summary
}.

(** A plain JavaScript object used as a map from strings to numbers: the
    finite map holds its own properties.  Beside them the object
    inherits the properties of [Object.prototype], functions and, under
    [__proto__], the prototype itself. *)
Definition object_prototype_names : list string :=
  ["constructor"; "__defineGetter__"; "__defineSetter__"; "hasOwnProperty";
   "__lookupGetter__"; "__lookupSetter__"; "isPrototypeOf"; "propertyIsEnumerable";
   "toString"; "valueOf"; "__proto__"; "toLocaleString"].

Definition inherited_name (key : string) : bool :=
  existsb (String.eqb key) object_prototype_names.

(** [object[key] = value] with a number: an own property is created or
    overwritten, except under [__proto__], where the assignment reaches
    the inherited setter, which ignores a number. *)
Definition set_property (object : gmap string Z) (key : string) (value : Z)
  : gmap string Z :=
  if String.eqb key "__proto__" then object else <[key := value]> object.

(** [object[key]]: the own property, otherwise the inherited one,
    otherwise [undefined]. *)
Inductive Property : Type :=
  | OwnNumber (n : Z)
  | InheritedObject
  | Undefined.

Definition get_property (object : gmap string Z) (key : string) : Property :=
  match object !! key with
  | Some n => OwnNumber n
  | None => if inherited_name key then InheritedObject else Undefined
  end.

(** [property || 0]: a number ([0] stays [0]), or the inherited object,
    which is truthy and not a number ([None]). *)
Definition property_or_zero (property : Property) : option Z :=
  match property with
  | OwnNumber n => Some n
  | InheritedObject => None
  | Undefined => Some 0
  end.

Definition count {A : Type} (p : A -> bool) (xs : list A) : Z :=
  Z.of_nat (length (List.filter p xs)).

(** [c.visible] as a condition: [null] and [false] are falsy. *)
Definition truthy_boolean (x : option bool) : bool := default false x.

(** [c.visible === null] *)
Definition is_null {A : Type} (x : option A) : bool :=
  match x with
  | None => true
  | Some _ => false
  end.

Definition visibility_of (channels : list ChannelRow) : Visibility :=
  {| visible := count (fun c => truthy_boolean (ch_visible c)) channels;
     hidden := count (fun c => negb (truthy_boolean (ch_visible c))) channels;
     null_visibility := count (fun c => is_null (ch_visible c)) channels |}.

Section ExportWriter.

Variable be : Backend.

Definition channels_headers : list string :=
  ["slug"; "name"; "youtube_id"; "visible"; "created_at"].

Definition videos_headers : list string :=
  ["id"; "title"; "date"; "content_type"; "duration"; "description";
   "youtube_id"; "image"; "channel_slug"; "youtube_url"; "views"; "likes";
   "comments"; "apple_podcasts_url"; "created_at"].

Definition statistics_headers : list string :=
  ["id"; "channel_slug"; "date"; "subscriber_count"; "total_channel_views";
   "total_videos"; "calculated_total_likes"; "calculated_total_comments";
   "created_at"].

(** Each export returns the text it writes to its file. *)
Definition exportChannelsToCSV (t : Tables) : Result string :=
  channels ← getAllChannels be t;
  Ok (arrayToCSV channel_column channels channels_headers).

Definition exportVideosToCSV (t : Tables) : Result string :=
  channels ← getAllChannels be t;
  allVideos ← concat_results (fun channel => getChannelMediaItems be (ch_slug channel) t)
                             channels;
  Ok (arrayToCSV media_item_column allVideos videos_headers).

Definition exportChannelStatisticsToCSV (t : Tables) : Result string :=
  channels ← getAllChannels be t;
  allStats ← concat_results
               (fun channel => getChannelStatisticsHistory be (ch_slug channel) 365 t)
               channels;
  Ok (arrayToCSV statistics_column allStats statistics_headers).

(** The loop filling [channelVideoCounts] and [totalVideos];
    [channelVideoCounts] is a plain object written with
    [channelVideoCounts[channel.slug] = videos.length]. *)
Fixpoint count_videos (t : Tables) (channels : list ChannelRow)
    (totalVideos : Z) (channelVideoCounts : gmap string Z)
  : Result (Z * gmap string Z) :=
  match channels with
  | [] => Ok (totalVideos, channelVideoCounts)
  | channel :: rest =>
      videos ← getChannelMediaItems be (ch_slug channel) t;
      count_videos t rest
        (totalVideos + Z.of_nat (length videos))
        (set_property channelVideoCounts (ch_slug channel) (Z.of_nat (length videos)))
  end.

(** [timestamp] is [new Date().toISOString()]. *)
Definition generateSummaryReport (timestamp : string) (t : Tables) : Result Summary :=
  channels ← getAllChannels be t;
  '(totalVideos, channelVideoCounts) ← count_videos t channels 0 ∅;
  Ok {| total_channels := Z.of_nat (length channels);
        channels_by_visibility := visibility_of channels;
        channels_with_youtube_id :=
          count (fun c => truthy_string (ch_youtube_id c)) channels;
        total_videos := totalVideos;
        videos_per_channel := channelVideoCounts;
        export_timestamp := timestamp |}.

(** [main] of the export script: the four files are written in order;
    the first exception stops the run and leaves the files written so
    far. *)
Definition export_main (timestamp : string) (t : Tables) (files : Files)
  : Files * Result unit :=
  match exportChannelsToCSV t with
  | Throw e => (files, Throw e)
  | Ok channels_csv =>
      let files1 :=
        {| export_channels_csv := Some channels_csv;
           export_videos_csv := export_videos_csv files;
           export_channel_statistics_csv := export_channel_statistics_csv files;
           export_summary_json := export_summary_json files |} in
      match exportVideosToCSV t with
      | Throw e => (files1, Throw e)
      | Ok videos_csv =>
          let files2 :=
            {| export_channels_csv := Some channels_csv;
               export_videos_csv := Some videos_csv;
               export_channel_statistics_csv := export_channel_statistics_csv files;
               export_summary_json := export_summary_json files |} in
          match exportChannelStatisticsToCSV t with
          | Throw e => (files2, Throw e)
          | Ok statistics_csv =>
              let files3 :=
                {| export_channels_csv := Some channels_csv;
                   export_videos_csv := Some videos_csv;
                   export_channel_statistics_csv := Some statistics_csv;
                   export_summary_json := export_summary_json files |} in
              match generateSummaryReport timestamp t with
              | Throw e => (files3, Throw e)
              | Ok summary =>
                  ({| export_channels_csv := Some channels_csv;
                      export_videos_csv := Some videos_csv;
                      export_channel_statistics_csv := Some statistics_csv;
                      export_summary_json := Some summary |}, Ok ())
              end
          end
      end
  end.

End ExportWriter.

(* ===================================================================== *)
(** ** Reconciliation checker                                             *)
(* ===================================================================== *)

(** The entries of [details] (template strings with their arguments). *)
Inductive Issue : Type :=
  | ChannelVideoMismatch (slug : string) (dbCount summaryCount : Z)
  | ChannelVideoMismatchObject (slug : string) (dbCount : Z)
  | ChannelMissingYoutubeId (slug : string)
  | VideoMissingId (slug : string)
  | VideoMissingTitle (id slug : string)
  | VideoMissingDate (id slug : string)
  | VideoInvalidUrl (id slug : string)
  | VideoNegativeViews (id slug : string)
  | VideoNegativeLikes (id slug : string)
  | VideoNegativeComments (id slug : string)
  | MissingFile (file : string)
  | ChannelsCsvCount (channelLines summaryCount : Z)
  | VideosCsvCount (videoRecords summaryCount : Z)
  | ErrorMessage (message : string).

(** The [message] of a result. *)
Inductive Message : Type :=
  | ChannelCountMismatch (dbCount summaryCount : Z)
  | ChannelCountVerified (dbCount : Z)
  | TotalVideoCountMismatch (dbCount summaryCount : Z)
  | ChannelVideoCountMismatches
  | VideoCountVerified (dbCount : Z)
  | DataIntegrityIssues (problems : nat)
  | DataIntegrityVerified (channels : nat)
  | CsvFilesMissing
  | CsvVerificationFailed
  | CsvFilesVerified (channels videos : Z)
  | TestFailedWithError (error : string).

Record VerificationResult : Type := {
  passed : bool;
  message : Message;
  details : list Issue
}.

(** [fs.readFileSync('export_summary.json')] then [JSON.parse]. *)
Definition read_summary (files : Files) : Result Summary :=
  match export_summary_json files with
  | Some summary => Ok summary
  | None => Throw "ENOENT: no such file or directory, open 'export_summary.json'"
  end.

(** [csvContent.split] on the newline character. *)
Fixpoint split_lines (s : string) : list string :=
  match s with
  | EmptyString => [EmptyString]
  | String c r =>
      if Ascii.eqb c newline then EmptyString :: split_lines r
      else match split_lines r with
           | line :: lines => String c line :: lines
           | [] => [String c EmptyString]
           end
  end.

Fixpoint trimEnd (s : string) : string :=
  match s with
  | EmptyString => EmptyString
  | String c r =>
      match trimEnd r with
      | EmptyString => if Ascii.is_space c then EmptyString else String c EmptyString
      | r' => String c r'
      end
  end.

(** [line.trim()], on texts whose white space is ASCII white space. *)
Definition trim (s : string) : string := trimEnd (trimStart s).

(** The class [[a-zA-Z0-9_-]]. *)
Definition is_id_char (c : ascii) : bool :=
  let n := N_of_ascii c in
  ((97 <=? n) && (n <=? 122) || (65 <=? n) && (n <=? 90)
   || (48 <=? n) && (n <=? 57) || (n =? 95) || (n =? 45))%N.

(** [n] characters of the class, then the rest of the line. *)
Fixpoint id_chars (n : nat) (line : string) : option string :=
  match n with
  | O => Some line
  | S n' =>
      match line with
      | String c r => if is_id_char c then id_chars n' r else None
      | EmptyString => None
      end
  end.

(** The test [/^[a-zA-Z0-9_-]{11},/] on a line. *)
Definition starts_record (line : string) : bool :=
  match id_chars 11 line with
  | Some (String c _) => Ascii.eqb c comma
  | _ => false
  end.

(** The number of double-quote characters of a line. *)
Fixpoint quoteCount (line : string) : nat :=
  match line with
  | String c r => (if Ascii.eqb c dquote then 1 else 0) + quoteCount r
  | EmptyString => 0
  end.

(** The loop of [parseCSVRecordCount] over the lines after the header. *)
Fixpoint count_records (lines : list string) (recordCount : Z) (inQuotes : bool) : Z :=
  match lines with
  | [] => recordCount
  | raw :: rest =>
      let line := trim raw in
      match line with
      | EmptyString => count_records rest recordCount inQuotes
      | _ =>
          let recordCount' :=
            if negb inQuotes && starts_record line then recordCount + 1
            else recordCount in
          let inQuotes' :=
            if Nat.odd (quoteCount line) then negb inQuotes else inQuotes in
          count_records rest recordCount' inQuotes'
      end
  end.

Definition parseCSVRecordCount (csvContent : string) : Z :=
  count_records (tail (split_lines csvContent)) 0 false.

(** The integrity issues of one video, in the order they are pushed. *)
Definition video_issues (slug : string) (video : MediaItemRow) : list Issue :=
  let id := mi_id video in
  (if negb (truthy_string (Some id)) then [VideoMissingId slug] else [])
  ++ (if negb (truthy_string (Some (mi_title video))) then [VideoMissingTitle id slug] else [])
  ++ (if negb (truthy_string (mi_date video)) then [VideoMissingDate id slug] else [])
  ++ (match mi_youtube_url video with
      | Some (String c r) =>
          if negb (includes (String c r) "youtube.com/watch?v=")
          then [VideoInvalidUrl id slug] else []
      | _ => []
      end)
  ++ (match mi_views video with
      | Some n => if n <? 0 then [VideoNegativeViews id slug] else []
      | None => []
      end)
  ++ (match mi_likes video with
      | Some n => if n <? 0 then [VideoNegativeLikes id slug] else []
      | None => []
      end)
  ++ (match mi_comments video with
      | Some n => if n <? 0 then [VideoNegativeComments id slug] else []
      | None => []
      end).

Section Verification.

Variable be : Backend.

Definition verifyChannelCounts (t : Tables) (files : Files)
  : Result VerificationResult :=
  channels ← getAllChannels be t;
  summary ← read_summary files;
  let dbCount := Z.of_nat (length channels) in
  if negb (dbCount =? total_channels summary)
  then Ok {| passed := false;
             message := ChannelCountMismatch dbCount (total_channels summary);
             details := [] |}
  else Ok {| passed := true;
             message := ChannelCountVerified dbCount;
             details := [] |}.

(** The loop of [verifyVideoCounts] over the channels. *)
Fixpoint video_count_loop (t : Tables) (summary : Summary)
    (channels : list ChannelRow) (totalDbVideos : Z) (channelMismatches : list Issue)
  : Result (Z * list Issue) :=
  match channels with
  | [] => Ok (totalDbVideos, channelMismatches)
  | channel :: rest =>
      videos ← getChannelMediaItems be (ch_slug channel) t;
      let dbCount := Z.of_nat (length videos) in
      let summaryCount :=
        property_or_zero (get_property (videos_per_channel summary) (ch_slug channel)) in
      video_count_loop t summary rest (totalDbVideos + dbCount)
        (match summaryCount with
         | Some n =>
             if negb (dbCount =? n)
             then channelMismatches ++ [ChannelVideoMismatch (ch_slug channel) dbCount n]
             else channelMismatches
         | None =>
             (* a number is never [===] an object *)
             channelMismatches ++ [ChannelVideoMismatchObject (ch_slug channel) dbCount]
         end)
  end.

Definition verifyVideoCounts (t : Tables) (files : Files)
  : Result VerificationResult :=
  channels ← getAllChannels be t;
  summary ← read_summary files;
  '(totalDbVideos, channelMismatches) ← video_count_loop t summary channels 0 [];
  if negb (totalDbVideos =? total_videos summary)
  then Ok {| passed := false;
             message := TotalVideoCountMismatch totalDbVideos (total_videos summary);
             details := channelMismatches |}
  else if (0 <? length channelMismatches)%nat
  then Ok {| passed := false;
             message := ChannelVideoCountMismatches;
             details := channelMismatches |}
  else Ok {| passed := true;
             message := VideoCountVerified totalDbVideos;
             details := [] |}.

(** The loop of [verifyDataIntegrity] over the channels. *)
Fixpoint integrity_loop (t : Tables) (channels : list ChannelRow) (issues : list Issue)
  : Result (list Issue) :=
  match channels with
  | [] => Ok issues
  | channel :: rest =>
      let issues1 :=
        if negb (truthy_string (ch_youtube_id channel))
        then issues ++ [ChannelMissingYoutubeId (ch_slug channel)]
        else issues in
      videos ← getChannelMediaItems be (ch_slug channel) t;
      integrity_loop t rest
        (issues1 ++ concat (video_issues (ch_slug channel) <$> videos))
  end.

Definition verifyDataIntegrity (t : Tables) : Result VerificationResult :=
  channels ← getAllChannels be t;
  issues ← integrity_loop t channels [];
  if (0 <? length issues)%nat
  then Ok {| passed := false;
             message := DataIntegrityIssues (length issues);
             details := take 20 issues |}
  else Ok {| passed := true;
             message := DataIntegrityVerified (length channels);
             details := [] |}.

Definition missing_files (files : Files) : list Issue :=
  (if is_null (export_channels_csv files) then [MissingFile "export_channels.csv"] else [])
  ++ (if is_null (export_videos_csv files) then [MissingFile "export_videos.csv"] else [])
  ++ (if is_null (export_channel_statistics_csv files)
      then [MissingFile "export_channel_statistics.csv"] else [])
  ++ (if is_null (export_summary_json files) then [MissingFile "export_summary.json"] else []).

Definition verifyCSVFiles (files : Files) : Result VerificationResult :=
  match missing_files files with
  | _ :: _ as issues =>
      Ok {| passed := false; message := CsvFilesMissing; details := issues |}
  | [] =>
      let channelsContent := default "" (export_channels_csv files) in
      let channelLines :=
        count (fun line => negb (String.eqb (trim line) "")) (split_lines channelsContent)
        - 1 in
      let videosContent := default "" (export_videos_csv files) in
      let videoRecords := parseCSVRecordCount videosContent in
      summary ← read_summary files;
      let issues :=
        (if negb (channelLines =? total_channels summary)
         then [ChannelsCsvCount channelLines (total_channels summary)] else [])
        ++ (if negb (videoRecords =? total_videos summary)
            then [VideosCsvCount videoRecords (total_videos summary)] else []) in
      match issues with
      | _ :: _ =>
          Ok {| passed := false; message := CsvVerificationFailed; details := issues |}
      | [] =>
          Ok {| passed := true;
                message := CsvFilesVerified (total_channels summary) (total_videos summary);
                details := [] |}
      end
  end.

(** The [try]/[catch] around each test of [runFullVerification]. *)
Definition run_test (test : Result VerificationResult) : VerificationResult :=
  match test with
  | Ok result => result
  | Throw e =>
      {| passed := false;
         message := TestFailedWithError e;
         details := [ErrorMessage e] |}
  end.

Record Report : Type := {
  passed_tests : nat;
  total_tests : nat;
  all_passed : bool;
  results : list VerificationResult
}.

Definition runFullVerification (t : Tables) (files : Files) : Report :=
  let results :=
    [run_test (verifyChannelCounts t files);
     run_test (verifyVideoCounts t files);
     run_test (verifyDataIntegrity t);
     run_test (verifyCSVFiles files)] in
  let passed_count := length (List.filter passed results) in
  let total := length results in
  {| passed_tests := passed_count;
     total_tests := total;
     all_passed := (passed_count =? total)%nat;
     results := results |}.

End Verification.

(* ===================================================================== *)
(** ** A reconciliation scenario                                          *)
(* ===================================================================== *)

(** A store that answers every request. *)
Definition reliable : Backend :=
  {| fault := fun _ _ => None;
     default_created_at := Some "2024-05-01T08:00:00+00:00";
     default_visible := Some true;
     arrival := fun i => i |}.

Definition empty_tables : Tables :=
  {| tv_channels := []; tv_media_items := []; tv_channel_statistics := [] |}.

Definition no_files : Files :=
  {| export_channels_csv := None;
     export_videos_csv := None;
     export_channel_statistics_csv := None;
     export_summary_json := None |}.

Definition sample_video (id title : string) (views : Z) : VideoData :=
  {| vd_id := id;
     vd_title := title;
     vd_date := "2024-04-30";
     vd_contentType := Some "podcast";
     vd_duration := Some "12:34";
     vd_description := Some "Notes, links and credits";
     vd_thumbnails := None;
     vd_views := Some (Num views);
     vd_likes := Some (Num 2);
     vd_comments := None |}.

Definition channel_A : ChannelData :=
  {| cd_slug := "A"; cd_name := "Channel A"; cd_youtubeId := Some "UCaaaaaaaaaaaaaaaaaaaaaa" |}.
Definition channel_B : ChannelData :=
  {| cd_slug := "B"; cd_name := "Channel B"; cd_youtubeId := Some "UCbbbbbbbbbbbbbbbbbbbbbb" |}.

Definition videos_A : list VideoData :=
  [sample_video "a0000000001" "First" 10; sample_video "a0000000002" "Second" 20;
   sample_video "a0000000003" "Third" 30; sample_video "a0000000004" "Fourth" 40;
   sample_video "a0000000005" "Fifth" 50].
Definition videos_B : list VideoData :=
  [sample_video "b0000000001" "One" 1; sample_video "b0000000002" "Two" 2;
   sample_video "b0000000003" "Three" 3].

(** The store after syncing the two channels. *)
Definition scenario_tables : Tables :=
  let t1 := fst (upsertChannel reliable channel_A empty_tables) in
  let t2 := fst (insertNewMediaItems reliable "A" videos_A t1) in
  let t3 := fst (upsertChannel reliable channel_B t2) in
  fst (insertNewMediaItems reliable "B" videos_B t3).

(** The files the export script writes for that store. *)
Definition scenario_files : Files :=
  fst (export_main reliable "2024-05-01T09:00:00.000Z" scenario_tables no_files).

(** A summary with [total_videos] replaced. *)
Definition set_total_videos (n : Z) (s : Summary) : Summary :=
  {| total_channels := total_channels s;
     channels_by_visibility := channels_by_visibility s;
     channels_with_youtube_id := channels_with_youtube_id s;
     total_videos := n;
     videos_per_channel := videos_per_channel s;
     export_timestamp := export_timestamp s |}.

(** The same files with [total_videos] of the summary replaced. *)
Definition with_total_videos (n : Z) (files : Files) : Files :=
  {| export_channels_csv := export_channels_csv files;
     export_videos_csv := export_videos_csv files;
     export_channel_statistics_csv := export_channel_statistics_csv files;
     export_summary_json := set_total_videos n <$> export_summary_json files |}.

(* ===================================================================== *)
(** ** Reference definitions for the statements                           *)
(* ===================================================================== *)

(** The decimal text of a natural number. *)
Definition decimal (n : N) : string := number_toString (Num (Z.of_N n)).

(** A duration token [PT#H#M#S] with optional components. *)
Definition duration_part (n : option N) (unit : ascii) : string :=
  match n with
  | Some k => number_toString (Num (Z.of_N k)) +:+ String unit ""
  | None => ""
  end.

Definition duration_token (h m s : option N) : string :=
  "PT" +:+ duration_part h "H" +:+ duration_part m "M" +:+ duration_part s "S".

Definition part_value (n : option N) : Z := Z.of_N (default 0%N n).

(** Exactly two decimal digits, and the same without a leading zero. *)
Definition two_digits (n : Z) : string :=
  String (digit_char (n / 10)) (String (digit_char (n mod 10)) "").

Definition unpadded (n : Z) : string :=
  if n <? 10 then String (digit_char n) "" else two_digits n.

Fixpoint all_digits (s : string) : bool :=
  match s with
  | String c r => is_digit c && all_digits r
  | EmptyString => true
  end.

(** A reader for one field of the delimited text the export writes:
    fields end at a comma, records at a newline; a field that opens with
    a double quote runs to its closing quote, two quotes inside standing
    for one.  It returns the field and the text that follows it. *)
Fixpoint read_bare (s : string) : string * string :=
  match s with
  | String c r =>
      if Ascii.eqb c comma || Ascii.eqb c newline then (EmptyString, s)
      else let '(field, rest) := read_bare r in (String c field, rest)
  | EmptyString => (EmptyString, EmptyString)
  end.

Fixpoint read_quoted (s : string) : option (string * string) :=
  match s with
  | String c r =>
      if Ascii.eqb c dquote
      then match r with
           | String d r' =>
               if Ascii.eqb d dquote
               then match read_quoted r' with
                    | Some (field, rest) => Some (String dquote field, rest)
                    | None => None
                    end
               else Some (EmptyString, r)
           | EmptyString => Some (EmptyString, EmptyString)
           end
      else match read_quoted r with
           | Some (field, rest) => Some (String c field, rest)
           | None => None
           end
  | EmptyString => None
  end.

Definition read_field (s : string) : option (string * string) :=
  match s with
  | String c r => if Ascii.eqb c dquote then read_quoted r else Some (read_bare s)
  | EmptyString => Some (EmptyString, EmptyString)
  end.

(** The text after a field: the end of the text, a comma or a newline. *)
Definition at_field_end (rest : string) : bool :=
  match rest with
  | String c _ => Ascii.eqb c comma || Ascii.eqb c newline
  | EmptyString => true
  end.




(** The three states of the visibility flag. *)
Definition is_visible (c : ChannelRow) : bool :=
  match ch_visible c with
  | Some true => true
  | _ => false
  end.
Definition is_hidden (c : ChannelRow) : bool :=
  match ch_visible c with
  | Some false => true
  | _ => false
  end.
Definition is_unknown (c : ChannelRow) : bool :=
  match ch_visible c with
  | None => true
  | _ => false
  end.

(** A store whose only channel has no visibility recorded. *)
Definition unknown_visibility_tables : Tables :=
  {| tv_channels :=
       [{| ch_slug := "A"; ch_name := "Channel A"; ch_youtube_id := None;
           ch_visible := None; ch_created_at := None |}];
     tv_media_items := [];
     tv_channel_statistics := [] |}.

(** The video a record is mapped to, when its publish date is valid. *)
Definition mapped (toISODate : string -> option string) (video : YouTubeVideo)
  : option VideoData :=
  toVideoData video <$> toISODate (yv_publishedAt video).

(** Every video record the remote can deliver. *)
Fixpoint remote_records (pages : PlaylistPages) : list YouTubeVideo :=
  match pages with
  | PageThrow => []
  | PageData _ details _ following =>
      match details with
      | DetailsData (Some items) => items
      | _ => []
      end ++ remote_records following
  end.

(** Two records on either side of the threshold, and a remote that
    delivers them on one page. *)
Definition sample_record (id duration : string) : YouTubeVideo :=
  {| yv_id := id;
     yv_title := "Episode";
     yv_description := "";
     yv_publishedAt := "2024-04-30T17:00:00Z";
     yv_thumbnails := {| yt_default := None; yt_medium := None; yt_high := None;
                         yt_standard := None; yt_maxres := None |};
     yv_duration := duration;
     yv_statistics := None |}.

Definition record_119 : YouTubeVideo := sample_record "short000119" "PT1M59S".
Definition record_120 : YouTubeVideo := sample_record "long0000120" "PT2M".

Definition boundary_remote : Remote :=
  {| uploadsPlaylistId := Some "UUaaaaaaaaaaaaaaaaaaaaaa";
     playlistPages :=
       PageData (Some [Some "short000119"; Some "long0000120"])
                (DetailsData (Some [record_119; record_120]))
                None PageThrow |}.

(** The calendar date of a UTC timestamp [YYYY-MM-DDTHH:MM:SSZ]. *)
Definition utc_date (timestamp : string) : option string :=
  Some (String.substring 0 10 timestamp).

(** Where a listed video comes from: a record of at least 120 seconds
    with a valid publish date. *)
Definition from_long_record (toISODate : string -> option string)
    (records : list YouTubeVideo) (v : VideoData) : Prop :=
  exists video date t,
    video ∈ records
    /\ toISODate (yv_publishedAt video) = Some date
    /\ v = toVideoData video date
    /\ parseDurationToSeconds (yv_duration video) = Num t
    /\ 120 <= t.

(** The channel upsert on the rows of [tv_channels]: the row of the slug
    is overwritten, or a row is added. *)
Definition overwrite (channelData : ChannelData) (r : ChannelRow) : ChannelRow :=
  if decide (ch_slug r = cd_slug channelData)
  then patch_channel (channelRecord channelData) r
  else r.

Definition upserted (channelData : ChannelData) (be : Backend)
    (rows : list ChannelRow) : list ChannelRow :=
  if slug_known rows (cd_slug channelData)
  then overwrite channelData <$> rows
  else rows ++ [{| ch_slug := cd_slug channelData;
                   ch_name := cd_name channelData;
                   ch_youtube_id := or_null (cd_youtubeId channelData);
                   ch_visible := default_visible be;
                   ch_created_at := default_created_at be |}].

(** A row of the slug holds the latest values of the record. *)
Definition up_to_date (channelData : ChannelData) (r : ChannelRow) : Prop :=
  ch_slug r = cd_slug channelData ->
  ch_name r = cd_name channelData
  /\ ch_youtube_id r = or_null (cd_youtubeId channelData).

(** The columns of a media item other than the engagement counters. *)
Definition descriptive (r : MediaItemRow) :=
  (mi_id r, mi_title r, mi_date r, mi_content_type r, mi_duration r,
   mi_description r, mi_youtube_id r, mi_image r, mi_channel_slug r,
   mi_youtube_url r, mi_apple_podcasts_url r, mi_created_at r).

Definition same_descriptive (rows rows' : list MediaItemRow) : Prop :=
  Forall2 (fun r r' => descriptive r = descriptive r') rows rows'.

(** A payload that writes the three counters and no other column. *)
Definition counters_only (views likes comments : Z) : MediaItemPayload :=
  {| pm_id := None; pm_title := None; pm_date := None; pm_content_type := None;
     pm_duration := None; pm_description := None; pm_youtube_id := None;
     pm_image := None; pm_channel_slug := None; pm_youtube_url := None;
     pm_views := Some (Some views);
     pm_likes := Some (Some likes);
     pm_comments := Some (Some comments);
     pm_apple_podcasts_url := None; pm_created_at := None |}.

(** The ids stored for a channel: the set [existingIds]. *)
Definition stored_ids (channelSlug : string) (t : Tables) : gset string :=
  list_to_set
    (mi_id <$> filter (fun r => mi_channel_slug r = Some channelSlug) (tv_media_items t)).

(** The videos of a batch that are already stored for the channel, in
    the order the store commits their update requests. *)
Definition committed (be : Backend) (channelSlug : string) (B : list VideoData)
    (t : Tables) : list VideoData :=
  commit_order (arrival be) (filter (fun v => vd_id v ∈ stored_ids channelSlug t) B).

(** The rows of [t'] that were not in [t]: the rows added at the end. *)
Definition added_rows (t t' : Tables) : list MediaItemRow :=
  drop (length (tv_media_items t)) (tv_media_items t').

(** The rows of [t'] that stand where the rows of [t] stood. *)
Definition kept_rows (t t' : Tables) : list MediaItemRow :=
  take (length (tv_media_items t)) (tv_media_items t').

Definition watch_url (id : string) : string :=
  "https://www.youtube.com/watch?v=" +:+ id.

(** A row as the sync creates it: canonical watch url, remote id equal to
    the id. *)
Definition canonical (r : MediaItemRow) : Prop :=
  mi_youtube_url r = Some (watch_url (mi_id r)) /\ mi_youtube_id r = Some (mi_id r).

(** [row] is the row the store creates from the record of a new video. *)
Definition created_from (be : Backend) (channelSlug : string) (v : VideoData)
    (row : MediaItemRow) : Prop :=
  new_media_item be (newRecord channelSlug v) = Some row.

(** The sums the statistics snapshot is compared with. *)
Definition channel_items (channelSlug : string) (t : Tables) : list MediaItemRow :=
  filter (fun r => mi_channel_slug r = Some channelSlug) (tv_media_items t).




(** A channel whose three stored items have 3, 7 and 0 likes, and a
    channel without items. *)
Definition liked_video (id : string) (likes : Z) : VideoData :=
  {| vd_id := id;
     vd_title := "Episode";
     vd_date := "2024-04-30";
     vd_contentType := None;
     vd_duration := None;
     vd_description := None;
     vd_thumbnails := None;
     vd_views := None;
     vd_likes := Some (Num likes);
     vd_comments := Some (Num (likes + 1)) |}.

Definition liked_tables : Tables :=
  let t1 := fst (upsertChannel reliable channel_A empty_tables) in
  let t2 := fst (upsertChannel reliable channel_B t1) in
  fst (insertNewMediaItems reliable "A"
         [liked_video "a0000000001" 3; liked_video "a0000000002" 7;
          liked_video "a0000000003" 0] t2).

Definition no_statistics : ChannelStatistics :=
  {| cs_subscriberCount := None; cs_viewCount := None; cs_videoCount := None |}.

(** Stores that refuse one kind of request on [tv_media_items]. *)
Definition refusing (verb : Verb) (message : string) : Backend :=
  {| fault := fun table v =>
       match table, verb, v with
       | TvMediaItems, Update, Update => Some message
       | TvMediaItems, Insert, Insert => Some message
       | TvMediaItems, Select, Select => Some message
       | TvMediaItems, Upsert, Upsert => Some message
       | _, _, _ => None
       end;
     default_created_at := default_created_at reliable;
     default_visible := default_visible reliable;
     arrival := arrival reliable |}.

(** The videos of channel A seen again with new counters, and a video
    seen for the first time. *)
Definition videos_A_again : list VideoData :=
  [sample_video "a0000000001" "First" 11; sample_video "a0000000002" "Second" 22].

Definition video_A_new : VideoData := sample_video "a0000000006" "Sixth" 60.

(** Which of the four checks pass, in the order they are run. *)
Definition checks_passed (be : Backend) (t : Tables) (files : Files) : list bool :=
  passed <$> results (runFullVerification be t files).

(** The effect of the update request of a video on a row, and of the
    requests of a list of videos in order. *)
Definition apply_counters (v : VideoData) (r : MediaItemRow) : MediaItemRow :=
  if decide (mi_id r = vd_id v) then patch_media_item (updateRecord v) r else r.

Definition after_updates (vs : list VideoData) (r : MediaItemRow) : MediaItemRow :=
  foldl (fun r v => apply_counters v r) r vs.

(** The counters of a row are those of a video, a missing one being 0. *)
Definition has_counters_of (v : VideoData) (r : MediaItemRow) : Prop :=
  mi_views r = Some (or_zero (vd_views v))
  /\ mi_likes r = Some (or_zero (vd_likes v))
  /\ mi_comments r = Some (or_zero (vd_comments v)).



(* ===================================================================== *)
(** ** Remote catalog client: lookups and the import run                  *)
(* ===================================================================== *)

(** What a request to the remote API resolves to, as far as the client
    reads it: the request is rejected (or its body is not JSON), or it
    delivers [data.items], which may be absent. *)
Inductive Fetched (A : Type) : Type :=
  | FetchRejected
  | FetchedItems (items : option (list A)).
Arguments FetchRejected {A}.
Arguments FetchedItems {A} items.

(** [data.items && data.items.length > 0 ? data.items[0] : nothing], and
    nothing as well when the request throws (the [catch] only logs). *)
Definition first_item {A : Type} (response : Fetched A) : option A :=
  match response with
  | FetchedItems (Some (item :: _)) => Some item
  | _ => None
  end.

(** The answers of the remote API, by request.  Items are reduced to the
    field the client reads: [id] for the lookup by username,
    [snippet.channelId] for the search,
    [contentDetails?.relatedPlaylists?.uploads] and [statistics] for the
    two requests by channel id; the playlist pages are those of
    [getVideosFromChannel]. *)
Record World : Type := {
  w_by_username : string -> Fetched string;
  w_by_name : string -> Fetched string;
  w_uploads : string -> Fetched (option string);
  w_playlist : string -> PlaylistPages;
  w_statistics : string -> Fetched (option ChannelStatistics)
}.

Definition getChannelIdByUsername (world : World) (username : string) : option string :=
  first_item (w_by_username world username).

Definition searchChannelByName (world : World) (channelName : string) : option string :=
  first_item (w_by_name world channelName).

Definition getUploadsPlaylistId (world : World) (channelId : string) : option string :=
  or_null (first_item (w_uploads world channelId) ≫= id).

Definition no_channel_statistics : ChannelStatistics :=
  {| cs_subscriberCount := None; cs_viewCount := None; cs_videoCount := None |}.

(** [data.items[0].statistics || {}], and [{}] in every other case. *)
Definition fetchChannelStatistics (world : World) (channelId : string)
  : ChannelStatistics :=
  default no_channel_statistics (first_item (w_statistics world channelId) ≫= id).

(** [Object.keys(channelStats).length > 0] *)
Definition has_keys (statistics : ChannelStatistics) : bool :=
  negb (is_null (cs_subscriberCount statistics))
  || negb (is_null (cs_viewCount statistics))
  || negb (is_null (cs_videoCount statistics)).

(** The remote as [getVideosFromChannel channelId] meets it. *)
Definition remote_of (world : World) (channelId : string) : Remote :=
  {| uploadsPlaylistId := getUploadsPlaylistId world channelId;
     playlistPages := w_playlist world (default "" (getUploadsPlaylistId world channelId)) |}.

(** An entry of the configuration file: a [ChannelData], and the
    [youtubeUsername] the run reads beside it. *)
Record ChannelConfig : Type := {
  cfg_data : ChannelData;
  cfg_youtubeUsername : option string
}.

(** The three attempts of [main] at a channel id: the configured id, the
    lookup by username when one is configured, the search by name. *)
Definition resolveChannelId (world : World) (channel : ChannelConfig) : option string :=
  let channelId := or_null (cd_youtubeId (cfg_data channel)) in
  let channelId1 :=
    match channelId with
    | Some _ => channelId
    | None =>
        if truthy_string (cfg_youtubeUsername channel)
        then or_null (getChannelIdByUsername world
                        (default "" (cfg_youtubeUsername channel)))
        else None
    end in
  match channelId1 with
  | Some _ => channelId1
  | None => or_null (searchChannelByName world (cd_name (cfg_data channel)))
  end.

(** What the run logs for a channel. *)
Inductive ChannelOutcome : Type :=
  | ChannelError (message : string)        (* the outer [catch] *)
  | NoChannelId
  | NoVideos
  | Processed (videos : nat) (statisticsError : option string).

(** [args.includes('--limit-videos') ? parseInt(args[i + 1]) || 50 : undefined] *)
Fixpoint argument_after (flag : string) (args : list string) : option (option string) :=
  match args with
  | [] => None
  | arg :: rest =>
      if String.eqb arg flag then Some (head rest) else argument_after flag rest
  end.

Definition limit_of_args (args : list string) : option Z :=
  match argument_after "--limit-videos" args with
  | None => None
  | Some value =>
      Some match parseInt (default "undefined" value) with
           | Num z => if z =? 0 then 50 else z
           | NaN => 50
           end
  end.

Section ImportRun.

Variable toISODate : string -> option string.
Variable world : World.
Variable be : Backend.

(** The body of the loop of [main] over the configured channels;
    [today] is the calendar day at which its statistics are stored. *)
Definition process_channel (limitVideos : option Z) (today : string)
    (channel : ChannelConfig) (t : Tables) : Tables * ChannelOutcome :=
  match upsertChannel be (cfg_data channel) t with
  | (t1, Throw e) => (t1, ChannelError e)
  | (t1, Ok _) =>
      match resolveChannelId world channel with
      | None => (t1, NoChannelId)
      | Some channelId =>
          let videos :=
            getVideosFromChannel toISODate (remote_of world channelId) limitVideos in
          match videos with
          | [] => (t1, NoVideos)
          | _ :: _ =>
              match insertNewMediaItems be (cd_slug (cfg_data channel)) videos t1 with
              | (t2, Throw e) => (t2, ChannelError e)
              | (t2, Ok _) =>
                  let channelStats := fetchChannelStatistics world channelId in
                  if has_keys channelStats
                  then
                    match upsertChannelStatistics be today (cd_slug (cfg_data channel))
                            channelStats None t2 with
                    | (t3, Throw e) => (t3, Processed (length videos) (Some e))
                    | (t3, Ok _) => (t3, Processed (length videos) None)
                    end
                  else (t2, Processed (length videos) None)
              end
          end
      end
  end.

(** [main]: the channels are processed one after the other; [today i] is
    the calendar day while the [i]-th of them is processed. *)
Fixpoint import_from (i : nat) (limitVideos : option Z) (today : nat -> string)
    (channelsConfig : list ChannelConfig) (t : Tables)
  : Tables * list ChannelOutcome :=
  match channelsConfig with
  | [] => (t, [])
  | channel :: rest =>
      let '(t1, outcome) := process_channel limitVideos (today i) channel t in
      let '(t2, outcomes) := import_from (S i) limitVideos today rest t1 in
      (t2, outcome :: outcomes)
  end.

Definition import_main (args : list string) (today : nat -> string)
    (channelsConfig : list ChannelConfig) (t : Tables)
  : Tables * list ChannelOutcome :=
  import_from 0 (limit_of_args args) today channelsConfig t.

End ImportRun.

(* ===================================================================== *)
(** ** Reference definitions for the further properties                   *)
(* ===================================================================== *)

(** The records the pagination reaches when no conversion throws and no
    limit stops it: those of each page in turn, up to the first page
    that is rejected, has no items or no video id, whose details are
    rejected, or that carries no continuation token. *)
Fixpoint reached_records (pages : PlaylistPages) : list YouTubeVideo :=
  match pages with
  | PageThrow => []
  | PageData None _ _ _ => []
  | PageData (Some items) details nextPageToken following =>
      if forallb (fun id => negb (truthy_string id)) items then []
      else
        match details with
        | DetailsThrow => []
        | DetailsData ditems =>
            default [] ditems
            ++ (if truthy_string nextPageToken then reached_records following else [])
        end
  end.

(** [limitVideos] as a condition: no limit, or the limit 0. *)
Definition unlimited (limitVideos : option Z) : Prop :=
  limitVideos = None \/ limitVideos = Some 0.

(** The text a value is exported as: nothing for [null] and
    [undefined], [String(value)] otherwise. *)
Definition text_of (value : JsValue) : string :=
  match value with
  | VNull | VUndefined => ""
  | _ => to_String value
  end.

(** A reader for a whole delimited text, built on [read_field]: fields
    are separated by commas and records by newlines, and the text does
    not end with a newline.  [fuel] bounds the number of fields. *)
Fixpoint read_rows (fuel : nat) (s : string) : option (list (list string)) :=
  match fuel with
  | O => None
  | S fuel' =>
      match read_field s with
      | None => None
      | Some (field, EmptyString) => Some [[field]]
      | Some (field, String c rest) =>
          match read_rows fuel' rest with
          | Some (row :: rows) =>
              if Ascii.eqb c comma then Some ((field :: row) :: rows)
              else if Ascii.eqb c newline then Some ([field] :: row :: rows)
              else None
          | _ => None
          end
      end
  end.

Definition read_csv (s : string) : option (list (list string)) :=
  read_rows (S (String.length s)) s.

(** The serialisation of rows of texts, as [arrayToCSV] joins them. *)
Definition row_text (fields : list string) : string :=
  String.concat "," ((fun field => escapeCSV (VString field)) <$> fields).

Definition rows_text (rows : list (list string)) : string :=
  String.concat (String newline "") (row_text <$> rows).

(** The cells of a row object under the headers. *)
Definition cells {Row : Type} (get : Row -> string -> JsValue) (headers : list string)
    (row : Row) : list string :=
  (fun header => text_of (get row header)) <$> headers.

(** An identifier as the record counter of the verification expects it:
    exactly 11 characters of the class [[a-zA-Z0-9_-]]. *)
Definition video_id_like (id : string) : bool :=
  match id_chars 11 id with
  | Some EmptyString => true
  | _ => false
  end.

(** Reading a text with the quote state [q] (inside a quoted field or
    not): the state at the end, or [None] when a newline stands outside
    quotes. *)
Fixpoint scan_quotes (s : string) (q : bool) : option bool :=
  match s with
  | EmptyString => Some q
  | String c r =>
      if Ascii.eqb c dquote then scan_quotes r (negb q)
      else if Ascii.eqb c newline then (if q then scan_quotes r q else None)
      else scan_quotes r q
  end.

(** The lines that continue a record: each starts inside quotes, and the
    last one leaves them. *)
Fixpoint continuation (lines : list string) (q : bool) : Prop :=
  match lines with
  | [] => q = false
  | line :: rest =>
      q = true /\ continuation rest (xorb q (Nat.odd (quoteCount line)))
  end.

(** The number of fields of rows of texts. *)
Definition count_fields (rows : list (list string)) : nat :=
  foldr (fun row n => (length row + n)%nat) O rows.

(** A record row: a video identifier and at least one more field. *)
Definition record_row (row : list string) : Prop :=
  exists id f fs, row = id :: f :: fs /\ video_id_like id = true.

(** The snapshots stored for a channel, and the order of
    [.order('date', { ascending: false })] on them. *)
Definition statistics_of (channelSlug : string) (t : Tables) : list StatisticsRow :=
  filter (fun r => st_channel_slug r = channelSlug) (tv_channel_statistics t).

Definition newer_first (a b : StatisticsRow) : Prop :=
  String.le (st_date b) (st_date a).

(** A store with three daily snapshots of channel A, written out of
    order. *)
Definition history_tables : Tables :=
  let t1 := fst (upsertChannelStatistics reliable "2024-05-01" "A" no_statistics
                   (Some "2024-04-29") liked_tables) in
  let t2 := fst (upsertChannelStatistics reliable "2024-05-01" "A" no_statistics
                   (Some "2024-05-01") t1) in
  fst (upsertChannelStatistics reliable "2024-05-01" "A" no_statistics
         (Some "2024-04-30") t2).

(** A stored item without a date. *)
Definition undated (r : MediaItemRow) : Prop := mi_date r = None.

Definition dated_row (id : string) (date : option string) : MediaItemRow :=
  {| mi_id := id; mi_title := "Episode"; mi_date := date;
     mi_content_type := None; mi_duration := None; mi_description := None;
     mi_youtube_id := None; mi_image := None; mi_channel_slug := Some "A";
     mi_youtube_url := None; mi_views := None; mi_likes := None;
     mi_comments := None; mi_apple_podcasts_url := None; mi_created_at := None |}.

(** The rows the video export collects: the items of each channel, in
    the order of the channels. *)
Definition videos_of_channels (t : Tables) (channels : list ChannelRow)
  : list MediaItemRow :=
  concat ((fun c => channel_items (ch_slug c) t) <$> channels).

(** A text without a line break, and a channel whose columns have none. *)
Definition one_line (s : string) : Prop := includes_char s newline = false.

Definition channel_on_one_line (c : ChannelRow) : Prop :=
  one_line (ch_slug c) /\ one_line (ch_name c)
  /\ one_line (default "" (ch_youtube_id c))
  /\ one_line (default "" (ch_created_at c)).

(** A stored item the integrity check has nothing to say about. *)
Definition clean_video (v : MediaItemRow) : Prop :=
  mi_id v <> "" /\ mi_title v <> "" /\ truthy_string (mi_date v) = true
  /\ (forall url, mi_youtube_url v = Some url -> url <> "" ->
        includes url "youtube.com/watch?v=" = true)
  /\ (forall n, mi_views v = Some n -> 0 <= n)
  /\ (forall n, mi_likes v = Some n -> 0 <= n)
  /\ (forall n, mi_comments v = Some n -> 0 <= n).

(** The issues of the integrity check, channel by channel. *)
Definition channel_issues (t : Tables) (channel : ChannelRow) : list Issue :=
  (if truthy_string (ch_youtube_id channel) then []
   else [ChannelMissingYoutubeId (ch_slug channel)])
  ++ concat (video_issues (ch_slug channel) <$> channel_items (ch_slug channel) t).

Definition integrity_issues (t : Tables) (channels : list ChannelRow) : list Issue :=
  concat (channel_issues t <$> channels).

(** The result of the integrity check for a list of issues. *)
Definition integrity_result (channels : list ChannelRow) (issues : list Issue)
  : VerificationResult :=
  if (0 <? length issues)%nat
  then {| passed := false;
          message := DataIntegrityIssues (length issues);
          details := take 20 issues |}
  else {| passed := true;
          message := DataIntegrityVerified (length channels);
          details := [] |}.

(** A row the import run owes to a configured channel: its descriptive
    columns are those of a listed video of the channel, which comes from
    a remote record of at least 120 seconds. *)
Definition imported_row (toISODate : string -> option string) (world : World)
    (channelsConfig : list ChannelConfig) (r : MediaItemRow) : Prop :=
  exists channel channelId v,
    channel ∈ channelsConfig
    /\ resolveChannelId world channel = Some channelId
    /\ from_long_record toISODate
         (remote_records (playlistPages (remote_of world channelId))) v
    /\ mi_id r = vd_id v
    /\ mi_title r = vd_title v
    /\ mi_date r = Some (vd_date v)
    /\ mi_channel_slug r = Some (cd_slug (cfg_data channel))
    /\ canonical r.

(** The slugs of the configuration, and of the stored channels. *)
Definition configured_slugs (channelsConfig : list ChannelConfig) : gset string :=
  list_to_set ((fun channel => cd_slug (cfg_data channel)) <$> channelsConfig).

Definition channel_slugs (t : Tables) : gset string :=
  list_to_set (ch_slug <$> tv_channels t).

(** A remote that lists the two boundary records for channel A and
    answers nothing else, and a configuration of three channels, the
    second without any way to a channel id. *)
Definition sample_world : World :=
  {| w_by_username := fun _ => FetchRejected;
     w_by_name := fun _ => FetchedItems None;
     w_uploads := fun channelId =>
       if String.eqb channelId "UCaaaaaaaaaaaaaaaaaaaaaa"
       then FetchedItems (Some [Some "UUaaaaaaaaaaaaaaaaaaaaaa"])
       else FetchRejected;
     w_playlist := fun _ => playlistPages boundary_remote;
     w_statistics := fun _ => FetchRejected |}.

Definition sample_config : list ChannelConfig :=
  [{| cfg_data := channel_A; cfg_youtubeUsername := None |};
   {| cfg_data := {| cd_slug := "C"; cd_name := "Channel C"; cd_youtubeId := None |};
      cfg_youtubeUsername := Some "channel-c" |};
   {| cfg_data := channel_B; cfg_youtubeUsername := None |}].

(** The per-channel mismatches of the video count check: a channel
    absent from the summary counts as 0 there, unless its slug names a
    property every object inherits, which is never equal to a count. *)
Definition count_mismatches (t : Tables) (summary : Summary)
    (channels : list ChannelRow) : list Issue :=
  omap (fun c =>
          let dbCount := Z.of_nat (length (channel_items (ch_slug c) t)) in
          match videos_per_channel summary !! ch_slug c with
          | Some n =>
              if dbCount =? n then None
              else Some (ChannelVideoMismatch (ch_slug c) dbCount n)
          | None =>
              if inherited_name (ch_slug c)
              then Some (ChannelVideoMismatchObject (ch_slug c) dbCount)
              else if dbCount =? 0 then None
              else Some (ChannelVideoMismatch (ch_slug c) dbCount 0)
          end)
       channels.

(** A listed channel whose number of stored items agrees with the
    summary. *)
Definition agrees_with_summary (t : Tables) (summary : Summary) (c : ChannelRow)
  : Prop :=
  match videos_per_channel summary !! ch_slug c with
  | Some n => n = Z.of_nat (length (channel_items (ch_slug c) t))
  | None => inherited_name (ch_slug c) = false /\ channel_items (ch_slug c) t = []
  end.


(** [Number.MAX_SAFE_INTEGER], [2^53 - 1]: up to it the integers and
    their sums and products are exact in JavaScript. *)
Definition max_safe_integer : Z := 9007199254740991.

(** The display of a number of seconds: H:MM:SS when the hours are
    positive, M:SS otherwise. *)
Definition duration_display (t : Z) : string :=
  if 0 <? t / 3600
  then number_toString (Num (t / 3600)) +:+ ":"
       +:+ two_digits (t mod 3600 / 60) +:+ ":" +:+ two_digits (t mod 60)
  else unpadded (t mod 3600 / 60) +:+ ":" +:+ two_digits (t mod 60).

(** A listed video carries the fields of the record it was built from. *)
Definition listed_as (video : YouTubeVideo) (date : string) (v : VideoData) : Prop :=
  vd_id v = yv_id video
  /\ vd_title v = yv_title video
  /\ vd_date v = date
  /\ vd_contentType v = Some "podcast"
  /\ vd_description v = Some (yv_description video)
  /\ vd_duration v = Some (formatDuration (yv_duration video))
  /\ (yv_statistics video = None ->
      vd_views v = Some (Num 0) /\ vd_likes v = Some (Num 0)
      /\ vd_comments v = Some (Num 0)).

(** A record the listing keeps: at least 120 seconds. *)
Definition long_record (video : YouTubeVideo) : Prop :=
  exists t, parseDurationToSeconds (yv_duration video) = Num t /\ 120 <= t.

(** The video the boundary remote is listed as. *)
Definition listed_120 : VideoData :=
  {| vd_id := "long0000120";
     vd_title := "Episode";
     vd_date := "2024-04-30";
     vd_contentType := Some "podcast";
     vd_duration := Some "2:00";
     vd_description := Some "";
     vd_thumbnails :=
       Some {| th_default := Some ""; th_medium := Some ""; th_high := Some "";
               th_standard := Some ""; th_maxres := Some "" |};
     vd_views := Some (Num 0);
     vd_likes := Some (Num 0);
     vd_comments := Some (Num 0) |}.







(** A counter of a video as it is written: the value given, 0 when none
    is given or it is not a number. *)
Definition written_as (given : option number) (written : Z) : Prop :=
  (forall n, given = Some (Num n) -> written = n)
  /\ (given = None -> written = 0)
  /\ (given = Some NaN -> written = 0).

(** The three counters of a row are those of a video. *)
Definition holds_counters (v : VideoData) (r : MediaItemRow) : Prop :=
  (exists views, mi_views r = Some views /\ written_as (vd_views v) views)
  /\ (exists likes, mi_likes r = Some likes /\ written_as (vd_likes v) likes)
  /\ (exists comments,
        mi_comments r = Some comments /\ written_as (vd_comments v) comments).

(** A payload writes the three counters of a video and no other
    column. *)
Definition writes_counters (v : VideoData) (p : MediaItemPayload) : Prop :=
  exists views likes comments,
    p = counters_only views likes comments
    /\ written_as (vd_views v) views
    /\ written_as (vd_likes v) likes
    /\ written_as (vd_comments v) comments.

(** A batch that sees two stored videos of channel A again, the second
    without a view count, and a video for the first time. *)
Definition partial_video (id title : string) (likes : Z) : VideoData :=
  {| vd_id := id;
     vd_title := title;
     vd_date := "2024-04-30";
     vd_contentType := None;
     vd_duration := None;
     vd_description := None;
     vd_thumbnails := None;
     vd_views := None;
     vd_likes := Some (Num likes);
     vd_comments := Some NaN |}.

Definition mixed_batch : list VideoData :=
  [sample_video "a0000000001" "First" 11;
   partial_video "a0000000002" "Second" 7;
   sample_video "a0000000006" "Sixth" 60].

(** The row of channel A after it was upserted. *)
Definition channel_A_row : ChannelRow :=
  {| ch_slug := "A";
     ch_name := "Channel A";
     ch_youtube_id := Some "UCaaaaaaaaaaaaaaaaaaaaaa";
     ch_visible := Some true;
     ch_created_at := Some "2024-05-01T08:00:00+00:00" |}.

(** The remote id a channel record asks to store: the configured id,
    nothing when it is absent or empty. *)
Definition asks_youtube_id (channelData : ChannelData) (stored : option string) : Prop :=
  (forall id, cd_youtubeId channelData = Some id -> id <> "" -> stored = Some id)
  /\ (cd_youtubeId channelData = None -> stored = None)
  /\ (cd_youtubeId channelData = Some "" -> stored = None).

(* ===================================================================== *)
(** * Properties                                                          *)
(* ===================================================================== *)

(** ** Strings and decimal numbers *)

Lemma app_String c s r : String c s +:+ r = String c (s +:+ r).
Proof. reflexivity. Qed.

Lemma app_empty_l r : "" +:+ r = r.
Proof. reflexivity. Qed.

Lemma all_digits_uint u : all_digits (NilEmpty.string_of_uint u) = true.
Proof. induction u; simpl; auto. Qed.

Lemma digits_value_acc u p :
  digits_value (Z.pos p) (NilEmpty.string_of_uint u) = Z.pos (Pos.of_uint_acc u p).
Proof.
  revert p. induction u; intros p; simpl; try reflexivity;
    match goal with
    | |- context [digits_value ?a _] =>
        match goal with
        | |- _ = Z.pos (Pos.of_uint_acc _ ?q) =>
            replace a with (Z.pos q) by (unfold digit_val; simpl; lia)
        end
    end; apply IHu.
Qed.

Lemma digits_value_uint u :
  digits_value 0 (NilEmpty.string_of_uint u) = Z.of_N (Pos.of_uint u).
Proof.
  induction u; simpl; try reflexivity; try exact IHu;
    match goal with
    | |- context [digits_value ?a _] =>
        match goal with
        | |- _ = Z.pos (Pos.of_uint_acc _ ?q) =>
            replace a with (Z.pos q) by (unfold digit_val; simpl; lia)
        end
    end; apply digits_value_acc.
Qed.

Lemma decimal_cases n :
  exists u, u <> Decimal.Nil /\ decimal n = NilEmpty.string_of_uint u
            /\ Pos.of_uint u = n.
Proof.
  destruct n as [|p].
  - exists (Decimal.D0 Decimal.Nil). repeat split. discriminate.
  - exists (Pos.to_uint p). repeat split.
    + apply Unsigned.to_uint_nonnil.
    + unfold decimal, number_toString. simpl.
      unfold NilZero.string_of_uint.
      pose proof (Unsigned.to_uint_nonnil p).
      destruct (Pos.to_uint p); congruence.
    + apply Unsigned.of_to.
Qed.

Lemma decimal_value n : digits_value 0 (decimal n) = Z.of_N n.
Proof.
  destruct (decimal_cases n) as (u & _ & -> & <-). apply digits_value_uint.
Qed.

Lemma decimal_all_digits n : all_digits (decimal n) = true.
Proof.
  destruct (decimal_cases n) as (u & _ & -> & _). apply all_digits_uint.
Qed.

Lemma decimal_nonempty n : exists c r, decimal n = String c r.
Proof.
  destruct (decimal_cases n) as (u & Hu & -> & _).
  destruct u; simpl; eauto. congruence.
Qed.

Lemma digit_facts c :
  is_digit c = true ->
  Ascii.is_space c = false /\ Ascii.eqb c "-" = false /\ Ascii.eqb c "+" = false
  /\ Ascii.eqb c "x" = false /\ Ascii.eqb c "X" = false /\ 0 <= digit_val c.
Proof.
  destruct c as [[] [] [] [] [] [] [] []]; try discriminate; intros _;
    repeat split; try reflexivity; unfold digit_val; simpl; lia.
Qed.

Lemma span_digits_app ds c r :
  all_digits ds = true -> is_digit c = false ->
  span_digits (ds +:+ String c r) = (ds, String c r).
Proof.
  intros Hds Hc. induction ds as [|d ds IH]; simpl in *.
  - now rewrite Hc.
  - apply andb_prop in Hds as [Hd Hds].
    rewrite Hd, (IH Hds). reflexivity.
Qed.

Lemma span_digits_all ds :
  all_digits ds = true -> span_digits ds = (ds, "").
Proof.
  induction ds as [|d ds IH]; simpl; [reflexivity|].
  intros [Hd Hds]%andb_prop. now rewrite Hd, (IH Hds).
Qed.

Lemma span_digits_digits s :
  all_digits (fst (span_digits s)) = true.
Proof.
  induction s as [|c r IH]; simpl; [reflexivity|].
  destruct (is_digit c) eqn:Hc; [|reflexivity].
  destruct (span_digits r) as [ds rest]. simpl in *. now rewrite Hc, IH.
Qed.

Lemma duration_group_hit X ds r :
  all_digits ds = true -> ds <> "" -> is_digit X = false ->
  duration_group X (ds +:+ String X r) = (Some ds, r).
Proof.
  intros Hds Hne HX. unfold duration_group.
  rewrite (span_digits_app _ _ _ Hds HX).
  destruct ds; [congruence|]. now rewrite Ascii.eqb_refl.
Qed.

Lemma duration_group_other X Y ds r :
  all_digits ds = true -> is_digit Y = false -> Ascii.eqb Y X = false ->
  duration_group X (ds +:+ String Y r) = (None, ds +:+ String Y r).
Proof.
  intros Hds HY HXY. unfold duration_group.
  rewrite (span_digits_app _ _ _ Hds HY).
  destruct ds; [reflexivity|]. now rewrite HXY.
Qed.

Lemma duration_group_empty X : duration_group X "" = (None, "").
Proof. reflexivity. Qed.

Lemma duration_group_capture X s ds r :
  duration_group X s = (Some ds, r) ->
  all_digits ds = true /\ exists c ds', ds = String c ds'.
Proof.
  unfold duration_group. pose proof (span_digits_digits s) as H.
  destruct (span_digits s) as [[|d ds0] [|c r0]]; try discriminate.
  destruct (Ascii.eqb c X); [|discriminate].
  intros [= <- <-]. eauto.
Qed.

Lemma digits_value_nonneg s acc : 0 <= acc -> 0 <= digits_value acc s.
Proof.
  revert acc. induction s as [|c r IH]; simpl; intros acc Hacc; [assumption|].
  destruct (is_digit c) eqn:Hc; [|assumption].
  apply IH. pose proof (digit_facts c Hc). lia.
Qed.

Lemma parseInt_digits c ds :
  all_digits (String c ds) = true ->
  parseInt (String c ds) = Num (digits_value 0 (String c ds)).
Proof.
  intros H. pose proof H as H0. simpl in H0. apply andb_prop in H0 as [Hc Hds].
  destruct (digit_facts c Hc) as (Hsp & Hm & Hp & Hx & HX & _).
  unfold parseInt. cbn [trimStart]. rewrite Hsp, Hm, Hp.
  assert (starts_with "0x" (String c ds) = false) as ->.
  { cbn [starts_with]. destruct ds as [|d ds]; [now rewrite andb_false_r|].
    simpl in Hds. apply andb_prop in Hds as [Hd _].
    destruct (digit_facts d Hd) as (_ & _ & _ & Hdx & _).
    rewrite Ascii.eqb_sym in Hdx. rewrite Hdx. now rewrite andb_false_r. }
  assert (starts_with "0X" (String c ds) = false) as ->.
  { cbn [starts_with]. destruct ds as [|d ds]; [now rewrite andb_false_r|].
    simpl in Hds. apply andb_prop in Hds as [Hd _].
    destruct (digit_facts d Hd) as (_ & _ & _ & _ & HdX & _).
    rewrite Ascii.eqb_sym in HdX. rewrite HdX. now rewrite andb_false_r. }
  cbn [orb]. now rewrite Hc.
Qed.

Lemma parseInt_decimal n : parseInt (decimal n) = Num (Z.of_N n).
Proof.
  destruct (decimal_nonempty n) as (c & r & E).
  pose proof (decimal_all_digits n) as Hd. pose proof (decimal_value n) as Hv.
  rewrite E in *. rewrite parseInt_digits by assumption. now rewrite Hv.
Qed.

Lemma capture_value (c : option string) :
  (forall ds, c = Some ds -> all_digits ds = true /\ exists d ds', ds = String d ds') ->
  exists v, 0 <= v /\ parseInt (or_string c "0") = Num v.
Proof.
  intros H. destruct c as [ds|]; [|exists 0; split; [lia|reflexivity]].
  destruct (H ds eq_refl) as (Hd & d & ds' & ->). simpl.
  exists (digits_value 0 (String d ds')). split.
  - apply digits_value_nonneg. lia.
  - now apply parseInt_digits.
Qed.

Lemma parseDuration_nonneg d :
  exists t, 0 <= t /\ parseDurationToSeconds d = Num t.
Proof.
  unfold parseDurationToSeconds, duration_match.
  destruct (after_PT d) as [r|]; [|exists 0; split; [lia|reflexivity]].
  destruct (duration_group "H" r) as [h r1] eqn:Eh.
  destruct (duration_group "M" r1) as [m r2] eqn:Em.
  destruct (duration_group "S" r2) as [s r3] eqn:Es.
  destruct (capture_value h) as (vh & ? & ->).
  { intros ds ->. eapply duration_group_capture; eauto. }
  destruct (capture_value m) as (vm & ? & ->).
  { intros ds ->. eapply duration_group_capture; eauto. }
  destruct (capture_value s) as (vs & ? & ->).
  { intros ds ->. eapply duration_group_capture; eauto. }
  simpl. eexists. split; [|reflexivity]. lia.
Qed.

Lemma string_app_assoc (a b c : string) : (a +:+ b) +:+ c = a +:+ (b +:+ c).
Proof. induction a as [|x a IH]; [reflexivity|]. now rewrite !app_String, IH. Qed.

Lemma part_parse (n : option N) :
  parseInt (or_string (decimal <$> n) "0") = Num (part_value n).
Proof.
  destruct n as [n|]; [|reflexivity].
  change (decimal <$> Some n) with (Some (decimal n)).
  change (part_value (Some n)) with (Z.of_N n).
  rewrite <- (parseInt_decimal n).
  destruct (decimal_nonempty n) as (c & r & ->). reflexivity.
Qed.

Lemma decimal_not_empty n : decimal n <> "".
Proof. destruct (decimal_nonempty n) as (c & r & ->). discriminate. Qed.

Lemma parse_duration_token (h m s : option N) :
  parseDurationToSeconds (duration_token h m s)
  = Num (part_value h * 3600 + part_value m * 60 + part_value s).
Proof.
  assert (Hmatch : duration_match (duration_token h m s)
                   = Some (decimal <$> h, decimal <$> m, decimal <$> s)).
  { unfold duration_match, duration_token.
    change (after_PT ("PT" +:+ ?r)) with (Some r).
    destruct h as [h|], m as [m|], s as [s|]; unfold duration_part;
      repeat match goal with
        | |- context [number_toString (Num (Z.of_N ?k))] =>
            change (number_toString (Num (Z.of_N k))) with (decimal k)
        end;
      rewrite ?string_app_assoc, ?app_String, ?app_empty_l;
      repeat first
        [ rewrite duration_group_hit
            by (first [apply decimal_all_digits | apply decimal_not_empty | reflexivity])
        | rewrite duration_group_other
            by (first [apply decimal_all_digits | reflexivity])
        | rewrite duration_group_empty ];
      reflexivity. }
  unfold parseDurationToSeconds. rewrite Hmatch, !part_parse. reflexivity.
Qed.

Lemma small_numbers_table :
  forallb (fun n => String.eqb (padStart 2 "0" (number_toString (Num n))) (two_digits n)
                    && String.eqb (number_toString (Num n)) (unpadded n))
          (seqZ 0 100) = true.
Proof. vm_compute. reflexivity. Qed.

Lemma small_numbers n :
  0 <= n < 100 ->
  padStart 2 "0" (number_toString (Num n)) = two_digits n
  /\ number_toString (Num n) = unpadded n.
Proof.
  intros Hn. pose proof small_numbers_table as T.
  rewrite forallb_forall in T. specialize (T n).
  assert (In n (seqZ 0 100)) as Hin.
  { apply list_elem_of_In, elem_of_seqZ. lia. }
  apply T in Hin. apply andb_prop in Hin as [H1 H2].
  apply String.eqb_eq in H1, H2. auto.
Qed.

Lemma format_duration_shape d :
  exists t, 0 <= t /\ parseDurationToSeconds d = Num t
    /\ formatDuration d =
         if 0 <? t / 3600
         then number_toString (Num (t / 3600)) +:+ ":"
              +:+ two_digits (t mod 3600 / 60) +:+ ":" +:+ two_digits (t mod 60)
         else unpadded (t mod 3600 / 60) +:+ ":" +:+ two_digits (t mod 60).
Proof.
  destruct (parseDuration_nonneg d) as (t & Ht & E).
  exists t. repeat split; [assumption..|].
  unfold formatDuration. rewrite E. cbn [floor_div nrem ngtb].
  rewrite !Z.rem_mod_nonneg by lia.
  assert (0 <= t mod 3600 / 60 < 100) as Hm.
  { pose proof (Z.mod_pos_bound t 3600 ltac:(lia)).
    split; [apply Z.div_pos; lia|]. apply Z.div_lt_upper_bound; lia. }
  assert (0 <= t mod 60 < 100) as Hs.
  { pose proof (Z.mod_pos_bound t 60 ltac:(lia)). lia. }
  destruct (small_numbers _ Hm) as [-> ->].
  destruct (small_numbers _ Hs) as [-> _].
  reflexivity.
Qed.

Lemma no_PT_no_match d : includes d "PT" = false -> after_PT d = None.
Proof.
  induction d as [|c r IH]; [reflexivity|].
  cbn [includes starts_with after_PT]. intros H.
  apply orb_false_elim in H as [H1 H2].
  destruct r as [|e r']; [reflexivity|].
  rewrite andb_true_r in H1.
  rewrite (Ascii.eqb_sym c), (Ascii.eqb_sym e), H1. apply IH, H2.
Qed.

(** C4. For a duration token whose components total at most the largest
    safe integer, [parseDurationToSeconds] returns the hours times 3600
    plus the minutes times 60 plus the seconds, a missing component
    counting as 0, and [formatDuration] renders that total as H:MM:SS
    when the hours are positive and as M:SS otherwise, minutes without a
    leading zero and seconds on two digits; the same display is given
    for any text whose parsed total is within that bound; the three
    example tokens give 3723, 309 and 0 seconds with their displays, and
    a text without the PT marker gives 0 seconds and the display 0:00. *)
Theorem duration_parse_and_format (h m s : option N) (d : string) (t : Z) :
  (part_value h * 3600 + part_value m * 60 + part_value s <= max_safe_integer ->
   parseDurationToSeconds (duration_token h m s)
   = Num (part_value h * 3600 + part_value m * 60 + part_value s)
   /\ formatDuration (duration_token h m s)
      = duration_display (part_value h * 3600 + part_value m * 60 + part_value s))
  /\ (parseDurationToSeconds d = Num t -> t <= max_safe_integer ->
      0 <= t /\ formatDuration d = duration_display t)
  /\ (parseDurationToSeconds "PT1H2M3S" = Num 3723 /\ formatDuration "PT1H2M3S" = "1:02:03")
  /\ (parseDurationToSeconds "PT5M9S" = Num 309 /\ formatDuration "PT5M9S" = "5:09")
  /\ (parseDurationToSeconds "PT0S" = Num 0 /\ formatDuration "PT0S" = "0:00")
  /\ (includes d "PT" = false ->
      parseDurationToSeconds d = Num 0 /\ formatDuration d = "0:00").
Proof.
  split; [|split].
  - intros _. pose proof (parse_duration_token h m s) as Hp.
    split; [exact Hp|].
    destruct (format_duration_shape (duration_token h m s)) as (t' & _ & E & ->).
    rewrite Hp in E. injection E as <-. reflexivity.
  - intros Hd _. destruct (format_duration_shape d) as (t' & Ht & E & ->).
    rewrite Hd in E. injection E as <-. split; [assumption|reflexivity].
  - repeat split; try reflexivity.
    + unfold parseDurationToSeconds, duration_match.
      now rewrite (no_PT_no_match d H).
    + unfold formatDuration, parseDurationToSeconds, duration_match.
      now rewrite (no_PT_no_match d H).
Qed.

Lemma duration_parse_and_format_witness :
  parseDurationToSeconds (duration_token (Some 1%N) (Some 2%N) (Some 3%N)) = Num 3723
  /\ formatDuration (duration_token (Some 1%N) (Some 2%N) (Some 3%N)) = "1:02:03".
Proof.
  destruct (duration_parse_and_format (Some 1%N) (Some 2%N) (Some 3%N) "PT0S" 0)
    as (H & _).
  apply H. vm_compute. discriminate.
Defined.

(** ** Export writer: escaping of fields *)




Lemma read_quoted_double_quotes str rest :
  at_field_end rest = true ->
  read_quoted (double_quotes str +:+ String dquote rest) = Some (str, rest).
Proof.
  intros Hrest. induction str as [|c r IH].
  - cbn [double_quotes]. rewrite app_empty_l. cbn [read_quoted].
    rewrite Ascii.eqb_refl. destruct rest as [|d r']; [reflexivity|].
    cbn [at_field_end] in Hrest.
    assert (Ascii.eqb d dquote = false) as ->; [|reflexivity].
    apply orb_prop in Hrest as [H|H]; apply Ascii.eqb_eq in H; subst; reflexivity.
  - cbn [double_quotes]. destruct (Ascii.eqb c dquote) eqn:Hc.
    + apply Ascii.eqb_eq in Hc. subst c. rewrite !app_String.
      cbn [read_quoted]. rewrite Ascii.eqb_refl. now rewrite IH.
    + rewrite app_String. cbn [read_quoted]. now rewrite Hc, IH.
Qed.

Lemma read_bare_plain str rest :
  includes_char str comma = false -> includes_char str newline = false ->
  at_field_end rest = true ->
  read_bare (str +:+ rest) = (str, rest).
Proof.
  intros Hc Hn Hrest. induction str as [|c r IH].
  - rewrite app_empty_l. destruct rest as [|d r']; [reflexivity|].
    cbn [at_field_end] in Hrest. cbn [read_bare]. now rewrite Hrest.
  - cbn [includes_char] in Hc, Hn.
    apply orb_false_elim in Hc as [Hc1 Hc2].
    apply orb_false_elim in Hn as [Hn1 Hn2].
    rewrite app_String. cbn [read_bare]. rewrite Hc1, Hn1. cbn [orb].
    now rewrite (IH Hc2 Hn2).
Qed.

Lemma read_field_escapeCSV str rest :
  at_field_end rest = true ->
  read_field (escapeCSV (VString str) +:+ rest) = Some (str, rest).
Proof.
  intros Hrest. unfold escapeCSV. cbn [to_String].
  destruct (needs_quoting str) eqn:Hq.
  - rewrite app_String. cbn [read_field]. rewrite Ascii.eqb_refl.
    rewrite string_app_assoc, app_String, app_empty_l.
    now apply read_quoted_double_quotes.
  - unfold needs_quoting in Hq.
    apply orb_false_elim in Hq as [Hq Hn].
    apply orb_false_elim in Hq as [Hc Hd].
    destruct str as [|c r].
    + rewrite app_empty_l. destruct rest as [|d r']; [reflexivity|].
      cbn [at_field_end] in Hrest. cbn [read_field].
      assert (Ascii.eqb d dquote = false) as ->.
      { apply orb_prop in Hrest as [H|H]; apply Ascii.eqb_eq in H; subst; reflexivity. }
      cbn [read_bare]. now rewrite Hrest.
    + rewrite app_String. cbn [read_field].
      pose proof Hd as Hd'. cbn [includes_char] in Hd'.
      apply orb_false_elim in Hd' as [-> _].
      rewrite <- app_String. now rewrite read_bare_plain.
Qed.










(** ** Export writer: the visibility breakdown of the summary *)

Lemma count_cons {A : Type} (p : A -> bool) (x : A) (xs : list A) :
  count p (x :: xs) = (if p x then 1 else 0) + count p xs.
Proof.
  unfold count. cbn [List.filter]. destruct (p x); cbn [length]; lia.
Qed.

Lemma count_nil {A : Type} (p : A -> bool) : count p [] = 0.
Proof. reflexivity. Qed.

Lemma visibility_of_counts (channels : list ChannelRow) :
  visible (visibility_of channels) = count is_visible channels
  /\ hidden (visibility_of channels) = count is_hidden channels + count is_unknown channels
  /\ null_visibility (visibility_of channels) = count is_unknown channels
  /\ Z.of_nat (length channels)
     = count is_visible channels + count is_hidden channels + count is_unknown channels.
Proof.
  unfold visibility_of. cbn [visible hidden null_visibility].
  induction channels as [|c cs (IH1 & IH2 & IH3 & IH4)].
  - repeat split.
  - rewrite !count_cons, IH1, IH2, IH3.
    change (length (c :: cs)) with (S (length cs)). rewrite Nat2Z.inj_succ, IH4.
    unfold is_visible, is_hidden, is_unknown.
    destruct (ch_visible c) as [[]|]; cbn; repeat split; lia.
Qed.

Lemma getAllChannels_Ok be t channels :
  getAllChannels be t = Ok channels -> channels = tv_channels t.
Proof.
  unfold getAllChannels, select_channels.
  destruct (fault be TvChannels Select); [discriminate|]. now intros [= <-].
Qed.

Lemma generateSummaryReport_Ok be timestamp t s :
  generateSummaryReport be timestamp t = Ok s ->
  total_channels s = Z.of_nat (length (tv_channels t))
  /\ channels_by_visibility s = visibility_of (tv_channels t).
Proof.
  unfold generateSummaryReport.
  destruct (getAllChannels be t) as [channels|e] eqn:E; [|discriminate].
  apply getAllChannels_Ok in E. subst channels. cbn.
  destruct (count_videos be t (tv_channels t) 0 ∅) as [[total counts]|e]; [|discriminate].
  cbn. intros [= <-]. split; reflexivity.
Qed.

(** C9, as stated, fails: a channel whose visibility is null is counted
    both as hidden and as unknown, so the three counts of the summary
    add up to 2 for a store of one channel. *)
Lemma visibility_counts_overlap :
  exists s,
    generateSummaryReport reliable "2024-05-01T09:00:00.000Z" unknown_visibility_tables = Ok s
    /\ total_channels s = 1
    /\ hidden (channels_by_visibility s) = 1
    /\ null_visibility (channels_by_visibility s) = 1
    /\ visible (channels_by_visibility s) + hidden (channels_by_visibility s)
       + null_visibility (channels_by_visibility s) <> total_channels s.
Proof.
  eexists. split; [reflexivity|]. vm_compute. repeat split. discriminate.
Qed.

(** C9, amended.  In every summary report, [visible] counts the channels
    whose flag is true, [null_visibility] those whose flag is null, and
    [hidden] those whose flag is false or null; each channel is in
    exactly one of the three states, so [visible + hidden] is
    [total_channels] and a null channel is counted twice, under [hidden]
    and under [null_visibility]. *)
Theorem summary_visibility_counts (be : Backend) (timestamp : string) (t : Tables)
    (s : Summary) :
  generateSummaryReport be timestamp t = Ok s ->
  let v := channels_by_visibility s in
  let channels := tv_channels t in
  visible v = count is_visible channels
  /\ null_visibility v = count is_unknown channels
  /\ hidden v = count is_hidden channels + count is_unknown channels
  /\ total_channels s
     = count is_visible channels + count is_hidden channels + count is_unknown channels
  /\ visible v + hidden v = total_channels s
  /\ visible v + hidden v + null_visibility v = total_channels s + count is_unknown channels.
Proof.
  intros H. apply generateSummaryReport_Ok in H as [Ht Hv]. cbn zeta.
  rewrite Hv, Ht.
  destruct (visibility_of_counts (tv_channels t)) as (H1 & H2 & H3 & H4).
  rewrite H1, H2, H3, H4. repeat split; lia.
Qed.

Lemma summary_visibility_counts_witness :
  exists s,
    generateSummaryReport reliable "2024-05-01T09:00:00.000Z" scenario_tables = Ok s
    /\ visible (channels_by_visibility s) + hidden (channels_by_visibility s)
       = total_channels s.
Proof.
  eexists. split; [reflexivity|].
  eapply (summary_visibility_counts reliable "2024-05-01T09:00:00.000Z" scenario_tables).
  reflexivity.
Defined.

(** ** Remote catalog client: the duration filter of the listing *)

Section ListingFacts.

Variable toISODate : string -> option string.

Lemma is_short_seconds (video : YouTubeVideo) :
  exists t, 0 <= t /\ parseDurationToSeconds (yv_duration video) = Num t
            /\ (is_short video = true <-> t < 120)
            /\ (is_short video = false <-> 120 <= t).
Proof.
  destruct (parseDuration_nonneg (yv_duration video)) as (t & Ht & E).
  exists t. unfold is_short. rewrite E. cbn [nltb].
  repeat split; try assumption; destruct (Z.ltb_spec t 120); intros; lia || congruence.
Qed.

Lemma process_items_prefix (limitVideos : option Z) (items : list YouTubeVideo) :
  forall videos,
  exists processed unprocessed new,
    items = processed ++ unprocessed
    /\ mapM (mapped toISODate) (filter (fun v => is_short v = false) processed) = Some new
    /\ fst (process_items toISODate limitVideos videos items) = videos ++ new
    /\ (snd (process_items toISODate limitVideos videos items) = Completed ->
        unprocessed = []).
Proof.
  induction items as [|video rest IH]; intros videos.
  - exists [], [], []. cbn. rewrite app_nil_r. auto.
  - cbn [process_items]. destruct (is_short video) eqn:Hs.
    + destruct (IH videos) as (p & u & new & -> & Hm & Hf & Hc).
      exists (video :: p), u, new. repeat split; try assumption.
      rewrite filter_cons_False by congruence. assumption.
    + destruct (toISODate (yv_publishedAt video)) as [date|] eqn:Hd.
      * destruct (limit_reached limitVideos (videos ++ [toVideoData video date])).
        -- exists [video], rest, [toVideoData video date]. repeat split.
           ++ rewrite filter_cons_True by assumption. apply mapM_Some.
              repeat constructor. unfold mapped. now rewrite Hd.
           ++ discriminate.
        -- destruct (IH (videos ++ [toVideoData video date]))
             as (p & u & new & -> & Hm & Hf & Hc).
           exists (video :: p), u, (toVideoData video date :: new). repeat split.
           ++ rewrite filter_cons_True by assumption.
              apply mapM_Some in Hm. apply mapM_Some.
              constructor; [|exact Hm]. unfold mapped. now rewrite Hd.
           ++ rewrite Hf, <- app_assoc. reflexivity.
           ++ assumption.
      * exists [], (video :: rest), []. cbn. rewrite app_nil_r.
        repeat split. discriminate.
Qed.

Lemma from_long_record_mono records records' v :
  records ⊆ records' -> from_long_record toISODate records v -> from_long_record toISODate records' v.
Proof.
  intros Hsub (video & date & t & Hin & H). exists video, date, t. split; auto.
Qed.

Lemma process_items_sound limitVideos items videos v :
  v ∈ fst (process_items toISODate limitVideos videos items) ->
  v ∈ videos \/ from_long_record toISODate items v.
Proof.
  destruct (process_items_prefix limitVideos items videos)
    as (p & u & new & -> & Hm & -> & _).
  rewrite elem_of_app. intros [H|H]; [now left|right].
  apply mapM_Some in Hm.
  apply list_elem_of_lookup in H as [i Hi].
  destruct (Forall2_lookup_r _ _ _ _ _ Hm Hi) as (video & Hv & Hmap).
  apply list_elem_of_lookup_2 in Hv. apply list_elem_of_filter in Hv as [Hlong Hin].
  unfold mapped in Hmap. destruct (toISODate (yv_publishedAt video)) as [date|] eqn:Hd;
    [|discriminate].
  cbn in Hmap. injection Hmap as <-.
  destruct (is_short_seconds video) as (t & _ & Et & _ & Hl).
  exists video, date, t. repeat split; try assumption.
  - apply elem_of_app. now left.
  - now apply Hl.
Qed.

Lemma fetch_pages_sound limitVideos pages :
  forall videos v,
  v ∈ fetch_pages toISODate limitVideos videos pages ->
  v ∈ videos \/ from_long_record toISODate (remote_records pages) v.
Proof.
  induction pages as [|items details token following IH]; intros videos v.
  - cbn. auto.
  - cbn [fetch_pages remote_records].
    destruct items as [items|]; [|auto].
    destruct (length _ =? 0)%nat; [auto|].
    destruct details as [|ditems]; [auto|].
    destruct (process_items toISODate limitVideos videos (default [] ditems))
      as [videos' exit] eqn:Ep.
    assert (Hp : forall w, w ∈ videos' ->
                 w ∈ videos \/ from_long_record toISODate (default [] ditems) w).
    { intros w Hw. apply (process_items_sound limitVideos). now rewrite Ep. }
    assert (Hsub : forall w, w ∈ videos' ->
                   w ∈ videos
                   \/ from_long_record toISODate
                        (match ditems with Some l => l | None => [] end
                         ++ remote_records following) w).
    { intros w Hw. destruct (Hp w Hw) as [?|Hl]; [now left|right].
      eapply from_long_record_mono; [|exact Hl].
      intros x Hx. apply elem_of_app. left. destruct ditems; exact Hx. }
    destruct exit; [|auto..].
    destruct (truthy_string token); [|auto].
    intros Hv. destruct (IH _ _ Hv) as [Hw|Hl]; [auto|right].
    eapply from_long_record_mono; [|exact Hl].
    intros x Hx. apply elem_of_app. now right.
Qed.

Lemma limit_reached_unlimited limitVideos videos :
  unlimited limitVideos -> limit_reached limitVideos videos = false.
Proof. intros [->| ->]; reflexivity. Qed.

Lemma process_items_unlimited limitVideos (items : list YouTubeVideo) :
  unlimited limitVideos ->
  forall videos new,
    mapM (mapped toISODate) (filter (fun v => is_short v = false) items) = Some new ->
    process_items toISODate limitVideos videos items = (videos ++ new, Completed).
Proof.
  intros Hu. induction items as [|video rest IH]; intros videos new.
  - cbn. intros [= <-]. now rewrite app_nil_r.
  - cbn [process_items]. destruct (is_short video) eqn:Hs.
    + rewrite filter_cons_False by congruence. apply IH.
    + rewrite filter_cons_True by assumption. intros Hm.
      apply mapM_Some in Hm. inversion Hm as [|? v' ? new' Hv Hrest]; subst.
      unfold mapped in Hv.
      destruct (toISODate (yv_publishedAt video)) as [date|]; [|discriminate].
      cbn in Hv. injection Hv as <-.
      rewrite (limit_reached_unlimited _ _ Hu).
      apply mapM_Some in Hrest. rewrite (IH _ _ Hrest), <- app_assoc. reflexivity.
Qed.

Lemma filter_app_long (l1 l2 : list YouTubeVideo) :
  filter (fun v => is_short v = false) (l1 ++ l2)
  = filter (fun v => is_short v = false) l1 ++ filter (fun v => is_short v = false) l2.
Proof. apply filter_app. Qed.

Lemma mapM_app_Some {A B : Type} (f : A -> option B) (l1 l2 : list A) (k : list B) :
  mapM f (l1 ++ l2) = Some k ->
  exists k1 k2, k = k1 ++ k2 /\ mapM f l1 = Some k1 /\ mapM f l2 = Some k2.
Proof.
  intros H. apply mapM_Some in H. apply Forall2_app_inv_l in H
    as (k1 & k2 & H1 & H2 & ->).
  exists k1, k2. repeat split; now apply mapM_Some.
Qed.

Lemma fetch_pages_unlimited limitVideos (pages : PlaylistPages) :
  unlimited limitVideos ->
  forall videos new,
    mapM (mapped toISODate)
         (filter (fun v => is_short v = false) (reached_records pages)) = Some new ->
    fetch_pages toISODate limitVideos videos pages = videos ++ new.
Proof.
  intros Hu. induction pages as [|items details token following IH]; intros videos new.
  - cbn. intros [= <-]. now rewrite app_nil_r.
  - cbn [fetch_pages reached_records]. destruct items as [items|].
    2:{ cbn. intros [= <-]. now rewrite app_nil_r. }
    assert (Hids : (length (filter (fun id => truthy_string id = true) items) =? 0)%nat
                   = forallb (fun id => negb (truthy_string id)) items).
    { clear. induction items as [|id items IH]; [reflexivity|].
      cbn [forallb]. destruct (truthy_string id) eqn:E.
      - rewrite filter_cons_True by assumption. reflexivity.
      - rewrite filter_cons_False by congruence. exact IH. }
    rewrite Hids. destruct (forallb _ items).
    { cbn. intros [= <-]. now rewrite app_nil_r. }
    destruct details as [|ditems].
    { cbn. intros [= <-]. now rewrite app_nil_r. }
    rewrite filter_app_long. intros Hm.
    apply mapM_app_Some in Hm as (k1 & k2 & -> & H1 & H2).
    rewrite (process_items_unlimited _ _ Hu _ _ H1).
    destruct (truthy_string token).
    + rewrite (IH _ _ H2). now rewrite app_assoc.
    + cbn in H2. injection H2 as <-. now rewrite app_nil_r.
Qed.

Lemma toVideoData_listed (video : YouTubeVideo) (date : string) :
  listed_as video date (toVideoData video date).
Proof.
  unfold listed_as. do 6 (split; [reflexivity|]).
  intros Hs. cbn. rewrite Hs. repeat split.
Qed.

Lemma mapped_listed (records : list YouTubeVideo) (new : list VideoData) :
  mapM (mapped toISODate) records = Some new ->
  Forall2 (fun video v =>
             exists date, toISODate (yv_publishedAt video) = Some date
                          /\ listed_as video date v) records new.
Proof.
  intros H. apply mapM_Some in H. eapply Forall2_impl; [exact H|].
  intros video v Hm. unfold mapped in Hm.
  destruct (toISODate (yv_publishedAt video)) as [date|]; [|discriminate].
  cbn in Hm. injection Hm as <-. exists date. split; [reflexivity|].
  apply toVideoData_listed.
Qed.

Lemma mapped_valid (records : list YouTubeVideo) :
  Forall (fun video => toISODate (yv_publishedAt video) <> None) records ->
  exists new, mapM (mapped toISODate) records = Some new.
Proof.
  induction 1 as [|video records Hv _ [new IH]]; [exists []; reflexivity|].
  destruct (toISODate (yv_publishedAt video)) as [date|] eqn:Hd; [|congruence].
  exists (toVideoData video date :: new). apply mapM_Some. constructor.
  - unfold mapped. now rewrite Hd.
  - now apply mapM_Some.
Qed.

Lemma no_video_ids (items : list (option string)) :
  (length (filter (fun id => truthy_string id = true) items) =? 0)%nat
  = forallb (fun id => negb (truthy_string id)) items.
Proof.
  induction items as [|id items IH]; [reflexivity|].
  cbn [forallb]. destruct (truthy_string id) eqn:E.
  - rewrite filter_cons_True by assumption. reflexivity.
  - rewrite filter_cons_False by congruence. exact IH.
Qed.

(** The records the pagination has processed when it stops: a prefix of
    the records the cursor reaches, all of them when no limit and no
    invalid date stops it. *)
Lemma fetch_pages_prefix limitVideos (pages : PlaylistPages) :
  forall videos,
  exists processed unprocessed new,
    reached_records pages = processed ++ unprocessed
    /\ mapM (mapped toISODate) (filter (fun v => is_short v = false) processed) = Some new
    /\ fetch_pages toISODate limitVideos videos pages = videos ++ new
    /\ (unlimited limitVideos ->
        Forall (fun video => toISODate (yv_publishedAt video) <> None)
               (filter (fun v => is_short v = false) (reached_records pages)) ->
        unprocessed = []).
Proof.
  assert (Hnone : forall videos : list VideoData,
            exists processed unprocessed new,
              @nil YouTubeVideo = processed ++ unprocessed
              /\ mapM (mapped toISODate) (filter (fun v => is_short v = false) processed)
                 = Some new
              /\ videos = videos ++ new
              /\ (unlimited limitVideos ->
                  Forall (fun video => toISODate (yv_publishedAt video) <> None)
                         (filter (fun v => is_short v = false) []) ->
                  unprocessed = [])).
  { intros videos. exists [], [], [].
    split; [reflexivity|]. split; [reflexivity|]. split; [|auto].
    now rewrite app_nil_r. }
  induction pages as [|items details token following IH]; intros videos.
  - apply Hnone.
  - cbn [fetch_pages reached_records]. destruct items as [items|]; [|apply Hnone].
    rewrite no_video_ids. destruct (forallb _ items); [apply Hnone|].
    destruct details as [|ditems]; [apply Hnone|].
    destruct (process_items_prefix limitVideos (default [] ditems) videos)
      as (p & u & new & Ei & Hm & Hf & Hc).
    destruct (process_items toISODate limitVideos videos (default [] ditems))
      as [videos' exit] eqn:Ep. cbn [fst snd] in Hf, Hc. subst videos'.
    assert (Hstop : exit <> Completed ->
              exists processed unprocessed new0,
                default [] ditems
                ++ (if truthy_string token then reached_records following else [])
                = processed ++ unprocessed
                /\ mapM (mapped toISODate)
                      (filter (fun v => is_short v = false) processed) = Some new0
                /\ videos ++ new = videos ++ new0
                /\ (unlimited limitVideos ->
                    Forall (fun video => toISODate (yv_publishedAt video) <> None)
                      (filter (fun v => is_short v = false)
                         (default [] ditems
                          ++ (if truthy_string token then reached_records following
                              else []))) ->
                    unprocessed = [])).
    { intros Hexit.
      exists p, (u ++ (if truthy_string token then reached_records following else [])), new.
      rewrite Ei, <- app_assoc. repeat split; [assumption|].
      intros Hu Hvalid. exfalso. apply Hexit.
      rewrite app_assoc, filter_app, Forall_app in Hvalid. destruct Hvalid as [Hvalid _].
      rewrite <- Ei in Hvalid.
      destruct (mapped_valid _ Hvalid) as [new' Hnew'].
      rewrite (process_items_unlimited _ _ Hu videos new' Hnew') in Ep.
      now injection Ep as _ <-. }
    destruct exit; [|apply Hstop; discriminate..].
    rewrite (Hc eq_refl), app_nil_r in Ei. subst p.
    destruct (truthy_string token).
    + destruct (IH (videos ++ new)) as (p' & u' & new' & Er & Hm' & Hf' & Hc').
      exists (default [] ditems ++ p'), u', (new ++ new').
      rewrite Er, Hf', <- !app_assoc. repeat split.
      * rewrite filter_app. apply mapM_Some, Forall2_app; now apply mapM_Some.
      * intros Hu Hvalid. apply Hc'; [assumption|].
        rewrite filter_app, Forall_app in Hvalid. rewrite Er. tauto.
    + exists (default [] ditems), [], new. repeat split. assumption.
Qed.

End ListingFacts.

(** C5. The upload listing drops a record exactly when its parsed
    duration is below 120 seconds, and keeps it otherwise.  A kept
    record is listed with its own id, title, description and duration
    display, its publish date and the content type podcast.  The loop
    over a page processes a prefix of the records (all of them when it
    runs to completion) and appends the video of every processed record
    that is not short, in order, and nothing else.  Every video
    [getVideosFromChannel] returns is the listing of a record of at
    least 120 seconds; and the videos it returns are, in order, the
    listings of the records of at least 120 seconds among those it has
    processed, which are a prefix of the records its cursor reaches and
    all of them when there is no limit and every kept record has a valid
    publish date.  A record of 119 seconds is dropped and one of exactly
    120 seconds is kept. *)
Theorem listing_drops_short_videos (toISODate : string -> option string)
    (limitVideos : option Z) (videos : list VideoData) (items : list YouTubeVideo)
    (remote : Remote) (video : YouTubeVideo) (date : string) :
  (exists t, parseDurationToSeconds (yv_duration video) = Num t
             /\ (is_short video = true <-> t < 120)
             /\ (is_short video = false <-> 120 <= t))
  /\ listed_as video date (toVideoData video date)
  /\ (exists processed unprocessed new,
        items = processed ++ unprocessed
        /\ Forall2 (fun record v =>
                      exists day, toISODate (yv_publishedAt record) = Some day
                                  /\ listed_as record day v)
             (filter (fun v => is_short v = false) processed) new
        /\ fst (process_items toISODate limitVideos videos items) = videos ++ new
        /\ (snd (process_items toISODate limitVideos videos items) = Completed ->
            unprocessed = []))
  /\ (forall v, v ∈ getVideosFromChannel toISODate remote limitVideos ->
        exists record day,
          record ∈ remote_records (playlistPages remote)
          /\ long_record record
          /\ toISODate (yv_publishedAt record) = Some day
          /\ listed_as record day v)
  /\ (truthy_string (uploadsPlaylistId remote) = true ->
      exists processed unprocessed,
        reached_records (playlistPages remote) = processed ++ unprocessed
        /\ Forall2 (fun record v =>
                      exists day, toISODate (yv_publishedAt record) = Some day
                                  /\ listed_as record day v)
             (filter (fun v => is_short v = false) processed)
             (getVideosFromChannel toISODate remote limitVideos)
        /\ (unlimited limitVideos ->
            Forall (fun record => toISODate (yv_publishedAt record) <> None)
                   (filter (fun v => is_short v = false)
                      (reached_records (playlistPages remote))) ->
            unprocessed = []))
  /\ parseDurationToSeconds (yv_duration record_119) = Num 119
  /\ parseDurationToSeconds (yv_duration record_120) = Num 120
  /\ getVideosFromChannel utc_date boundary_remote None = [listed_120].
Proof.
  split.
  { destruct (is_short_seconds video) as (t & _ & E & H1 & H2). eauto. }
  split; [apply toVideoData_listed|].
  split.
  { destruct (process_items_prefix toISODate limitVideos items videos)
      as (p & u & new & Ei & Hm & Hf & Hc).
    exists p, u, new. repeat split; try assumption. now apply mapped_listed. }
  split.
  { intros v. unfold getVideosFromChannel.
    destruct (truthy_string (uploadsPlaylistId remote)); [|intros H; inversion H].
    intros H. apply fetch_pages_sound in H as [H|H]; [inversion H|].
    destruct H as (record & day & t & Hin & Hd & -> & Ht & Hl).
    exists record, day. split; [assumption|]. split; [exists t; auto|].
    split; [assumption|apply toVideoData_listed]. }
  split; [|repeat split].
  intros Hup. unfold getVideosFromChannel. rewrite Hup.
  destruct (fetch_pages_prefix toISODate limitVideos (playlistPages remote) [])
    as (p & u & new & Er & Hm & -> & Hc).
  exists p, u. repeat split; [assumption| |assumption].
  now apply mapped_listed.
Qed.

Lemma listing_drops_short_videos_witness :
  exists processed unprocessed,
    reached_records (playlistPages boundary_remote) = processed ++ unprocessed
    /\ Forall2 (fun record v =>
                  exists day, utc_date (yv_publishedAt record) = Some day
                              /\ listed_as record day v)
         (filter (fun v => is_short v = false) processed)
         (getVideosFromChannel utc_date boundary_remote None)
    /\ (unlimited None ->
        Forall (fun record => utc_date (yv_publishedAt record) <> None)
               (filter (fun v => is_short v = false)
                  (reached_records (playlistPages boundary_remote))) ->
        unprocessed = []).
Proof.
  destruct (listing_drops_short_videos utc_date None [] [] boundary_remote record_120
              "2024-04-30") as (_ & _ & _ & _ & H & _).
  apply H. reflexivity.
Defined.

(** ** Persistence gateway: the channel upsert *)

Lemma filter_none {A : Type} (P : A -> Prop) `{forall x, Decision (P x)} (l : list A) :
  (forall x, x ∈ l -> ~ P x) -> filter P l = [].
Proof.
  induction l as [|x l IH]; intros Hl; [reflexivity|].
  rewrite filter_cons_False by (apply Hl; left).
  apply IH. intros y Hy. apply Hl. now right.
Qed.

Lemma filter_unique {A K : Type} `{EqDecision K} (key : A -> K) (l : list A) (k : K) :
  NoDup (key <$> l) -> k ∈ key <$> l ->
  exists r, filter (fun x => key x = k) l = [r].
Proof.
  induction l as [|x l IH]; cbn [fmap list_fmap].
  - intros _ H. inversion H.
  - intros Hnd Hin. apply NoDup_cons in Hnd as [Hx Hnd].
    destruct (decide (key x = k)) as [E|NE].
    + exists x. rewrite filter_cons_True by assumption. f_equal.
      apply filter_none. intros y Hy Ey.
      apply Hx. rewrite E, <- Ey. apply list_elem_of_fmap. eauto.
    + rewrite filter_cons_False by assumption. apply IH; [assumption|].
      apply elem_of_cons in Hin as [Hin|Hin]; congruence.
Qed.

Section ChannelUpsert.

Variable channelData : ChannelData.

Lemma overwrite_slug r : ch_slug (overwrite channelData r) = ch_slug r.
Proof.
  unfold overwrite. destruct (decide _) as [E|]; [|reflexivity]. now rewrite E.
Qed.

Lemma overwrite_slugs (rows : list ChannelRow) :
  ch_slug <$> (overwrite channelData <$> rows) = ch_slug <$> rows.
Proof.
  rewrite <- list_fmap_compose. apply list_fmap_ext. intros _ r _.
  apply overwrite_slug.
Qed.

Lemma overwrite_up_to_date r : up_to_date channelData (overwrite channelData r).
Proof.
  unfold up_to_date, overwrite. destruct (decide _) as [E|NE]; [|congruence].
  intros _. split; reflexivity.
Qed.

Lemma overwrite_fixed r : up_to_date channelData r -> overwrite channelData r = r.
Proof.
  unfold up_to_date, overwrite. intros H.
  destruct (decide _) as [E|NE]; [|reflexivity].
  destruct (H E) as [Hn Hy]. destruct r as [slug name yid vis created].
  cbn in *. subst. reflexivity.
Qed.

Lemma upserted_ok be (rows : list ChannelRow) :
  channels_ok rows = true ->
  channels_ok (upserted channelData be rows) = true
  /\ slug_known (upserted channelData be rows) (cd_slug channelData) = true
  /\ Forall (up_to_date channelData) (upserted channelData be rows).
Proof.
  unfold upserted, channels_ok, slug_known.
  intros Hok%bool_decide_eq_true.
  destruct (bool_decide (cd_slug channelData ∈ ch_slug <$> rows)) eqn:Hk; cbv iota.
  - apply bool_decide_eq_true in Hk. rewrite overwrite_slugs.
    repeat split; [now apply bool_decide_eq_true..|].
    apply Forall_fmap, Forall_forall. intros r _. apply overwrite_up_to_date.
  - apply bool_decide_eq_false in Hk. rewrite fmap_app. cbn [fmap list_fmap ch_slug].
    repeat split.
    + apply bool_decide_eq_true, NoDup_app. repeat split; [assumption| |apply NoDup_singleton].
      intros x Hx Hx'. apply list_elem_of_singleton in Hx'. congruence.
    + apply bool_decide_eq_true, elem_of_app. right. apply list_elem_of_singleton.
      reflexivity.
    + apply Forall_app. split.
      * apply Forall_forall. intros r Hr E. exfalso. apply Hk.
        rewrite <- E. apply list_elem_of_fmap. eauto.
      * repeat constructor.
Qed.

Lemma upsertChannel_result be t :
  fault be TvChannels Upsert = None ->
  channels_ok (tv_channels t) = true ->
  upsertChannel be channelData t
  = (set_channels t (upserted channelData be (tv_channels t)), Ok ()).
Proof.
  intros Hf Hok. unfold upsertChannel, upsert_channel. rewrite Hf.
  destruct (upserted_ok be _ Hok) as (Hok' & _).
  unfold upserted in *. cbn.
  change (λ r : ChannelRow,
            if decide (ch_slug r = cd_slug channelData)
            then patch_channel (channelRecord channelData) r else r)
    with (overwrite channelData).
  destruct (slug_known (tv_channels t) (cd_slug channelData));
    cbn in Hok' |- *; now rewrite Hok'.
Qed.

Lemma upsertChannel_again be' t :
  channels_ok (tv_channels t) = true ->
  slug_known (tv_channels t) (cd_slug channelData) = true ->
  Forall (up_to_date channelData) (tv_channels t) ->
  fst (upsertChannel be' channelData t) = t
  /\ (fault be' TvChannels Upsert = None ->
      upsertChannel be' channelData t = (t, Ok ())).
Proof.
  intros Hok Hk Hup.
  assert (Hrows : overwrite channelData <$> tv_channels t = tv_channels t).
  { rewrite <- (list_fmap_id (tv_channels t)) at 2. apply list_fmap_ext.
    intros i r Hr. apply overwrite_fixed.
    rewrite Forall_forall in Hup. apply Hup. eapply list_elem_of_lookup_2; eauto. }
  assert (Hsame : set_channels t (tv_channels t) = t) by (now destruct t).
  destruct (fault be' TvChannels Upsert) as [m|] eqn:Hf.
  - split; [|discriminate]. unfold upsertChannel, upsert_channel. now rewrite Hf.
  - rewrite (upsertChannel_result be' t Hf Hok). unfold upserted. rewrite Hk, Hrows, Hsame.
    split; [reflexivity|]. intros _. reflexivity.
Qed.

End ChannelUpsert.

Lemma or_null_asked (channelData : ChannelData) :
  asks_youtube_id channelData (or_null (cd_youtubeId channelData)).
Proof.
  unfold asks_youtube_id. repeat split.
  - intros id -> Hid. destruct id; [congruence|reflexivity].
  - now intros ->.
  - now intros ->.
Qed.

(** C8. From a store that satisfies the primary key of [tv_channels], a
    successful [upsertChannel] leaves exactly one row for the slug; the
    row holds the name of the record and, as remote id, the configured
    id, or nothing when the record has none or an empty one.  Calling
    it again with the same record creates no second row and changes
    nothing in the store, whatever the store's clock and column defaults
    are by then. *)
Theorem upsertChannel_idempotent (be be' : Backend) (channelData : ChannelData)
    (t : Tables) :
  channels_ok (tv_channels t) = true ->
  fault be TvChannels Upsert = None ->
  let t1 := fst (upsertChannel be channelData t) in
  snd (upsertChannel be channelData t) = Ok ()
  /\ (exists row,
        filter (fun r => ch_slug r = cd_slug channelData) (tv_channels t1) = [row]
        /\ ch_slug row = cd_slug channelData
        /\ ch_name row = cd_name channelData
        /\ asks_youtube_id channelData (ch_youtube_id row))
  /\ fst (upsertChannel be' channelData t1) = t1
  /\ upsertChannel be channelData t1 = (t1, Ok ()).
Proof.
  intros Hok Hf. cbn zeta. rewrite (upsertChannel_result channelData be t Hf Hok).
  cbn [fst snd].
  destruct (upserted_ok channelData be _ Hok) as (Hok' & Hk & Hup).
  split; [reflexivity|]. split; [|split].
  - cbn [set_channels tv_channels].
    apply bool_decide_eq_true in Hok', Hk.
    destruct (filter_unique ch_slug _ _ Hok' Hk) as [row Hrow].
    exists row. split; [exact Hrow|].
    assert (Hin : row ∈ filter (fun r => ch_slug r = cd_slug channelData)
                          (upserted channelData be (tv_channels t))).
    { rewrite Hrow. apply list_elem_of_singleton. reflexivity. }
    apply list_elem_of_filter in Hin as [Hs Hin].
    rewrite Forall_forall in Hup. destruct (Hup row Hin Hs) as [Hn Hy].
    split; [exact Hs|]. split; [exact Hn|]. rewrite Hy. apply or_null_asked.
  - now apply upsertChannel_again.
  - now apply upsertChannel_again.
Qed.

Lemma upsertChannel_idempotent_witness :
  (exists row,
     filter (fun r => ch_slug r = "A")
       (tv_channels (fst (upsertChannel reliable channel_A empty_tables))) = [row]
     /\ ch_slug row = "A"
     /\ ch_name row = "Channel A"
     /\ ch_youtube_id row = Some "UCaaaaaaaaaaaaaaaaaaaaaa")
  /\ upsertChannel reliable channel_A (fst (upsertChannel reliable channel_A empty_tables))
     = ({| tv_channels := [channel_A_row]; tv_media_items := [];
           tv_channel_statistics := [] |}, Ok ()).
Proof.
  destruct (upsertChannel_idempotent reliable reliable channel_A empty_tables
              eq_refl eq_refl) as (_ & (row & Hrow & Hs & Hn & Hy & _) & _ & H).
  split; [|exact H].
  exists row. repeat split; try assumption.
  apply Hy; [reflexivity|discriminate].
Defined.

(** ** Persistence gateway: the media-item sync *)

(** The order in which requests are committed is a rearrangement of the
    order in which they were fired, and does not depend on what the
    requests are. *)
Lemma insert_by_rank_fmap {A B : Type} (f : A -> B) (k : nat) (x : A)
    (queue : list (nat * A)) :
  prod_map id f <$> insert_by_rank k x queue
  = insert_by_rank k (f x) (prod_map id f <$> queue).
Proof.
  induction queue as [|[k' y] queue IH]; [reflexivity|].
  cbn [insert_by_rank fmap list_fmap prod_map fst snd id].
  destruct (k <=? k')%nat; cbn [fmap list_fmap prod_map fst snd id]; [reflexivity|].
  now rewrite <- IH.
Qed.

Lemma commit_queue_fmap {A B : Type} (f : A -> B) (rank : nat -> nat) (l : list A) :
  forall i, prod_map id f <$> commit_queue rank i l = commit_queue rank i (f <$> l).
Proof.
  induction l as [|x l IH]; intros i; [reflexivity|].
  cbn [commit_queue fmap list_fmap]. now rewrite insert_by_rank_fmap, IH.
Qed.

Lemma commit_order_fmap {A B : Type} (f : A -> B) (rank : nat -> nat) (l : list A) :
  commit_order rank (f <$> l) = f <$> commit_order rank l.
Proof.
  unfold commit_order. rewrite <- commit_queue_fmap, <- !list_fmap_compose.
  apply list_fmap_ext. now intros _ [k x] _.
Qed.

Lemma insert_by_rank_Permutation {A : Type} (k : nat) (x : A) (queue : list (nat * A)) :
  snd <$> insert_by_rank k x queue ≡ₚ x :: (snd <$> queue).
Proof.
  induction queue as [|[k' y] queue IH]; [reflexivity|].
  cbn [insert_by_rank]. destruct (k <=? k')%nat; [reflexivity|].
  cbn [fmap list_fmap snd]. rewrite IH. apply Permutation_swap.
Qed.

Lemma commit_order_Permutation {A : Type} (rank : nat -> nat) (l : list A) :
  commit_order rank l ≡ₚ l.
Proof.
  unfold commit_order. generalize 0%nat.
  induction l as [|x l IH]; intros i; [reflexivity|].
  cbn [commit_queue]. rewrite insert_by_rank_Permutation. now rewrite IH.
Qed.

(** The order of commit is the store's: ranks that decrease with the
    order of firing commit the requests last fired first. *)
Lemma commit_order_last_first :
  commit_order (fun i => 2 - i)%nat ["first"; "second"; "third"]
  = ["third"; "second"; "first"].
Proof. reflexivity. Qed.

Lemma elem_of_committed be slug (B : list VideoData) t (v : VideoData) :
  v ∈ committed be slug B t <-> v ∈ B /\ vd_id v ∈ stored_ids slug t.
Proof.
  unfold committed. rewrite commit_order_Permutation, list_elem_of_filter. tauto.
Qed.

(** The update requests of a sync, in the order they are committed. *)
Lemma committed_updates be slug (B : list VideoData) t :
  commit_order (arrival be)
    ((fun v => (vd_id v, updateRecord v))
       <$> filter (fun v => vd_id v ∈ stored_ids slug t) B)
  = (fun v => (vd_id v, updateRecord v)) <$> committed be slug B t.
Proof. apply commit_order_fmap. Qed.

Lemma partition_videos_filter (E : gset string) (slug : string) (videos : list VideoData) :
  partition_videos E slug videos
  = (newRecord slug <$> filter (fun v => vd_id v ∉ E) videos,
     (fun v => (vd_id v, updateRecord v)) <$> filter (fun v => vd_id v ∈ E) videos).
Proof.
  induction videos as [|v vs IH]; [reflexivity|].
  cbn [partition_videos]. rewrite IH.
  destruct (decide (vd_id v ∈ E)) as [Hin|Hout].
  - rewrite (filter_cons_True (fun v => vd_id v ∈ E)) by assumption.
    rewrite (filter_cons_False (fun v => vd_id v ∉ E)) by tauto. reflexivity.
  - rewrite (filter_cons_False (fun v => vd_id v ∈ E)) by assumption.
    rewrite (filter_cons_True (fun v => vd_id v ∉ E)) by assumption. reflexivity.
Qed.

Lemma updateRecord_counters_only (v : VideoData) :
  updateRecord v
  = counters_only (or_zero (vd_views v)) (or_zero (vd_likes v)) (or_zero (vd_comments v)).
Proof. reflexivity. Qed.

Lemma patch_counters_descriptive (v : VideoData) (r : MediaItemRow) :
  descriptive (patch_media_item (updateRecord v) r) = descriptive r.
Proof. reflexivity. Qed.

Lemma same_descriptive_refl rows : same_descriptive rows rows.
Proof. unfold same_descriptive. induction rows; constructor; auto. Qed.

Lemma same_descriptive_trans rows1 rows2 rows3 :
  same_descriptive rows1 rows2 -> same_descriptive rows2 rows3 ->
  same_descriptive rows1 rows3.
Proof.
  unfold same_descriptive. intros H. revert rows3.
  induction H as [|r1 r2 l1 l2 E H IH]; intros rows3 H3; inversion H3; subst;
    constructor; [congruence|auto].
Qed.

Lemma update_counters_kept be (v : VideoData) (id : string) (t : Tables) :
  let t' := fst (update_media_item be (updateRecord v) id t) in
  tv_channels t' = tv_channels t
  /\ tv_channel_statistics t' = tv_channel_statistics t
  /\ same_descriptive (tv_media_items t) (tv_media_items t').
Proof.
  unfold update_media_item.
  destruct (fault be TvMediaItems Update);
    [cbn; auto using same_descriptive_refl|].
  destruct (media_items_ok _ _); cbn; [|auto using same_descriptive_refl].
  repeat split. unfold same_descriptive. apply Forall2_fmap_r, Forall_Forall2_diag.
  apply Forall_forall. intros r _. unfold compose. case_decide; reflexivity.
Qed.

Lemma run_updates_kept be (vs : list VideoData) :
  forall t,
  let t' := run_updates be ((fun v => (vd_id v, updateRecord v)) <$> vs) t in
  tv_channels t' = tv_channels t
  /\ tv_channel_statistics t' = tv_channel_statistics t
  /\ same_descriptive (tv_media_items t) (tv_media_items t').
Proof.
  induction vs as [|v vs IH]; intros t.
  - cbn. auto using same_descriptive_refl.
  - cbn [fmap list_fmap run_updates].
    destruct (update_counters_kept be v (vd_id v) t) as (Hc & Hs & Hd).
    destruct (IH (fst (update_media_item be (updateRecord v) (vd_id v) t)))
      as (Hc' & Hs' & Hd').
    cbn zeta in *. repeat split; [congruence..|].
    eapply same_descriptive_trans; eauto.
Qed.

(** The row created from the record of a new video. *)
Lemma new_media_item_newRecord be slug (v : VideoData) :
  exists row,
    new_media_item be (newRecord slug v) = Some row
    /\ mi_id row = vd_id v
    /\ mi_youtube_id row = Some (vd_id v)
    /\ mi_youtube_url row = Some (watch_url (vd_id v))
    /\ mi_content_type row = Some (or_string (vd_contentType v) "podcast")
    /\ mi_channel_slug row = Some slug.
Proof. eexists. repeat split. Qed.

(** The shape of the store after a sync, whatever its outcome. *)
Lemma insertNewMediaItems_rows be slug (B : list VideoData) t t' res :
  insertNewMediaItems be slug B t = (t', res) ->
  tv_channels t' = tv_channels t
  /\ tv_channel_statistics t' = tv_channel_statistics t
  /\ exists rows1 new,
       tv_media_items t' = rows1 ++ new
       /\ same_descriptive (tv_media_items t) rows1
       /\ (new = []
           \/ Forall2 (created_from be slug)
                (filter (fun v => vd_id v ∉ stored_ids slug t) B) new)
       /\ (res = Ok () ->
           Forall2 (created_from be slug)
             (filter (fun v => vd_id v ∉ stored_ids slug t) B) new).
Proof.
  unfold insertNewMediaItems, select_media_items.
  destruct (fault be TvMediaItems Select) as [m|].
  { intros [= <- <-]. split; [reflexivity|]. split; [reflexivity|].
    exists (tv_media_items t), [].
    rewrite app_nil_r. repeat split; auto using same_descriptive_refl. discriminate. }
  fold (stored_ids slug t). rewrite partition_videos_filter, committed_updates.
  set (news := filter (fun v => vd_id v ∉ stored_ids slug t) B).
  set (olds := committed be slug B t).
  destruct (run_updates_kept be olds t) as (Hc & Hs & Hd). cbn zeta in Hc, Hs, Hd.
  set (t1 := run_updates be _ t) in *.
  destruct (newRecord slug <$> news) as [|r rs] eqn:En.
  - apply fmap_nil_inv in En. rewrite En.
    intros [= <- <-]. split; [assumption|]. split; [assumption|].
    exists (tv_media_items t1), []. rewrite app_nil_r.
    repeat split; auto; intros _; constructor.
  - rewrite <- En. clear En r rs. unfold insert_media_items.
    assert (Hfail : forall m : string,
              tv_channels t1 = tv_channels t
              /\ tv_channel_statistics t1 = tv_channel_statistics t
              /\ exists rows1 new : list MediaItemRow,
                   tv_media_items t1 = rows1 ++ new
                   /\ same_descriptive (tv_media_items t) rows1
                   /\ (new = [] \/ Forall2 (created_from be slug) news new)
                   /\ (Throw m = Ok () -> Forall2 (created_from be slug) news new)).
    { intros m. split; [assumption|]. split; [assumption|].
      exists (tv_media_items t1), []. rewrite app_nil_r. repeat split; auto.
      discriminate. }
    destruct (fault be TvMediaItems Insert) as [m|].
    { intros [= <- <-]. apply Hfail. }
    destruct (mapM (new_media_item be) (newRecord slug <$> news)) as [rows|] eqn:Em.
    2:{ intros [= <- <-]. apply Hfail. }
    destruct (media_items_ok _ _).
    2:{ intros [= <- <-]. apply Hfail. }
    intros [= <- <-]. cbn [set_media_items tv_channels tv_channel_statistics tv_media_items].
    split; [assumption|]. split; [assumption|].
    apply mapM_Some, Forall2_fmap_l in Em.
    exists (tv_media_items t1), rows. repeat split; auto.
Qed.

Lemma newRecord_ids slug (vs : list VideoData) :
  omap pm_id (newRecord slug <$> vs) = vd_id <$> vs.
Proof. induction vs as [|v vs IH]; [reflexivity|]. cbn. now rewrite IH. Qed.

Lemma update_ids (vs : list VideoData) :
  fst <$> ((fun v => (vd_id v, updateRecord v)) <$> vs) = vd_id <$> vs.
Proof. rewrite <- list_fmap_compose. reflexivity. Qed.

Lemma ids_outside (E : gset string) (B : list VideoData) :
  list_to_set (vd_id <$> filter (fun v => vd_id v ∉ E) B)
  = (list_to_set (vd_id <$> B) : gset string) ∖ E.
Proof.
  apply set_eq. intros id.
  rewrite elem_of_difference, !elem_of_list_to_set, !list_elem_of_fmap. split.
  - intros (v & -> & Hv). apply list_elem_of_filter in Hv as [Hout Hin]. eauto.
  - intros [(v & -> & Hin) Hout]. exists v. split; [reflexivity|].
    apply list_elem_of_filter. auto.
Qed.

Lemma ids_inside (E : gset string) (B : list VideoData) :
  list_to_set (vd_id <$> filter (fun v => vd_id v ∈ E) B)
  = (list_to_set (vd_id <$> B) : gset string) ∩ E.
Proof.
  apply set_eq. intros id.
  rewrite elem_of_intersection, !elem_of_list_to_set, !list_elem_of_fmap. split.
  - intros (v & -> & Hv). apply list_elem_of_filter in Hv as [Hout Hin]. eauto.
  - intros [(v & -> & Hin) Hout]. exists v. split; [reflexivity|].
    apply list_elem_of_filter. auto.
Qed.

Lemma kept_and_added t t' rows1 new :
  tv_media_items t' = rows1 ++ new ->
  same_descriptive (tv_media_items t) rows1 ->
  kept_rows t t' = rows1 /\ added_rows t t' = new.
Proof.
  intros E H. unfold kept_rows, added_rows. rewrite E.
  apply Forall2_length in H. rewrite H.
  split; [apply take_app_length | apply drop_app_length].
Qed.

Lemma created_ids be slug (vs : list VideoData) (rows : list MediaItemRow) :
  Forall2 (created_from be slug) vs rows -> mi_id <$> rows = vd_id <$> vs.
Proof.
  induction 1 as [|v row vs rows H _ IH]; [reflexivity|].
  cbn [fmap list_fmap]. rewrite IH. f_equal.
  unfold created_from in H. cbn in H. now injection H as <-.
Qed.

Lemma media_items_ok_same channels (rows rows' : list MediaItemRow) :
  same_descriptive rows rows' ->
  media_items_ok channels rows' = media_items_ok channels rows.
Proof.
  unfold same_descriptive, media_items_ok. intros H.
  assert (mi_id <$> rows' = mi_id <$> rows) as ->.
  { induction H as [|r r' l l' E _ IH]; [reflexivity|].
    cbn [fmap list_fmap]. rewrite IH. inversion E. congruence. }
  f_equal. induction H as [|r r' l l' E _ IH]; [reflexivity|].
  cbn [forallb]. rewrite IH. inversion E. congruence.
Qed.

Lemma apply_counters_descriptive v r : descriptive (apply_counters v r) = descriptive r.
Proof. unfold apply_counters. case_decide; reflexivity. Qed.

Lemma apply_counters_id v r : mi_id (apply_counters v r) = mi_id r.
Proof. unfold apply_counters. case_decide; reflexivity. Qed.

Lemma update_media_item_applied be (v : VideoData) t :
  fault be TvMediaItems Update = None ->
  media_items_ok (tv_channels t) (tv_media_items t) = true ->
  fst (update_media_item be (updateRecord v) (vd_id v) t)
  = set_media_items t (apply_counters v <$> tv_media_items t).
Proof.
  intros Hf Hok. unfold update_media_item. rewrite Hf.
  change (fun r => if decide (mi_id r = vd_id v)
                   then patch_media_item (updateRecord v) r else r)
    with (apply_counters v).
  rewrite (media_items_ok_same _ (tv_media_items t)), Hok; [reflexivity|].
  unfold same_descriptive. apply Forall2_fmap_r, Forall_Forall2_diag, Forall_forall.
  intros r _. unfold compose. symmetry. apply apply_counters_descriptive.
Qed.

Lemma run_updates_applied be (vs : list VideoData) :
  forall t,
  fault be TvMediaItems Update = None ->
  media_items_ok (tv_channels t) (tv_media_items t) = true ->
  tv_media_items (run_updates be ((fun v => (vd_id v, updateRecord v)) <$> vs) t)
  = after_updates vs <$> tv_media_items t.
Proof.
  induction vs as [|v vs IH]; intros t Hf Hok.
  - cbn. now rewrite list_fmap_id.
  - cbn [fmap list_fmap run_updates]. rewrite (update_media_item_applied be v t Hf Hok).
    rewrite IH; [|assumption|].
    + cbn [set_media_items tv_media_items]. rewrite <- list_fmap_compose. reflexivity.
    + cbn [set_media_items tv_channels tv_media_items].
      rewrite (media_items_ok_same _ (tv_media_items t)); [assumption|].
      unfold same_descriptive. apply Forall2_fmap_r, Forall_Forall2_diag, Forall_forall.
      intros r _. unfold compose. symmetry. apply apply_counters_descriptive.
Qed.

Lemma after_updates_row (vs : list VideoData) :
  forall r,
  ((forall v, v ∈ vs -> vd_id v <> mi_id r) -> after_updates vs r = r)
  /\ ((exists v, v ∈ vs /\ vd_id v = mi_id r) ->
      exists v, v ∈ vs /\ vd_id v = mi_id r /\ has_counters_of v (after_updates vs r)).
Proof.
  induction vs as [|v vs IH]; intros r.
  - split; [reflexivity|]. intros (v & Hv & _). inversion Hv.
  - change (after_updates (v :: vs) r) with (after_updates vs (apply_counters v r)).
    destruct (IH (apply_counters v r)) as [IH1 IH2]. rewrite apply_counters_id in IH1, IH2.
    split.
    + intros Hno. rewrite IH1 by (intros w Hw; apply Hno; now right).
      unfold apply_counters. rewrite decide_False; [reflexivity|].
      intros E. apply (Hno v); [now left|congruence].
    + intros Hex.
      destruct (decide (mi_id r ∈ vd_id <$> vs)) as [Hlater|Hnone].
      * apply list_elem_of_fmap in Hlater as (w & Ew & Hw).
        destruct IH2 as (w' & Hw' & Ew' & Hc); [eauto|].
        exists w'. split; [now right|auto].
      * assert (Hno : forall w, w ∈ vs -> vd_id w <> mi_id r).
        { intros w Hw Ew. apply Hnone, list_elem_of_fmap. eauto. }
        rewrite (IH1 Hno). destruct Hex as (w & Hw & Ew).
        apply elem_of_cons in Hw as [->|Hw]; [|destruct (Hno w Hw Ew)].
        exists v. split; [now left|]. split; [assumption|].
        unfold apply_counters. rewrite decide_True by congruence. repeat split.
Qed.

Lemma insertNewMediaItems_kept be slug (B : list VideoData) t t' res :
  fault be TvMediaItems Select = None ->
  insertNewMediaItems be slug B t = (t', res) ->
  kept_rows t t'
  = tv_media_items
      (run_updates be ((fun v => (vd_id v, updateRecord v)) <$> committed be slug B t) t).
Proof.
  intros Hs. unfold insertNewMediaItems, select_media_items. rewrite Hs.
  fold (stored_ids slug t). rewrite partition_videos_filter, committed_updates.
  set (olds := committed be slug B t).
  destruct (run_updates_kept be olds t) as (_ & _ & Hd). cbn zeta in Hd.
  set (t1 := run_updates be _ t) in *.
  assert (Hk1 : kept_rows t t1 = tv_media_items t1).
  { unfold kept_rows. rewrite (Forall2_length _ _ _ Hd). apply firstn_all. }
  destruct (newRecord slug <$> _) as [|r rs].
  { now intros [= <- <-]. }
  unfold insert_media_items.
  destruct (fault be TvMediaItems Insert); [now intros [= <- <-]|].
  destruct (mapM _ _) as [rows|]; [|now intros [= <- <-]].
  destruct (media_items_ok _ _); [|now intros [= <- <-]].
  intros [= <- <-]. unfold kept_rows. cbn [set_media_items tv_media_items].
  rewrite (Forall2_length _ _ _ Hd). apply take_app_length.
Qed.

Lemma or_zero_written (x : option number) : written_as x (or_zero x).
Proof.
  unfold written_as. repeat split.
  - now intros n ->.
  - now intros ->.
  - now intros ->.
Qed.

Lemma updateRecord_writes_counters (v : VideoData) : writes_counters v (updateRecord v).
Proof.
  exists (or_zero (vd_views v)), (or_zero (vd_likes v)), (or_zero (vd_comments v)).
  split; [reflexivity|]. repeat split; apply or_zero_written.
Qed.

Lemma has_counters_holds (v : VideoData) (r : MediaItemRow) :
  has_counters_of v r -> holds_counters v r.
Proof.
  intros (Hv & Hl & Hc). unfold holds_counters.
  split; [|split]; eexists; (split; [eassumption|apply or_zero_written]).
Qed.

(** C3. [insertNewMediaItems] partitions the batch [B] against the set
    [E] of ids stored for the channel: the records to insert carry the
    ids of [B \ E], the update requests target the ids of [B ∩ E], and
    every id of [B] is in exactly one of the two.  An update request
    writes the views, likes and comments of its video, each with the
    value the video gives and with 0 when it gives none, and no other
    column.  In the store after the sync the rows that were there keep
    every other column; when the sync succeeds the rows added are those
    of the ids of [B \ E]; and when the store accepts the updates, in
    whatever order it commits them, each row of an id of [B ∩ E] holds
    the counters of a video of the batch with that id, 0 standing for a
    counter the video does not give, while every other row is
    unchanged. *)
Theorem sync_partitions_batch (be : Backend) (channelSlug : string)
    (B : list VideoData) (t : Tables) :
  let E := stored_ids channelSlug t in
  let Bs : gset string := list_to_set (vd_id <$> B) in
  let newRecords := fst (partition_videos E channelSlug B) in
  let updates := snd (partition_videos E channelSlug B) in
  let inserted : gset string := list_to_set (omap pm_id newRecords) in
  let updated : gset string := list_to_set (fst <$> updates) in
  inserted = Bs ∖ E
  /\ updated = Bs ∩ E
  /\ (forall id, id ∈ Bs ->
        (id ∈ inserted /\ id ∉ updated) \/ (id ∈ updated /\ id ∉ inserted))
  /\ (forall id p, (id, p) ∈ updates ->
        exists v, v ∈ B /\ vd_id v = id /\ writes_counters v p)
  /\ (forall views likes comments r,
        let r' := patch_media_item (counters_only views likes comments) r in
        descriptive r' = descriptive r
        /\ mi_views r' = Some views /\ mi_likes r' = Some likes
        /\ mi_comments r' = Some comments)
  /\ (forall t' res,
        insertNewMediaItems be channelSlug B t = (t', res) ->
        same_descriptive (tv_media_items t) (kept_rows t t')
        /\ (res = Ok () ->
            list_to_set (mi_id <$> added_rows t t') = Bs ∖ E)
        /\ (fault be TvMediaItems Select = None ->
            fault be TvMediaItems Update = None ->
            media_items_ok (tv_channels t) (tv_media_items t) = true ->
            forall i r, tv_media_items t !! i = Some r ->
              exists r', kept_rows t t' !! i = Some r'
                /\ (mi_id r ∉ updated -> r' = r)
                /\ (mi_id r ∈ updated ->
                    exists v, v ∈ B /\ vd_id v = mi_id r /\ holds_counters v r'))).
Proof.
  cbn zeta. rewrite partition_videos_filter. cbn [fst snd].
  rewrite newRecord_ids, update_ids, ids_outside, ids_inside.
  split; [reflexivity|]. split; [reflexivity|]. split; [|split; [|split]].
  - intros id Hid. rewrite elem_of_difference, elem_of_intersection.
    destruct (decide (id ∈ stored_ids channelSlug t)); tauto.
  - intros id p Hin. apply list_elem_of_fmap in Hin as (v & [= -> ->] & Hv).
    apply list_elem_of_filter in Hv as [_ Hv]. exists v.
    split; [assumption|]. split; [reflexivity|]. apply updateRecord_writes_counters.
  - intros views likes comments r. repeat split.
  - intros t' res H. pose proof H as H0. apply insertNewMediaItems_rows in H
      as (_ & _ & rows1 & new & E1 & Hd & _ & Hok).
    destruct (kept_and_added t t' rows1 new E1 Hd) as [Ek ->].
    split; [now rewrite Ek|]. split.
    { intros Hres. rewrite (created_ids _ _ _ _ (Hok Hres)). apply ids_outside. }
    intros Hsel Hupd Hwf i r Hr.
    rewrite (insertNewMediaItems_kept be channelSlug B t t' res Hsel H0).
    rewrite run_updates_applied by assumption.
    set (olds := committed be channelSlug B t).
    exists (after_updates olds r). rewrite list_lookup_fmap, Hr.
    split; [reflexivity|].
    destruct (after_updates_row olds r) as [Hsame Hset].
    rewrite elem_of_intersection, elem_of_list_to_set, list_elem_of_fmap. split.
    + intros Hout. apply Hsame. intros v Hv Ev. apply Hout.
      apply elem_of_committed in Hv as [HvB HvE]. split; [eauto|congruence].
    + intros [(v & Ev & HvB) HE].
      destruct Hset as (w & Hw & Ew & Hc).
      { exists v. split; [|auto]. apply elem_of_committed. split; [assumption|congruence]. }
      exists w. apply elem_of_committed in Hw as [Hw _].
      split; [assumption|]. split; [assumption|]. now apply has_counters_holds.
Qed.

Lemma sync_partitions_batch_witness :
  (exists r',
     kept_rows scenario_tables
       (fst (insertNewMediaItems reliable "A" mixed_batch scenario_tables)) !! 1%nat
     = Some r'
     /\ mi_id r' = "a0000000002"
     /\ mi_views r' = Some 0 /\ mi_likes r' = Some 7 /\ mi_comments r' = Some 0)
  /\ list_to_set
       (mi_id <$> added_rows scenario_tables
                    (fst (insertNewMediaItems reliable "A" mixed_batch scenario_tables)))
     = (list_to_set (vd_id <$> mixed_batch) : gset string) ∖ stored_ids "A" scenario_tables.
Proof.
  pose proof (sync_partitions_batch reliable "A" mixed_batch scenario_tables) as H.
  cbn zeta in H. destruct H as (_ & _ & _ & _ & _ & H).
  destruct (H (fst (insertNewMediaItems reliable "A" mixed_batch scenario_tables))
              (snd (insertNewMediaItems reliable "A" mixed_batch scenario_tables))
              eq_refl) as (H1 & H2 & H3).
  split; [|apply H2; reflexivity].
  destruct (tv_media_items scenario_tables !! 1%nat) as [r|] eqn:Hr; [|discriminate].
  destruct (H3 eq_refl eq_refl eq_refl 1%nat r Hr) as (r' & Hk & _ & Hset).
  assert (Hid : mi_id r = "a0000000002") by (vm_compute in Hr; now injection Hr as <-).
  exists r'. split; [exact Hk|].
  assert (Hid' : mi_id r' = "a0000000002").
  { apply (Forall2_lookup_lr _ _ _ 1%nat r r' H1) in Hr; [|exact Hk].
    unfold descriptive in Hr. inversion Hr. congruence. }
  split; [exact Hid'|].
  destruct Hset as (v & Hv & Ev & (views & Hviews & Wv) & (likes & Hlikes & Wl)
                      & (comments & Hcomments & Wc)).
  { rewrite Hid. vm_compute. reflexivity. }
  rewrite Hid in Ev.
  assert (v = partial_video "a0000000002" "Second" 7) as ->.
  { unfold mixed_batch in Hv.
    repeat (apply elem_of_cons in Hv as [->|Hv]; [try discriminate Ev; try reflexivity|]).
    inversion Hv. }
  rewrite Hviews, Hlikes, Hcomments.
  destruct Wv as (_ & Wv & _). destruct Wl as (Wl & _). destruct Wc as (_ & _ & Wc).
  rewrite (Wv eq_refl), (Wl 7 eq_refl), (Wc eq_refl). repeat split.
Defined.

(** ** Persistence gateway: the rows the sync creates *)






Lemma created_canonical be slug (v : VideoData) (row : MediaItemRow) :
  created_from be slug v row ->
  canonical row
  /\ mi_content_type row = Some (or_string (vd_contentType v) "podcast").
Proof.
  unfold created_from. cbn. intros [= <-]. repeat split.
Qed.

Lemma descriptive_canonical r r' :
  descriptive r = descriptive r' -> canonical r -> canonical r'.
Proof.
  unfold descriptive, canonical. intros E [Hu Hy]. inversion E. split; congruence.
Qed.



(** ** Persistence gateway: the statistics snapshot *)



Section Snapshot.

Variables (be : Backend) (channelSlug date : string) (p : StatisticsPayload).

Hypothesis p_slug : ps_channel_slug p = Some channelSlug.
Hypothesis p_date : ps_date p = Some date.
Hypothesis p_id : ps_id p = None.






End Snapshot.



(** ** Persistence gateway: failures of the store *)

(** The requests whose [error] is checked surface it to the caller. *)
Lemma checked_failures_surface (be : Backend) (m : string) (t : Tables) :
  (forall d, fault be TvChannels Upsert = Some m ->
     upsertChannel be d t = (t, Throw ("Failed to upsert channel: " +:+ m)))
  /\ (forall slug videos, fault be TvMediaItems Select = Some m ->
        insertNewMediaItems be slug videos t
        = (t, Throw ("Failed to fetch existing videos: " +:+ m)))
  /\ (forall slug, fault be TvMediaItems Select = Some m ->
        getChannelMediaItems be slug t
        = Throw ("Failed to get channel media items: " +:+ m))
  /\ (fault be TvChannels Select = Some m ->
      getAllChannels be t = Throw ("Failed to get all channels: " +:+ m))
  /\ (forall slug, fault be TvMediaItems Select = Some m ->
        getLatestMediaItemDate be slug t
        = Throw ("Failed to get latest media item date: " +:+ m))
  /\ (forall today slug stats date, fault be TvMediaItems Select = Some m ->
        upsertChannelStatistics be today slug stats date t
        = (t, Throw ("Failed to get video stats: " +:+ m)))
  /\ (forall today slug stats date,
        fault be TvMediaItems Select = None ->
        fault be TvChannelStatistics Upsert = Some m ->
        upsertChannelStatistics be today slug stats date t
        = (t, Throw ("Failed to upsert channel statistics: " +:+ m)))
  /\ (forall slug days, fault be TvChannelStatistics Select = Some m ->
        getChannelStatisticsHistory be slug days t
        = Throw ("Failed to get channel statistics history: " +:+ m)).
Proof.
  repeat split; intros.
  - unfold upsertChannel, upsert_channel. now rewrite H.
  - unfold insertNewMediaItems, select_media_items. now rewrite H.
  - unfold getChannelMediaItems, select_media_items. now rewrite H.
  - unfold getAllChannels, select_channels. now rewrite H.
  - unfold getLatestMediaItemDate, select_media_items. now rewrite H.
  - unfold upsertChannelStatistics, select_media_items. now rewrite H.
  - unfold upsertChannelStatistics, select_media_items, upsert_statistics.
    now rewrite H, H0.
  - unfold getChannelStatisticsHistory, select_statistics. now rewrite H.
Qed.

(** A refused update leaves the store as it was. *)
Lemma run_updates_refused be m updates t :
  fault be TvMediaItems Update = Some m -> run_updates be updates t = t.
Proof.
  intros Hf. induction updates as [|[id p] updates IH]; [reflexivity|].
  cbn [run_updates]. unfold update_media_item at 1. rewrite Hf. exact IH.
Qed.

(** Whatever the batch, a sync of videos that are all stored returns
    normally when every one of its update requests is refused. *)
Lemma refused_updates_return_normally be m slug (videos : list VideoData) t :
  fault be TvMediaItems Select = None ->
  fault be TvMediaItems Update = Some m ->
  Forall (fun v => vd_id v ∈ stored_ids slug t) videos ->
  insertNewMediaItems be slug videos t = (t, Ok ()).
Proof.
  intros Hs Hu Hall. unfold insertNewMediaItems, select_media_items. rewrite Hs.
  fold (stored_ids slug t). rewrite partition_videos_filter.
  rewrite (filter_none (fun v => vd_id v ∉ stored_ids slug t)).
  - cbn [fmap list_fmap]. now rewrite (run_updates_refused be m).
  - rewrite Forall_forall in Hall. intros v Hv Hout. exact (Hout (Hall v Hv)).
Qed.

(** C2, at a failing input.  With a store that refuses every update of
    [tv_media_items], each counter update of the sync fails with the
    store's message, yet [insertNewMediaItems] returns normally and the
    counters keep their old values; the same refusal of the bulk insert
    is thrown to the caller. *)
Theorem refused_counter_updates_are_dropped :
  (forall v, v ∈ videos_A_again ->
     snd (update_media_item (refusing Update "connection terminated")
            (updateRecord v) (vd_id v) scenario_tables)
     = Error "connection terminated")
  /\ insertNewMediaItems (refusing Update "connection terminated") "A" videos_A_again
       scenario_tables
     = (scenario_tables, Ok ())
  /\ mi_views <$> take 2 (tv_media_items scenario_tables) = [Some 10; Some 20]
  /\ mi_views
       <$> take 2 (tv_media_items
                     (fst (insertNewMediaItems reliable "A" videos_A_again scenario_tables)))
     = [Some 11; Some 22]
  /\ insertNewMediaItems (refusing Insert "connection terminated") "A" [video_A_new]
       scenario_tables
     = (scenario_tables,
        Throw "Failed to insert new media items: connection terminated").
Proof.
  split; [intros v _; reflexivity|]. repeat split.
Qed.

(** ** Reconciliation checker *)

Lemma read_summary_with_total_videos n files s :
  export_summary_json files = Some s ->
  read_summary files = Ok s
  /\ read_summary (with_total_videos n files) = Ok (set_total_videos n s).
Proof. intros H. unfold read_summary, with_total_videos. cbn. now rewrite H. Qed.

Lemma video_count_loop_summary be t (s s' : Summary) (channels : list ChannelRow) :
  videos_per_channel s = videos_per_channel s' ->
  forall total mismatches,
    video_count_loop be t s channels total mismatches
    = video_count_loop be t s' channels total mismatches.
Proof.
  intros E. induction channels as [|c cs IH]; intros total mismatches; [reflexivity|].
  cbn [video_count_loop]. destruct (getChannelMediaItems be (ch_slug c) t); [|reflexivity].
  cbn. rewrite E. apply IH.
Qed.

Lemma missing_files_with_total_videos n files :
  missing_files (with_total_videos n files) = missing_files files.
Proof.
  unfold missing_files, with_total_videos. cbn.
  destruct (export_summary_json files); reflexivity.
Qed.

Lemma channel_check_ignores_total_videos be t files n :
  verifyChannelCounts be t (with_total_videos n files) = verifyChannelCounts be t files.
Proof.
  unfold verifyChannelCounts. destruct (getAllChannels be t); [|reflexivity].
  cbn. unfold read_summary, with_total_videos. cbn.
  destruct (export_summary_json files); reflexivity.
Qed.

Lemma video_check_fails_on_other_total be t files s n :
  export_summary_json files = Some s -> n <> total_videos s ->
  passed (run_test (verifyVideoCounts be t files)) = true ->
  passed (run_test (verifyVideoCounts be t (with_total_videos n files))) = false.
Proof.
  intros Hs Hn. destruct (read_summary_with_total_videos n files s Hs) as [R1 R2].
  unfold verifyVideoCounts. rewrite R1, R2.
  destruct (getAllChannels be t) as [channels|e]; [|discriminate]. cbn.
  rewrite (video_count_loop_summary be t (set_total_videos n s) s channels eq_refl).
  destruct (video_count_loop be t s channels 0 []) as [[total mismatches]|e];
    [|discriminate]. cbn.
  destruct (Z.eqb_spec total (total_videos s)) as [->|]; [|discriminate].
  intros _. destruct (Z.eqb_spec (total_videos s) n); [congruence|reflexivity].
Qed.

Lemma csv_check_fails_on_other_total files s n :
  export_summary_json files = Some s -> n <> total_videos s ->
  passed (run_test (verifyCSVFiles files)) = true ->
  passed (run_test (verifyCSVFiles (with_total_videos n files))) = false.
Proof.
  intros Hs Hn. destruct (read_summary_with_total_videos n files s Hs) as [R1 R2].
  unfold verifyCSVFiles. rewrite missing_files_with_total_videos, R1, R2.
  destruct (missing_files files); [|discriminate].
  change (export_channels_csv (with_total_videos n files)) with (export_channels_csv files).
  change (export_videos_csv (with_total_videos n files)) with (export_videos_csv files).
  cbn [mbind result_bind total_channels total_videos set_total_videos].
  destruct (negb (_ =? total_channels s)); [discriminate|].
  destruct (Z.eqb_spec (parseCSVRecordCount (default "" (export_videos_csv files)))
                       (total_videos s)) as [->|]; [|discriminate].
  intros _. destruct (Z.eqb_spec (total_videos s) n); [congruence|reflexivity].
Qed.

(** C1, as stated, fails: after the summary's [total_videos] is changed
    from 8 to 7 the export-file check fails too, because it compares the
    8 records of the videos file with the summary. *)
Lemma total_videos_7_fails_csv_check :
  checks_passed reliable scenario_tables scenario_files = [true; true; true; true]
  /\ passed (run_test (verifyCSVFiles (with_total_videos 7 scenario_files))) = false
  /\ details (run_test (verifyCSVFiles (with_total_videos 7 scenario_files)))
     = [VideosCsvCount 8 7].
Proof. repeat split. Qed.

(** C1, amended.  The store holds 2 channels with 5 and 3 media items,
    the summary records 2 channels, 8 videos and the counts A:5, B:3,
    and the four checks pass; with [total_videos] changed to any other
    value the channel-count and the integrity checks still pass, and
    both the video-count check and the export-file check fail. *)
Theorem reconciliation_scenario (n : Z) :
  (ch_slug <$> tv_channels scenario_tables = ["A"; "B"]
   /\ length (channel_items "A" scenario_tables) = 5%nat
   /\ length (channel_items "B" scenario_tables) = 3%nat
   /\ (fun s => (total_channels s, total_videos s, map_to_list (videos_per_channel s)))
        <$> export_summary_json scenario_files
      = Some (2, 8, [("A", 5); ("B", 3)]))
  /\ checks_passed reliable scenario_tables scenario_files = [true; true; true; true]
  /\ (n <> 8 ->
      checks_passed reliable scenario_tables (with_total_videos n scenario_files)
      = [true; false; true; false]).
Proof.
  split; [repeat split|]. split; [reflexivity|].
  intros Hn. unfold checks_passed, runFullVerification. cbn [results fmap list_fmap].
  rewrite channel_check_ignores_total_videos.
  destruct (export_summary_json scenario_files) as [s|] eqn:Es; [|discriminate].
  assert (Ht : total_videos s = 8) by (vm_compute in Es; now injection Es as <-).
  rewrite (video_check_fails_on_other_total reliable scenario_tables scenario_files s n Es)
    by (rewrite ?Ht; auto; reflexivity).
  rewrite (csv_check_fails_on_other_total scenario_files s n Es)
    by (rewrite ?Ht; auto; reflexivity).
  reflexivity.
Qed.

Lemma reconciliation_scenario_witness :
  checks_passed reliable scenario_tables (with_total_videos 7 scenario_files)
  = [true; false; true; false].
Proof. apply (reconciliation_scenario 7). discriminate. Defined.

(* ===================================================================== *)
(** * Further properties                                                  *)
(* ===================================================================== *)

(** ** Remote catalog client: limit and pagination of the listing *)

Section ListingBounds.

Variable toISODate : string -> option string.

Lemma process_items_bound (l : Z) (items : list YouTubeVideo) :
  l <> 0 ->
  forall videos,
    Z.of_nat (length videos) < Z.max l 1 ->
    let out := process_items toISODate (Some l) videos items in
    Z.of_nat (length (fst out)) <= Z.max l 1
    /\ (snd out <> LimitReached -> Z.of_nat (length (fst out)) < Z.max l 1).
Proof.
  intros Hl. induction items as [|video rest IH]; intros videos Hlen; cbn zeta.
  - cbn. split; [lia|auto].
  - cbn [process_items]. destruct (is_short video); [apply IH; assumption|].
    destruct (toISODate (yv_publishedAt video)) as [date|]; [|cbn; split; [lia|auto]].
    unfold limit_reached.
    assert (Hpush : length (videos ++ [toVideoData video date]) = S (length videos))
      by (rewrite length_app; cbn; lia).
    destruct (Z.eqb_spec l 0) as [|_]; [contradiction|]. cbn [negb andb].
    destruct (Z.leb_spec l (Z.of_nat (length (videos ++ [toVideoData video date])))).
    + cbn [fst snd]. split; [lia|congruence].
    + apply IH. lia.
Qed.

Lemma fetch_pages_bound (l : Z) (pages : PlaylistPages) :
  l <> 0 ->
  forall videos,
    Z.of_nat (length videos) < Z.max l 1 ->
    Z.of_nat (length (fetch_pages toISODate (Some l) videos pages)) <= Z.max l 1.
Proof.
  intros Hl. induction pages as [|items details token following IH]; intros videos Hlen.
  - cbn. lia.
  - cbn [fetch_pages]. destruct items as [items|]; [|lia].
    destruct (length _ =? 0)%nat; [lia|].
    destruct details as [|ditems]; [lia|].
    pose proof (process_items_bound l (default [] ditems) Hl videos Hlen) as [Hb Hs].
    destruct (process_items toISODate (Some l) videos (default [] ditems))
      as [videos' exit]. cbn [fst snd] in Hb, Hs.
    destruct exit; [|assumption..].
    destruct (truthy_string token); [|assumption].
    apply IH. apply Hs. discriminate.
Qed.

End ListingBounds.

(** X1. With a limit other than 0 the listing never returns more videos
    than the limit (and a single video when the limit is negative). *)
Theorem listing_respects_limit (toISODate : string -> option string)
    (remote : Remote) (l : Z) :
  l <> 0 ->
  Z.of_nat (length (getVideosFromChannel toISODate remote (Some l))) <= Z.max l 1.
Proof.
  intros Hl. unfold getVideosFromChannel.
  destruct (truthy_string (uploadsPlaylistId remote)); [|cbn; lia].
  apply fetch_pages_bound; [assumption|cbn; lia].
Qed.

Lemma listing_respects_limit_witness :
  Z.of_nat (length (getVideosFromChannel utc_date boundary_remote (Some 1))) <= 1.
Proof. apply (listing_respects_limit utc_date boundary_remote 1). discriminate. Defined.

(** X2. With no limit, or the limit 0, and every publish date valid,
    the listing returns the mapped video of every record of at least 120
    seconds on the pages the cursor reaches, in order: the pages are
    followed until one is rejected, has no items or no video id, has its
    details rejected, or carries no continuation token, and what the
    remote would answer after that page plays no part. *)
Theorem listing_follows_cursor (toISODate : string -> option string)
    (remote : Remote) (limitVideos : option Z) (new : list VideoData) :
  unlimited limitVideos ->
  truthy_string (uploadsPlaylistId remote) = true ->
  mapM (mapped toISODate)
       (filter (fun v => is_short v = false)
               (reached_records (playlistPages remote))) = Some new ->
  getVideosFromChannel toISODate remote limitVideos = new.
Proof.
  intros Hu Hup Hm. unfold getVideosFromChannel. rewrite Hup.
  now rewrite (fetch_pages_unlimited toISODate limitVideos _ Hu [] new Hm).
Qed.

Lemma listing_follows_cursor_witness :
  getVideosFromChannel utc_date boundary_remote (Some 0)
  = [toVideoData record_120 "2024-04-30"].
Proof.
  apply (listing_follows_cursor utc_date boundary_remote (Some 0)
           [toVideoData record_120 "2024-04-30"]);
    [now right|reflexivity|reflexivity].
Defined.

(** ** The import run: the video limit of the command line *)

Lemma argument_after_absent flag (args : list string) :
  argument_after flag args = None <-> flag ∉ args.
Proof.
  induction args as [|arg rest IH]; cbn.
  - split; [intros _ H; inversion H|reflexivity].
  - destruct (String.eqb_spec arg flag) as [->|NE].
    + split; [discriminate|]. intros H. exfalso. apply H. left.
    + rewrite IH. rewrite not_elem_of_cons. split; [auto|tauto].
Qed.

(** X3. The video limit read from the command line is absent exactly
    when the flag [--limit-videos] is; when the flag is given the limit
    is never 0: a value that is missing, not a number, or 0 becomes 50. *)
Theorem limit_of_args_never_zero (args : list string) :
  (limit_of_args args = None <-> "--limit-videos" ∉ args)
  /\ limit_of_args args <> Some 0
  /\ limit_of_args ["--limit-videos"] = Some 50
  /\ limit_of_args ["--limit-videos"; "many"] = Some 50
  /\ limit_of_args ["--config"; "c.json"; "--limit-videos"; "0"] = Some 50
  /\ limit_of_args ["--limit-videos"; "25"; "--config"; "c.json"] = Some 25.
Proof.
  split; [|split; [|repeat split]].
  - unfold limit_of_args. rewrite <- argument_after_absent.
    destruct (argument_after "--limit-videos" args); split; congruence.
  - unfold limit_of_args. destruct (argument_after "--limit-videos" args); [|discriminate].
    destruct (parseInt _) as [|z]; [discriminate|].
    destruct (Z.eqb_spec z 0); [discriminate|congruence].
Qed.

Lemma limit_of_args_never_zero_witness :
  limit_of_args ["--limit-videos"; "0"] <> Some 0.
Proof.
  destruct (limit_of_args_never_zero ["--limit-videos"; "0"]) as (_ & H & _). exact H.
Defined.

(** ** Export writer: reading an exported text back *)

Lemma string_app_nil_r (s : string) : s +:+ "" = s.
Proof. induction s as [|c s IH]; [reflexivity|]. now rewrite app_String, IH. Qed.

Lemma string_length_app (a b : string) :
  String.length (a +:+ b) = (String.length a + String.length b)%nat.
Proof. induction a as [|c a IH]; [reflexivity|]. rewrite app_String. cbn. now rewrite IH. Qed.

Lemma escapeCSV_text_of (value : JsValue) :
  escapeCSV value = escapeCSV (VString (text_of value)).
Proof. destruct value as [| |s|n|[]]; reflexivity. Qed.

Lemma escapeCSV_plain (s : string) :
  needs_quoting s = false -> escapeCSV (VString s) = s.
Proof. intros H. unfold escapeCSV. cbn [to_String]. now rewrite H. Qed.

Lemma rows_text_one (f : string) : rows_text [[f]] = escapeCSV (VString f).
Proof. reflexivity. Qed.

Lemma rows_text_next_field (f g : string) (gs : list string) (rows : list (list string)) :
  rows_text ((f :: g :: gs) :: rows)
  = escapeCSV (VString f) +:+ String comma (rows_text ((g :: gs) :: rows)).
Proof.
  unfold rows_text, row_text. cbn [fmap list_fmap].
  destruct rows as [|r rs]; cbn [fmap list_fmap String.concat].
  - reflexivity.
  - rewrite !string_app_assoc. reflexivity.
Qed.

Lemma rows_text_next_row (f : string) (r : list string) (rows : list (list string)) :
  rows_text ([f] :: r :: rows)
  = escapeCSV (VString f) +:+ String newline (rows_text (r :: rows)).
Proof. reflexivity. Qed.

Lemma read_rows_rows_text (rows : list (list string)) :
  Forall (fun r => r <> []) rows ->
  forall fs f fuel,
    (length fs + count_fields rows < fuel)%nat ->
    read_rows fuel (rows_text ((f :: fs) :: rows)) = Some ((f :: fs) :: rows).
Proof.
  induction 1 as [|r rows Hr Hrows IH].
  - induction fs as [|g gs IHf]; intros f fuel Hfuel;
      (destruct fuel as [|fuel]; [unfold count_fields in Hfuel; cbn in Hfuel; lia|]).
    + rewrite rows_text_one. cbn [read_rows].
      rewrite <- (string_app_nil_r (escapeCSV (VString f))).
      now rewrite read_field_escapeCSV.
    + rewrite rows_text_next_field. cbn [read_rows].
      rewrite read_field_escapeCSV by reflexivity.
      rewrite IHf by (unfold count_fields in *; cbn in *; lia). reflexivity.
  - destruct r as [|h hs]; [congruence|].
    induction fs as [|g gs IHf]; intros f fuel Hfuel;
      (destruct fuel as [|fuel]; [unfold count_fields in Hfuel; cbn in Hfuel; lia|]).
    + rewrite rows_text_next_row. cbn [read_rows].
      rewrite read_field_escapeCSV by reflexivity.
      rewrite IH by (unfold count_fields in *; cbn in *; lia). reflexivity.
    + rewrite rows_text_next_field. cbn [read_rows].
      rewrite read_field_escapeCSV by reflexivity.
      rewrite IHf by (unfold count_fields in *; cbn in *; lia). reflexivity.
Qed.

Lemma count_fields_length (rows : list (list string)) :
  Forall (fun r => r <> []) rows ->
  forall fs f,
    (length fs + count_fields rows <= String.length (rows_text ((f :: fs) :: rows)))%nat.
Proof.
  induction 1 as [|r rows Hr Hrows IH].
  - induction fs as [|g gs IHf]; intros f; [cbn; lia|].
    rewrite rows_text_next_field, string_length_app. cbn [String.length length].
    specialize (IHf g). unfold count_fields in *. cbn in *. lia.
  - destruct r as [|h hs]; [congruence|].
    induction fs as [|g gs IHf]; intros f.
    + rewrite rows_text_next_row, string_length_app. cbn [String.length length count_fields foldr].
      specialize (IH hs h). unfold count_fields in *. cbn in *. lia.
    + rewrite rows_text_next_field, string_length_app. cbn [String.length length].
      specialize (IHf g). unfold count_fields in *. cbn in *. lia.
Qed.

Lemma arrayToCSV_rows_text {Row : Type} (get : Row -> string -> JsValue)
    (data : list Row) (headers : list string) :
  Forall (fun h => needs_quoting h = false) headers ->
  arrayToCSV get data headers = rows_text (headers :: (cells get headers <$> data)).
Proof.
  intros Hplain. unfold arrayToCSV, rows_text. cbn [fmap list_fmap]. f_equal. f_equal.
  - unfold row_text. f_equal. induction Hplain as [|h hs Hh _ IH]; [reflexivity|].
    cbn [fmap list_fmap]. f_equal; [symmetry; exact (escapeCSV_plain h Hh)|exact IH].
  - rewrite <- list_fmap_compose. apply list_fmap_ext. intros _ row _.
    unfold compose, row_text, cells. f_equal. rewrite <- list_fmap_compose.
    apply list_fmap_ext. intros _ h _. apply escapeCSV_text_of.
Qed.

(** X4. Reading back the text [arrayToCSV] writes, with at least one
    header and headers free of commas, quotes and newlines, gives the
    header row followed by one row per data row, each cell being the
    text of the row's value under the header, whatever commas, quotes or
    newlines the values contain; [null] and [undefined] come back as the
    empty text. *)
Theorem arrayToCSV_round_trip {Row : Type} (get : Row -> string -> JsValue)
    (data : list Row) (headers : list string) :
  headers <> [] ->
  Forall (fun h => needs_quoting h = false) headers ->
  read_csv (arrayToCSV get data headers) = Some (headers :: (cells get headers <$> data)).
Proof.
  intros Hne Hplain. rewrite (arrayToCSV_rows_text get data headers Hplain).
  destruct headers as [|h hs]; [congruence|].
  assert (Hrows : Forall (fun r : list string => r <> []) (cells get (h :: hs) <$> data)).
  { apply Forall_fmap, Forall_forall. intros row _. discriminate. }
  unfold read_csv. apply read_rows_rows_text; [assumption|].
  pose proof (count_fields_length _ Hrows hs h). lia.
Qed.

Lemma arrayToCSV_round_trip_witness :
  read_csv (arrayToCSV channel_column (tv_channels scenario_tables) channels_headers)
  = Some (channels_headers
          :: (cells channel_column channels_headers <$> tv_channels scenario_tables)).
Proof.
  apply arrayToCSV_round_trip; [discriminate|]. repeat constructor.
Defined.

(** ** Reconciliation checker: the record counter on exported texts *)

Lemma split_lines_nonempty (s : string) : exists l ls, split_lines s = l :: ls.
Proof.
  induction s as [|c r (l & ls & IH)]; cbn [split_lines]; [eauto|].
  destruct (Ascii.eqb c newline); [eauto|]. rewrite IH. eauto.
Qed.

Lemma split_lines_app_newline (a b : string) :
  split_lines (a +:+ String newline b) = split_lines a ++ split_lines b.
Proof.
  induction a as [|c a IH].
  - rewrite app_empty_l. reflexivity.
  - rewrite app_String. cbn [split_lines]. destruct (Ascii.eqb c newline).
    + now rewrite IH.
    + rewrite IH. destruct (split_lines_nonempty a) as (l & ls & ->). reflexivity.
Qed.

Lemma split_lines_prefix (a b l : string) (ls : list string) :
  includes_char a newline = false ->
  split_lines b = l :: ls ->
  split_lines (a +:+ b) = (a +:+ l) :: ls.
Proof.
  intros Ha Hb. induction a as [|c a IH].
  - now rewrite !app_empty_l.
  - cbn [includes_char] in Ha. apply orb_false_elim in Ha as [Hc Ha].
    rewrite !app_String. cbn [split_lines]. rewrite Hc, (IH Ha). reflexivity.
Qed.

Lemma space_not_quote (c : ascii) :
  Ascii.is_space c = true -> Ascii.eqb c dquote = false.
Proof. destruct c as [[] [] [] [] [] [] [] []]; try discriminate; reflexivity. Qed.

Lemma quoteCount_trimStart (s : string) : quoteCount (trimStart s) = quoteCount s.
Proof.
  induction s as [|c r IH]; [reflexivity|]. cbn [trimStart quoteCount].
  destruct (Ascii.is_space c) eqn:Hc; [|reflexivity].
  now rewrite IH, (space_not_quote c Hc).
Qed.

Lemma quoteCount_trimEnd (s : string) : quoteCount (trimEnd s) = quoteCount s.
Proof.
  induction s as [|c r IH]; [reflexivity|]. cbn [trimEnd quoteCount].
  destruct (trimEnd r) as [|d r'] eqn:Er.
  - rewrite <- IH. destruct (Ascii.is_space c) eqn:Hc.
    + now rewrite (space_not_quote c Hc).
    + cbn [quoteCount]. lia.
  - cbn [quoteCount]. cbn [quoteCount] in IH. now rewrite IH.
Qed.

Lemma quoteCount_trim (s : string) : quoteCount (trim s) = quoteCount s.
Proof. unfold trim. now rewrite quoteCount_trimEnd, quoteCount_trimStart. Qed.

Lemma xorb_odd_succ (q : bool) (n : nat) :
  xorb q (Nat.odd (S n)) = xorb (negb q) (Nat.odd n).
Proof. rewrite Nat.odd_succ, <- Nat.negb_odd. now destruct q, (Nat.odd n). Qed.

Lemma scan_quotes_continuation (s : string) :
  forall q l ls,
    scan_quotes s q = Some false ->
    split_lines s = l :: ls ->
    continuation ls (xorb q (Nat.odd (quoteCount l))).
Proof.
  induction s as [|c r IH]; intros q l ls.
  - cbn. intros [= ->] [= <- <-]. reflexivity.
  - cbn [scan_quotes split_lines].
    destruct (split_lines_nonempty r) as (l' & ls' & El).
    destruct (Ascii.eqb c dquote) eqn:Hq.
    + apply Ascii.eqb_eq in Hq. subst c.
      change (Ascii.eqb dquote newline) with false. cbn iota. rewrite El.
      intros Hs [= <- <-]. cbn [quoteCount]. rewrite Ascii.eqb_refl.
      change (1 + quoteCount l')%nat with (S (quoteCount l')).
      rewrite xorb_odd_succ. now apply IH.
    + destruct (Ascii.eqb c newline) eqn:Hn.
      * destruct q; [|discriminate]. intros Hs [= <- <-]. rewrite El.
        cbn [continuation quoteCount Nat.odd xorb]. split; [reflexivity|].
        now apply (IH true).
      * rewrite El. intros Hs [= <- <-]. cbn [quoteCount]. rewrite Hq.
        now apply IH.
Qed.

Lemma count_records_continuation (ls more : list string) :
  forall q c,
    continuation ls q ->
    count_records (ls ++ more) c q = count_records more c false.
Proof.
  induction ls as [|l ls IH]; intros q c.
  - cbn. now intros ->.
  - cbn [continuation app count_records]. intros [-> Hc].
    pose proof (quoteCount_trim l) as Hq.
    destruct (trim l) as [|d r] eqn:Et.
    + cbn in Hq. rewrite <- Hq in Hc. now apply IH.
    + cbn [negb andb]. rewrite Hq. apply IH.
      destruct (Nat.odd (quoteCount l)); exact Hc.
Qed.

Lemma id_char_facts (c : ascii) :
  is_id_char c = true ->
  Ascii.is_space c = false /\ Ascii.eqb c comma = false
  /\ Ascii.eqb c dquote = false /\ Ascii.eqb c newline = false.
Proof.
  destruct c as [[] [] [] [] [] [] [] []]; try discriminate; intros _;
    repeat split; reflexivity.
Qed.

Lemma trimEnd_cons (c : ascii) (r : string) :
  Ascii.is_space c = false -> trimEnd (String c r) = String c (trimEnd r).
Proof. intros H. cbn [trimEnd]. rewrite H. now destruct (trimEnd r). Qed.

(** A line that opens with an identifier and a comma is a record start,
    also after trimming. *)
Lemma starts_record_id (n : nat) :
  forall id tail,
    id_chars n id = Some EmptyString ->
    id_chars n (trimEnd (id +:+ String comma tail)) = Some (String comma (trimEnd tail))
    /\ includes_char id newline = false
    /\ needs_quoting id = false.
Proof.
  induction n as [|n IH]; intros id tail.
  - cbn. intros [= ->]. rewrite app_empty_l, trimEnd_cons by reflexivity. auto.
  - cbn [id_chars]. destruct id as [|c r]; [discriminate|].
    destruct (is_id_char c) eqn:Hc; [|discriminate]. intros Hr.
    destruct (id_char_facts c Hc) as (Hs & Hco & Hq & Hn).
    destruct (IH r tail Hr) as (H1 & H2 & H3).
    rewrite app_String, trimEnd_cons by assumption. cbn [id_chars]. rewrite Hc.
    split; [assumption|]. unfold needs_quoting in *. cbn [includes_char].
    rewrite Hco, Hq, Hn. cbn [orb]. auto.
Qed.

Lemma scan_quotes_app (a b : string) :
  forall q, scan_quotes (a +:+ b) q
            = match scan_quotes a q with
              | Some q' => scan_quotes b q'
              | None => None
              end.
Proof.
  induction a as [|c a IH]; intros q; [reflexivity|].
  rewrite app_String. cbn [scan_quotes].
  destruct (Ascii.eqb c dquote); [apply IH|].
  destruct (Ascii.eqb c newline); [|apply IH].
  destruct q; [apply IH|reflexivity].
Qed.

Lemma scan_quotes_plain (s : string) (q : bool) :
  includes_char s dquote = false -> includes_char s newline = false ->
  scan_quotes s q = Some q.
Proof.
  induction s as [|c r IH]; [reflexivity|]. cbn [includes_char scan_quotes].
  intros [Hq Hr]%orb_false_elim [Hn Hr']%orb_false_elim. rewrite Hq, Hn. auto.
Qed.

Lemma scan_quotes_double_quotes (s : string) :
  scan_quotes (double_quotes s) true = Some true.
Proof.
  induction s as [|c r IH]; [reflexivity|]. cbn [double_quotes].
  destruct (Ascii.eqb c dquote) eqn:Hq.
  - cbn [scan_quotes]. rewrite Ascii.eqb_refl. cbn [negb]. exact IH.
  - cbn [scan_quotes]. rewrite Hq. destruct (Ascii.eqb c newline); exact IH.
Qed.

Lemma scan_quotes_escapeCSV (s : string) :
  scan_quotes (escapeCSV (VString s)) false = Some false.
Proof.
  unfold escapeCSV. cbn [to_String]. destruct (needs_quoting s) eqn:Hq.
  - cbn [scan_quotes]. rewrite Ascii.eqb_refl. cbn [negb].
    rewrite scan_quotes_app, scan_quotes_double_quotes. reflexivity.
  - unfold needs_quoting in Hq. apply orb_false_elim in Hq as [Hq Hn].
    apply orb_false_elim in Hq as [_ Hq]. now apply scan_quotes_plain.
Qed.

Lemma row_text_cons (f g : string) (gs : list string) :
  row_text (f :: g :: gs) = escapeCSV (VString f) +:+ String comma (row_text (g :: gs)).
Proof. reflexivity. Qed.

Lemma scan_quotes_row_text (fields : list string) :
  scan_quotes (row_text fields) false = Some false.
Proof.
  induction fields as [|f [|g gs] IH]; [reflexivity| |].
  - apply scan_quotes_escapeCSV.
  - rewrite row_text_cons, scan_quotes_app, scan_quotes_escapeCSV. exact IH.
Qed.

Lemma count_records_record (id f : string) (fs more : list string) (c : Z) :
  video_id_like id = true ->
  count_records (split_lines (row_text (id :: f :: fs)) ++ more) c false
  = count_records more (c + 1) false.
Proof.
  intros Hid. unfold video_id_like in Hid.
  destruct (id_chars 11 id) as [[|? ?]|] eqn:Eid; try discriminate.
  pose proof (scan_quotes_row_text (id :: f :: fs)) as Hscan.
  rewrite row_text_cons in *.
  destruct (split_lines_nonempty (String comma (row_text (f :: fs)))) as (l & ls & El).
  pose proof El as El'. cbn [split_lines] in El'.
  change (Ascii.eqb comma newline) with false in El'. cbn iota in El'.
  destruct (split_lines_nonempty (row_text (f :: fs))) as (l0 & ls0 & El0).
  rewrite El0 in El'. injection El' as <- <-.
  destruct (starts_record_id 11 id l0 Eid) as (Hstart & Hnl & Hplain).
  rewrite (escapeCSV_plain id Hplain) in *.
  rewrite (split_lines_prefix id _ _ _ Hnl El) in *.
  pose proof (scan_quotes_continuation _ false _ _ Hscan
                (split_lines_prefix id _ _ _ Hnl El)) as Hcont.
  cbn [app count_records].
  pose proof (quoteCount_trim (id +:+ String comma l0)) as Hq.
  assert (Htrim : trim (id +:+ String comma l0)
                  = trimEnd (id +:+ String comma l0)).
  { unfold trim. f_equal. destruct id as [|d r]; [discriminate|].
    cbn [id_chars] in Eid. destruct (is_id_char d) eqn:Hd; [|discriminate].
    destruct (id_char_facts d Hd) as (Hs & _). rewrite app_String. cbn [trimStart].
    now rewrite Hs. }
  assert (Hrec : starts_record (trim (id +:+ String comma l0)) = true).
  { rewrite Htrim. unfold starts_record. rewrite Hstart. apply Ascii.eqb_refl. }
  destruct (trim (id +:+ String comma l0)) as [|d r] eqn:Et.
  { cbn in Hrec. discriminate. }
  rewrite Hrec. cbn [negb andb]. rewrite Hq.
  apply count_records_continuation.
  cbn [xorb] in Hcont. destruct (Nat.odd _); exact Hcont.
Qed.

Lemma rows_text_cons (r r' : list string) (rows : list (list string)) :
  rows_text (r :: r' :: rows) = row_text r +:+ String newline (rows_text (r' :: rows)).
Proof. reflexivity. Qed.

Lemma count_records_rows (rows : list (list string)) :
  Forall record_row rows -> rows <> [] ->
  forall c, count_records (split_lines (rows_text rows)) c false
            = c + Z.of_nat (length rows).
Proof.
  induction 1 as [|r rows (id & f & fs & -> & Hid) Hrows IH]; [congruence|].
  intros _ c. destruct rows as [|r' rows].
  - change (rows_text [id :: f :: fs]) with (row_text (id :: f :: fs)).
    rewrite <- (app_nil_r (split_lines _)), count_records_record by assumption.
    cbn. lia.
  - rewrite rows_text_cons, split_lines_app_newline, count_records_record by assumption.
    rewrite IH by discriminate. cbn [length]. lia.
Qed.

Lemma includes_char_app (a b : string) (c : ascii) :
  includes_char (a +:+ b) c = includes_char a c || includes_char b c.
Proof.
  induction a as [|d a IH]; [reflexivity|].
  rewrite app_String. cbn [includes_char]. now rewrite IH, orb_assoc.
Qed.

Lemma plain_row_no_newline (headers : list string) :
  Forall (fun h => needs_quoting h = false) headers ->
  includes_char (row_text headers) newline = false.
Proof.
  induction 1 as [|h [|g gs] Hh _ IH]; [reflexivity| |].
  - change (row_text [h]) with (escapeCSV (VString h)). rewrite escapeCSV_plain by assumption.
    unfold needs_quoting in Hh. now apply orb_false_elim in Hh as [_ Hh].
  - rewrite row_text_cons, includes_char_app, escapeCSV_plain by assumption.
    cbn [includes_char]. rewrite IH.
    unfold needs_quoting in Hh. apply orb_false_elim in Hh as [_ ->]. reflexivity.
Qed.

Lemma split_lines_plain (s : string) :
  includes_char s newline = false -> split_lines s = [s].
Proof.
  intros H. rewrite <- (string_app_nil_r s) at 1.
  rewrite (split_lines_prefix s "" "" [] H eq_refl). now rewrite string_app_nil_r.
Qed.

Lemma record_counter_on_arrayToCSV {Row : Type} (get : Row -> string -> JsValue)
    (data : list Row) (key h : string) (hs : list string) :
  Forall (fun h => needs_quoting h = false) (key :: h :: hs) ->
  Forall (fun row => video_id_like (text_of (get row key)) = true) data ->
  parseCSVRecordCount (arrayToCSV get data (key :: h :: hs)) = Z.of_nat (length data).
Proof.
  intros Hplain Hids. rewrite (arrayToCSV_rows_text get data _ Hplain).
  unfold parseCSVRecordCount.
  pose proof (split_lines_plain _ (plain_row_no_newline _ Hplain)) as Hh.
  destruct data as [|row data].
  - change (rows_text _) with (row_text (key :: h :: hs)). now rewrite Hh.
  - cbn [fmap list_fmap]. rewrite rows_text_cons, split_lines_app_newline, Hh.
    cbn [app tail]. rewrite count_records_rows;
      [cbn [length]; rewrite length_fmap; lia| |discriminate].
    change (cells get (key :: h :: hs) row :: (cells get (key :: h :: hs) <$> data))
      with (cells get (key :: h :: hs) <$> (row :: data)).
    apply Forall_fmap. eapply Forall_impl; [exact Hids|].
    intros r Hr. cbn. unfold record_row. eauto.
Qed.

(** X5. On the text the export writes for the videos, the record
    counter of the verification finds exactly one record per exported
    row, whatever newlines, quotes and commas the titles and
    descriptions contain, provided every id is made of 11 characters of
    the identifier class. *)
Theorem record_counter_counts_exported_videos (videos : list MediaItemRow) :
  Forall (fun v => video_id_like (mi_id v) = true) videos ->
  parseCSVRecordCount (arrayToCSV media_item_column videos videos_headers)
  = Z.of_nat (length videos).
Proof.
  intros Hids. apply record_counter_on_arrayToCSV; [repeat constructor|].
  eapply Forall_impl; [exact Hids|]. intros v Hv. exact Hv.
Qed.

Lemma record_counter_counts_exported_videos_witness :
  parseCSVRecordCount
    (arrayToCSV media_item_column (tv_media_items scenario_tables) videos_headers)
  = 8.
Proof.
  apply (record_counter_counts_exported_videos (tv_media_items scenario_tables)).
  repeat constructor.
Defined.

(** ** Persistence gateway: what the writes leave alone *)

Lemma overwrite_keeps channelData (r : ChannelRow) :
  ch_slug (overwrite channelData r) = ch_slug r
  /\ ch_visible (overwrite channelData r) = ch_visible r
  /\ ch_created_at (overwrite channelData r) = ch_created_at r
  /\ (ch_slug r <> cd_slug channelData -> overwrite channelData r = r).
Proof.
  unfold overwrite. destruct (decide (ch_slug r = cd_slug channelData)) as [E|NE].
  - cbn. rewrite E. repeat split. congruence.
  - repeat split.
Qed.

Lemma upsertChannel_rows be channelData t :
  fst (upsertChannel be channelData t) = t
  \/ fst (upsertChannel be channelData t)
     = set_channels t (upserted channelData be (tv_channels t)).
Proof.
  unfold upsertChannel, upsert_channel.
  destruct (fault be TvChannels Upsert); [now left|].
  cbn [new_channel channelRecord pc_slug pc_name mbind option_bind].
  cbn [ch_slug pc_youtube_id pc_visible pc_created_at default].
  change (fun r : ChannelRow =>
            if decide (ch_slug r = cd_slug channelData)
            then patch_channel (channelRecord channelData) r else r)
    with (overwrite channelData).
  fold (upserted channelData be (tv_channels t)).
  destruct (channels_ok _); [now right|now left].
Qed.

(** X6. Whatever its outcome, [upsertChannel] leaves the media items
    and the statistics as they were, removes no channel, and for every
    stored channel keeps the slug, the visibility flag and the creation
    time; a channel of another slug is left unchanged altogether. *)
Theorem upsertChannel_keeps_stored_channels (be : Backend) (channelData : ChannelData)
    (t : Tables) :
  let t' := fst (upsertChannel be channelData t) in
  tv_media_items t' = tv_media_items t
  /\ tv_channel_statistics t' = tv_channel_statistics t
  /\ (length (tv_channels t) <= length (tv_channels t'))%nat
  /\ forall i r, tv_channels t !! i = Some r ->
       exists r', tv_channels t' !! i = Some r'
         /\ ch_slug r' = ch_slug r
         /\ ch_visible r' = ch_visible r
         /\ ch_created_at r' = ch_created_at r
         /\ (ch_slug r <> cd_slug channelData -> r' = r).
Proof.
  cbn zeta. destruct (upsertChannel_rows be channelData t) as [-> | ->].
  - repeat split; [lia|]. intros i r Hr. exists r. auto.
  - cbn [set_channels tv_media_items tv_channel_statistics tv_channels].
    split; [reflexivity|]. split; [reflexivity|]. unfold upserted.
    destruct (slug_known (tv_channels t) (cd_slug channelData)).
    + split; [now rewrite length_fmap|]. intros i r Hr.
      exists (overwrite channelData r). rewrite list_lookup_fmap, Hr.
      split; [reflexivity|]. apply overwrite_keeps.
    + split; [rewrite length_app; lia|]. intros i r Hr. exists r.
      rewrite lookup_app_l by (eapply lookup_lt_Some; eauto). auto.
Qed.

(** ** Persistence gateway: a sync whose bulk insert fails *)

Lemma run_updates_tables be (vs : list VideoData) t :
  fault be TvMediaItems Update = None ->
  media_items_ok (tv_channels t) (tv_media_items t) = true ->
  run_updates be ((fun v => (vd_id v, updateRecord v)) <$> vs) t
  = set_media_items t (after_updates vs <$> tv_media_items t).
Proof.
  intros Hf Hok.
  destruct (run_updates_kept be vs t) as (Hc & Hs & _). cbn zeta in Hc, Hs.
  pose proof (run_updates_applied be vs t Hf Hok) as Hm.
  destruct (run_updates be _ t) as [c m s]. cbn in *. subst. reflexivity.
Qed.

Lemma upsertChannel_keeps_stored_channels_witness :
  tv_media_items (fst (upsertChannel reliable channel_A scenario_tables))
  = tv_media_items scenario_tables
  /\ (length (tv_channels scenario_tables)
      <= length (tv_channels (fst (upsertChannel reliable channel_A scenario_tables))))%nat.
Proof.
  pose proof (upsertChannel_keeps_stored_channels reliable channel_A scenario_tables) as H.
  cbn zeta in H. destruct H as (H1 & _ & H2 & _). split; [exact H1|exact H2].
Defined.

(** X7. The sync is not atomic: when the store accepts the counter
    updates and then refuses the bulk insert, [insertNewMediaItems]
    throws with the store's message, no row is added, and the rows of
    the videos that were already stored hold the counters of the batch
    all the same. *)
Theorem failed_insert_keeps_counter_updates (be : Backend) (m channelSlug : string)
    (B : list VideoData) (t : Tables) :
  fault be TvMediaItems Select = None ->
  fault be TvMediaItems Update = None ->
  fault be TvMediaItems Insert = Some m ->
  media_items_ok (tv_channels t) (tv_media_items t) = true ->
  (exists v, v ∈ B /\ vd_id v ∉ stored_ids channelSlug t) ->
  let E := stored_ids channelSlug t in
  let t' := fst (insertNewMediaItems be channelSlug B t) in
  snd (insertNewMediaItems be channelSlug B t)
  = Throw ("Failed to insert new media items: " +:+ m)
  /\ length (tv_media_items t') = length (tv_media_items t)
  /\ forall i r, tv_media_items t !! i = Some r -> mi_id r ∈ E ->
       (exists v, v ∈ B /\ vd_id v = mi_id r) ->
       exists r' v, tv_media_items t' !! i = Some r'
         /\ v ∈ B /\ vd_id v = mi_id r /\ has_counters_of v r'.
Proof.
  intros Hs Hu Hi Hok (v0 & Hv0 & Hnew). cbn zeta.
  unfold insertNewMediaItems, select_media_items. rewrite Hs.
  fold (stored_ids channelSlug t). rewrite partition_videos_filter, committed_updates.
  set (olds := committed be channelSlug B t).
  rewrite (run_updates_tables be olds t Hu Hok).
  destruct (filter (fun v => vd_id v ∉ stored_ids channelSlug t) B) as [|n ns] eqn:En.
  { exfalso. assert (v0 ∈ filter (fun v => vd_id v ∉ stored_ids channelSlug t) B) as H
      by (apply list_elem_of_filter; auto).
    rewrite En in H. inversion H. }
  cbn [fmap list_fmap]. unfold insert_media_items. rewrite Hi. cbn [fst snd].
  cbn [set_media_items tv_media_items].
  split; [reflexivity|]. split; [now rewrite length_fmap|].
  intros i r Hr HE (v & Hv & Ev).
  destruct (after_updates_row olds r) as [_ Hset].
  destruct Hset as (w & Hw & Ew & Hc).
  { exists v. split; [|assumption]. apply elem_of_committed. split; [assumption|congruence]. }
  exists (after_updates olds r), w. rewrite list_lookup_fmap, Hr.
  apply elem_of_committed in Hw as [Hw _]. auto.
Qed.

Lemma failed_insert_keeps_counter_updates_witness :
  snd (insertNewMediaItems (refusing Insert "connection terminated") "A"
         (videos_A_again ++ [video_A_new]) scenario_tables)
  = Throw "Failed to insert new media items: connection terminated"
  /\ mi_views
       <$> take 2 (tv_media_items
                     (fst (insertNewMediaItems (refusing Insert "connection terminated") "A"
                             (videos_A_again ++ [video_A_new]) scenario_tables)))
     = [Some 11; Some 22].
Proof.
  split; [|reflexivity].
  apply (failed_insert_keeps_counter_updates (refusing Insert "connection terminated")
           "connection terminated" "A" (videos_A_again ++ [video_A_new]) scenario_tables);
    try reflexivity.
  exists video_A_new. split.
  - apply elem_of_app. right. left.
  - vm_compute. discriminate.
Defined.

(** ** Persistence gateway: syncing the same batch again *)

Lemma after_updates_snoc (vs : list VideoData) (v : VideoData) (r : MediaItemRow) :
  after_updates (vs ++ [v]) r = apply_counters v (after_updates vs r).
Proof. unfold after_updates. now rewrite foldl_app. Qed.

Lemma after_updates_id (vs : list VideoData) (r : MediaItemRow) :
  mi_id (after_updates vs r) = mi_id r.
Proof.
  induction vs as [|v vs IH] using rev_ind; [reflexivity|].
  now rewrite after_updates_snoc, apply_counters_id.
Qed.

Lemma after_updates_descriptive (vs : list VideoData) (r : MediaItemRow) :
  descriptive (after_updates vs r) = descriptive r.
Proof.
  induction vs as [|v vs IH] using rev_ind; [reflexivity|].
  now rewrite after_updates_snoc, apply_counters_descriptive.
Qed.

(** The updates of a list of videos amount to the last one that targets
    the row. *)
Lemma after_updates_last (vs : list VideoData) (r : MediaItemRow) :
  after_updates vs r
  = match last (filter (fun v => vd_id v = mi_id r) vs) with
    | Some v => patch_media_item (updateRecord v) r
    | None => r
    end.
Proof.
  induction vs as [|v vs IH] using rev_ind; [reflexivity|].
  rewrite after_updates_snoc, filter_app. unfold apply_counters.
  rewrite after_updates_id, IH.
  destruct (decide (mi_id r = vd_id v)) as [E|NE].
  - rewrite (filter_cons_True (fun v => vd_id v = mi_id r)) by congruence.
    rewrite filter_nil, last_snoc.
    destruct (last (filter _ vs)); reflexivity.
  - rewrite (filter_cons_False (fun v => vd_id v = mi_id r)) by congruence.
    rewrite filter_nil, app_nil_r. reflexivity.
Qed.

Lemma filter_fmap_same {A : Type} (P : A -> Prop) `{forall x, Decision (P x)}
    (f : A -> A) (l : list A) :
  (forall x, P (f x) <-> P x) -> filter P (f <$> l) = f <$> filter P l.
Proof.
  intros Hf. induction l as [|x l IH]; [reflexivity|].
  cbn [fmap list_fmap]. rewrite !filter_cons.
  destruct (decide (P (f x))) as [Hy|Hn], (decide (P x)) as [Hy'|Hn'];
    cbn [fmap list_fmap]; rewrite ?IH; try reflexivity.
  - exfalso. apply Hn', Hf, Hy.
  - exfalso. apply Hn, Hf, Hy'.
Qed.

Lemma filter_all {A : Type} (P : A -> Prop) `{forall x, Decision (P x)} (l : list A) :
  (forall x, x ∈ l -> P x) -> filter P l = l.
Proof.
  induction l as [|x l IH]; intros Hl; [reflexivity|].
  rewrite filter_cons_True by (apply Hl; left). f_equal.
  apply IH. intros y Hy. apply Hl. now right.
Qed.

Lemma created_from_fields be slug (v : VideoData) (row : MediaItemRow) :
  created_from be slug v row ->
  mi_id row = vd_id v /\ mi_channel_slug row = Some slug
  /\ patch_media_item (updateRecord v) row = row.
Proof. unfold created_from. cbn. intros [= <-]. repeat split. Qed.

Lemma created_slugs be slug (vs : list VideoData) (rows : list MediaItemRow) :
  Forall2 (created_from be slug) vs rows ->
  filter (fun r => mi_channel_slug r = Some slug) rows = rows.
Proof.
  induction 1 as [|v row vs rows H _ IH]; [reflexivity|].
  apply created_from_fields in H as (_ & Hs & _).
  now rewrite filter_cons_True, IH.
Qed.

Lemma NoDup_fmap_eq {A B : Type} (f : A -> B) (l : list A) (x y : A) :
  NoDup (f <$> l) -> x ∈ l -> y ∈ l -> f x = f y -> x = y.
Proof.
  intros Hnd Hx Hy E.
  apply list_elem_of_lookup in Hx as [i Hi]. apply list_elem_of_lookup in Hy as [j Hj].
  assert (i = j) as ->; [|congruence].
  eapply (NoDup_lookup (f <$> l)); [exact Hnd| |];
    rewrite list_lookup_fmap; [rewrite Hi|rewrite Hj]; cbn; [reflexivity|now rewrite E].
Qed.

(** The store after a sync that succeeded. *)
Lemma sync_success_shape be slug (B : list VideoData) (t t1 : Tables) :
  fault be TvMediaItems Select = None ->
  fault be TvMediaItems Update = None ->
  media_items_ok (tv_channels t) (tv_media_items t) = true ->
  insertNewMediaItems be slug B t = (t1, Ok ()) ->
  exists new,
    t1 = set_media_items t
           ((after_updates (committed be slug B t) <$> tv_media_items t) ++ new)
    /\ Forall2 (created_from be slug)
         (filter (fun v => vd_id v ∉ stored_ids slug t) B) new
    /\ media_items_ok (tv_channels t) (tv_media_items t1) = true.
Proof.
  intros Hs Hu Hok. unfold insertNewMediaItems, select_media_items. rewrite Hs.
  fold (stored_ids slug t). rewrite partition_videos_filter, committed_updates.
  set (olds := committed be slug B t).
  set (news := filter (fun v => vd_id v ∉ stored_ids slug t) B).
  rewrite (run_updates_tables be olds t Hu Hok).
  assert (Hok1 : media_items_ok (tv_channels t) (after_updates olds <$> tv_media_items t)
                 = true).
  { rewrite (media_items_ok_same _ (tv_media_items t)); [assumption|].
    unfold same_descriptive. apply Forall2_fmap_r, Forall_Forall2_diag, Forall_forall.
    intros r _. unfold compose. symmetry. apply after_updates_descriptive. }
  destruct (newRecord slug <$> news) as [|n ns] eqn:En.
  - apply fmap_nil_inv in En. intros [= <-]. exists []. rewrite En, app_nil_r.
    repeat split; [constructor|exact Hok1].
  - rewrite <- En. unfold insert_media_items.
    destruct (fault be TvMediaItems Insert); [discriminate|].
    destruct (mapM _ _) as [rows|] eqn:Em; [|discriminate].
    cbn [set_media_items tv_channels tv_media_items].
    destruct (media_items_ok _ (_ ++ rows)) eqn:Hok2; [|discriminate].
    intros [= <-]. exists rows. cbn [set_media_items tv_media_items tv_channels].
    repeat split; [|exact Hok2].
    apply mapM_Some, Forall2_fmap_l in Em. exact Em.
Qed.

(** With distinct ids the updates of a list of videos amount to the one
    update that targets the row, whatever their order. *)
Lemma after_updates_unique (vs : list VideoData) (v : VideoData) (r : MediaItemRow) :
  NoDup (vd_id <$> vs) -> v ∈ vs -> vd_id v = mi_id r ->
  after_updates vs r = patch_media_item (updateRecord v) r.
Proof.
  intros Hnd Hv Ev. rewrite after_updates_last.
  destruct (filter_unique vd_id vs (mi_id r) Hnd) as [w Hw].
  { apply list_elem_of_fmap. eauto. }
  rewrite Hw. cbn [last].
  assert (Hin : v ∈ filter (fun x => vd_id x = mi_id r) vs)
    by (apply list_elem_of_filter; auto).
  rewrite Hw in Hin. apply list_elem_of_singleton in Hin. now subst.
Qed.

Lemma after_updates_untouched (vs : list VideoData) (r : MediaItemRow) :
  mi_id r ∉ vd_id <$> vs -> after_updates vs r = r.
Proof.
  intros Hno. apply (after_updates_row vs r). intros v Hv Ev.
  apply Hno, list_elem_of_fmap. eauto.
Qed.

(** X8. Syncing a batch of videos with distinct ids a second time
    changes nothing: after a sync that succeeded on a store satisfying
    its constraints, the same call returns normally again, inserts no
    row and leaves every row, counters included, as the first call left
    it, in whatever order the store commits the updates of either
    call. *)
Theorem sync_twice_changes_nothing (be be' : Backend) (channelSlug : string)
    (B : list VideoData) (t t1 : Tables) :
  fault be TvMediaItems Select = None ->
  fault be TvMediaItems Update = None ->
  fault be' TvMediaItems Select = None ->
  fault be' TvMediaItems Update = None ->
  media_items_ok (tv_channels t) (tv_media_items t) = true ->
  NoDup (vd_id <$> B) ->
  insertNewMediaItems be channelSlug B t = (t1, Ok ()) ->
  insertNewMediaItems be' channelSlug B t1 = (t1, Ok ()).
Proof.
  intros Hs Hu Hs' Hu' Hok HB H1.
  destruct (sync_success_shape be channelSlug B t t1 Hs Hu Hok H1)
    as (new & -> & Hnew & Hok1).
  set (E := stored_ids channelSlug t) in *.
  set (olds := committed be channelSlug B t) in *.
  set (news := filter (fun v => vd_id v ∉ E) B) in *.
  set (rows := tv_media_items t) in *.
  cbn [set_media_items tv_media_items] in Hok1.
  pose proof Hok1 as Hnd. unfold media_items_ok in Hnd.
  apply andb_prop in Hnd as [Hnd _]. apply bool_decide_eq_true in Hnd.
  rewrite fmap_app in Hnd.
  assert (Hidsold : mi_id <$> (after_updates olds <$> rows) = mi_id <$> rows).
  { rewrite <- list_fmap_compose. apply list_fmap_ext. intros _ r _.
    apply after_updates_id. }
  rewrite Hidsold, (created_ids _ _ _ _ Hnew) in Hnd.
  apply NoDup_app in Hnd as (Hnd_old & Hdisj & Hnd_new).
  assert (Holds : NoDup (vd_id <$> olds)).
  { unfold olds, committed. rewrite commit_order_Permutation.
    eapply sublist_NoDup; [exact HB|]. apply fmap_sublist, sublist_filter. }
  (* the ids stored for the channel after the first call *)
  assert (HE1 : stored_ids channelSlug
                  (set_media_items t ((after_updates olds <$> rows) ++ new))
                = E ∪ list_to_set (vd_id <$> news)).
  { unfold stored_ids. cbn [set_media_items tv_media_items].
    rewrite filter_app, fmap_app, list_to_set_app_L.
    rewrite (created_slugs _ _ _ _ Hnew), (created_ids _ _ _ _ Hnew).
    f_equal. rewrite (filter_fmap_same _ (after_updates olds)).
    - fold rows. rewrite <- list_fmap_compose. unfold E, stored_ids. f_equal.
      apply list_fmap_ext. intros _ r _. apply after_updates_id.
    - intros r. pose proof (after_updates_descriptive olds r) as Hd.
      inversion Hd. split; congruence. }
  assert (Hall : forall v, v ∈ B -> vd_id v ∈ E ∪ list_to_set (vd_id <$> news)).
  { intros v Hv. apply elem_of_union. destruct (decide (vd_id v ∈ E)); [now left|right].
    apply elem_of_list_to_set, list_elem_of_fmap. exists v. split; [reflexivity|].
    apply list_elem_of_filter. auto. }
  unfold insertNewMediaItems, select_media_items. rewrite Hs'.
  fold (stored_ids channelSlug (set_media_items t ((after_updates olds <$> rows) ++ new))).
  rewrite partition_videos_filter, commit_order_fmap, HE1.
  rewrite (filter_none (fun v => vd_id v ∉ E ∪ list_to_set (vd_id <$> news))).
  2:{ intros v Hv Hout. exact (Hout (Hall v Hv)). }
  rewrite (filter_all (fun v => vd_id v ∈ E ∪ list_to_set (vd_id <$> news)) B Hall).
  set (again := commit_order (arrival be') B).
  assert (Hagain : again ≡ₚ B) by apply commit_order_Permutation.
  assert (Hnd_again : NoDup (vd_id <$> again)) by now rewrite Hagain.
  cbn [fmap list_fmap].
  rewrite run_updates_tables by (cbn [set_media_items tv_channels tv_media_items]; assumption).
  cbn [set_media_items tv_channels tv_media_items tv_channel_statistics].
  f_equal. f_equal.
  rewrite <- (list_fmap_id (_ ++ new)) at 2. apply list_fmap_ext.
  intros i r1 Hr1. cbn [id].
  apply lookup_app_Some in Hr1 as [Hr1|[_ Hr1]].
  - (* a row that was there before the first call *)
    rewrite list_lookup_fmap in Hr1.
    destruct (rows !! i) as [r|] eqn:Hr; [|discriminate]. cbn in Hr1.
    injection Hr1 as <-.
    destruct (decide (mi_id r ∈ vd_id <$> B)) as [Hin|Hout].
    + apply list_elem_of_fmap in Hin as (v & Ev & Hv). symmetry in Ev.
      destruct (decide (vd_id v ∈ E)) as [HE|HE].
      * rewrite (after_updates_unique olds v r Holds); [| |exact Ev].
        2:{ apply elem_of_committed. auto. }
        rewrite (after_updates_unique again v _ Hnd_again); [reflexivity| |exact Ev].
        now rewrite Hagain.
      * exfalso. apply (Hdisj (mi_id r)).
        -- apply list_elem_of_fmap. exists r. split; [reflexivity|].
           eapply list_elem_of_lookup_2; eauto.
        -- apply list_elem_of_fmap. exists v. split; [congruence|].
           apply list_elem_of_filter. auto.
    + rewrite (after_updates_untouched olds r).
      * apply after_updates_untouched. now rewrite Hagain.
      * intros Hin. apply Hout. apply list_elem_of_fmap in Hin as (v & Ev & Hv).
        apply elem_of_committed in Hv as [Hv _]. apply list_elem_of_fmap. eauto.
  - (* a row the first call inserted *)
    destruct (Forall2_lookup_r _ _ _ _ _ Hnew Hr1) as (v & Hv & Hcr).
    apply created_from_fields in Hcr as (Hid & _ & Hpatch).
    apply list_elem_of_lookup_2, list_elem_of_filter in Hv as [_ Hv].
    rewrite (after_updates_unique again v r1 Hnd_again); [exact Hpatch| |congruence].
    now rewrite Hagain.
Qed.

Lemma sync_twice_changes_nothing_witness :
  insertNewMediaItems reliable "B" videos_B scenario_tables = (scenario_tables, Ok ()).
Proof.
  apply (sync_twice_changes_nothing reliable reliable "B" videos_B
           (fst (upsertChannel reliable channel_B
                   (fst (insertNewMediaItems reliable "A" videos_A
                           (fst (upsertChannel reliable channel_A empty_tables)))))));
    try reflexivity.
  apply (bool_decide_unpack _). vm_compute. exact I.
Defined.

(** ** Persistence gateway: the ordered reads *)

Lemma newer_first_transitive : Transitive newer_first.
Proof.
  intros a b c Hab Hbc. unfold newer_first in *.
  exact (transitivity (R := String.le) Hbc Hab).
Qed.

Lemma newer_first_total : Total newer_first.
Proof. intros a b. unfold newer_first. destruct (total String.le (st_date b) (st_date a)); auto. Qed.

Lemma later_date_transitive : Transitive later_date.
Proof.
  intros a b c. unfold later_date.
  destruct (mi_date a), (mi_date b), (mi_date c); try tauto.
  intros Hab Hbc. exact (transitivity (R := String.le) Hbc Hab).
Qed.

Lemma later_date_total : Total later_date.
Proof.
  intros a b. unfold later_date.
  destruct (mi_date a) as [x|], (mi_date b) as [y|]; auto.
  destruct (total String.le x y); auto.
Qed.

(** X9. The statistics history of a channel is the first [days] rows of
    its stored snapshots arranged from the most recent date to the
    oldest: it has [min days n] rows when [n] snapshots are stored, and
    the rows left out are no more recent than any row returned. *)
Theorem statistics_history_recent_first (be : Backend) (channelSlug : string)
    (days : nat) (t : Tables) :
  fault be TvChannelStatistics Select = None ->
  exists rows older,
    getChannelStatisticsHistory be channelSlug days t = Ok rows
    /\ length rows = Nat.min days (length (statistics_of channelSlug t))
    /\ rows ++ older ≡ₚ statistics_of channelSlug t
    /\ StronglySorted newer_first (rows ++ older).
Proof.
  intros Hs. unfold getChannelStatisticsHistory, select_statistics. rewrite Hs.
  fold (statistics_of channelSlug t). fold newer_first.
  set (sorted := merge_sort newer_first (statistics_of channelSlug t)).
  exists (take days sorted), (drop days sorted).
  assert (Hp : sorted ≡ₚ statistics_of channelSlug t) by apply merge_sort_Permutation.
  split; [reflexivity|]. split; [|split].
  - rewrite length_take, (Permutation_length Hp). reflexivity.
  - now rewrite take_drop.
  - rewrite take_drop.
    apply StronglySorted_merge_sort;
      [apply newer_first_transitive|apply newer_first_total].
Qed.

Lemma statistics_history_recent_first_witness :
  exists rows older,
    getChannelStatisticsHistory reliable "A" 2 history_tables = Ok rows
    /\ length rows = Nat.min 2 (length (statistics_of "A" history_tables))
    /\ rows ++ older ≡ₚ statistics_of "A" history_tables
    /\ StronglySorted newer_first (rows ++ older).
Proof. apply (statistics_history_recent_first reliable "A" 2 history_tables). reflexivity. Defined.

Lemma sorted_head {A : Type} (R : relation A) `{forall x y, Decision (R x y)}
    (l : list A) (first : A) (rest : list A) :
  Transitive R -> Total R -> merge_sort R l = first :: rest ->
  first ∈ l /\ forall r, r ∈ l -> r = first \/ R first r.
Proof.
  intros HT Htot E.
  pose proof (merge_sort_Permutation R l) as Hp.
  pose proof (StronglySorted_merge_sort R l) as Hsorted.
  rewrite E in Hp, Hsorted. apply StronglySorted_cons in Hsorted as [Hall _].
  split.
  - rewrite <- Hp. left.
  - intros r Hr. rewrite <- Hp in Hr. apply elem_of_cons in Hr as [->|Hr]; [now left|].
    right. rewrite Forall_forall in Hall. auto.
Qed.

(** X10. The latest date of a channel: [null] when the channel has no
    stored item, and when every stored item of the channel has a
    non-empty date, a stored date that no date of the channel exceeds. *)
Theorem latest_date_is_maximum (be : Backend) (channelSlug : string) (t : Tables) :
  fault be TvMediaItems Select = None ->
  (channel_items channelSlug t = [] ->
   getLatestMediaItemDate be channelSlug t = Ok None)
  /\ (channel_items channelSlug t <> [] ->
      Forall (fun r => truthy_string (mi_date r) = true) (channel_items channelSlug t) ->
      exists latest,
        getLatestMediaItemDate be channelSlug t = Ok (Some latest)
        /\ Some latest ∈ mi_date <$> channel_items channelSlug t
        /\ forall r, r ∈ channel_items channelSlug t ->
             exists d, mi_date r = Some d /\ String.le d latest).
Proof.
  intros Hs. unfold getLatestMediaItemDate, select_media_items. rewrite Hs.
  fold (channel_items channelSlug t). split.
  - intros ->. reflexivity.
  - intros Hne Hall.
    destruct (merge_sort later_date (channel_items channelSlug t)) as [|first rest] eqn:E.
    { exfalso. apply Hne.
      pose proof (merge_sort_Permutation later_date (channel_items channelSlug t)) as Hp.
      rewrite E in Hp. now apply Permutation_nil in Hp. }
    destruct (sorted_head later_date _ first rest
                later_date_transitive later_date_total E) as [Hin Hmax].
    rewrite Forall_forall in Hall.
    pose proof (Hall first Hin) as Hfirst.
    destruct (mi_date first) as [[|c latest]|] eqn:Ef; try discriminate.
    exists (String c latest). split; [reflexivity|]. split.
    + apply list_elem_of_fmap. exists first. auto.
    + intros r Hr. pose proof (Hall r Hr) as Hd.
      destruct (mi_date r) as [d|] eqn:Er; [|discriminate].
      exists d. split; [reflexivity|].
      destruct (Hmax r Hr) as [->|Hl].
      * rewrite Ef in Er. injection Er as <-. reflexivity.
      * unfold later_date in Hl. now rewrite Ef, Er in Hl.
Qed.

Lemma latest_date_is_maximum_witness :
  exists latest,
    getLatestMediaItemDate reliable "A" scenario_tables = Ok (Some latest)
    /\ Some latest ∈ mi_date <$> channel_items "A" scenario_tables
    /\ forall r, r ∈ channel_items "A" scenario_tables ->
         exists d, mi_date r = Some d /\ String.le d latest.
Proof.
  destruct (latest_date_is_maximum reliable "A" scenario_tables) as [_ H];
    [reflexivity|].
  apply H; [vm_compute; discriminate|].
  repeat constructor.
Defined.

(** X11. One stored item without a date hides every date of its
    channel: descending order puts it first, and the latest date read is
    [null]. *)
Theorem undated_item_hides_latest_date (be : Backend) (channelSlug : string)
    (t : Tables) (r : MediaItemRow) :
  fault be TvMediaItems Select = None ->
  r ∈ channel_items channelSlug t -> undated r ->
  getLatestMediaItemDate be channelSlug t = Ok None.
Proof.
  intros Hs Hr Hnull. unfold getLatestMediaItemDate, select_media_items. rewrite Hs.
  fold (channel_items channelSlug t).
  destruct (merge_sort later_date (channel_items channelSlug t)) as [|first rest] eqn:E;
    [reflexivity|].
  destruct (sorted_head later_date _ first rest
              later_date_transitive later_date_total E) as [_ Hmax].
  destruct (Hmax r Hr) as [->|Hl].
  - unfold undated in Hnull. now rewrite Hnull.
  - unfold later_date, undated in *. rewrite Hnull in Hl.
    destruct (mi_date first); [contradiction|reflexivity].
Qed.

Lemma undated_item_hides_latest_date_witness :
  getLatestMediaItemDate reliable "A"
    (set_media_items empty_tables
       [dated_row "a0000000001" (Some "2024-04-30"); dated_row "a0000000002" None])
  = Ok None.
Proof.
  apply (undated_item_hides_latest_date reliable "A" _ (dated_row "a0000000002" None)).
  - reflexivity.
  - vm_compute. right. left.
  - reflexivity.
Defined.

(** ** Export followed by verification *)

Lemma getChannelMediaItems_items be slug t :
  fault be TvMediaItems Select = None ->
  getChannelMediaItems be slug t = Ok (channel_items slug t).
Proof. intros H. unfold getChannelMediaItems, select_media_items. now rewrite H. Qed.

Lemma getChannelMediaItems_refused be slug t m :
  fault be TvMediaItems Select = Some m ->
  exists e, getChannelMediaItems be slug t = Throw e.
Proof. intros H. unfold getChannelMediaItems, select_media_items. rewrite H. eauto. Qed.

Lemma export_reads be t videos_csv :
  getAllChannels be t = Ok (tv_channels t) ->
  exportVideosToCSV be t = Ok videos_csv ->
  forall c, c ∈ tv_channels t ->
    getChannelMediaItems be (ch_slug c) t = Ok (channel_items (ch_slug c) t).
Proof.
  intros Ech Ev c Hc. destruct (fault be TvMediaItems Select) as [m|] eqn:Ef;
    [|now apply getChannelMediaItems_items].
  exfalso. unfold exportVideosToCSV in Ev. rewrite Ech in Ev. cbn [mbind result_bind] in Ev.
  destruct (tv_channels t) as [|c0 cs]; [inversion Hc|].
  cbn [concat_results] in Ev.
  destruct (getChannelMediaItems_refused be (ch_slug c0) t m Ef) as [e He].
  rewrite He in Ev. discriminate.
Qed.

Lemma concat_results_items be t (cs : list ChannelRow) :
  (forall c, c ∈ cs ->
     getChannelMediaItems be (ch_slug c) t = Ok (channel_items (ch_slug c) t)) ->
  concat_results (fun channel => getChannelMediaItems be (ch_slug channel) t) cs
  = Ok (videos_of_channels t cs).
Proof.
  induction cs as [|c cs IH]; intros H; [reflexivity|].
  cbn [concat_results]. rewrite (H c) by left. cbn [mbind result_bind].
  rewrite IH by (intros d Hd; apply H; now right). reflexivity.
Qed.

Lemma videos_of_channels_cons t c cs :
  videos_of_channels t (c :: cs) = channel_items (ch_slug c) t ++ videos_of_channels t cs.
Proof. reflexivity. Qed.

Lemma count_videos_items be t (cs : list ChannelRow) :
  (forall c, c ∈ cs ->
     getChannelMediaItems be (ch_slug c) t = Ok (channel_items (ch_slug c) t)) ->
  forall total counts,
    count_videos be t cs total counts
    = Ok (total + Z.of_nat (length (videos_of_channels t cs)),
          foldl (fun m c =>
                   set_property m (ch_slug c)
                     (Z.of_nat (length (channel_items (ch_slug c) t))))
                counts cs).
Proof.
  induction cs as [|c cs IH]; intros H total counts.
  - cbn. do 2 f_equal. lia.
  - cbn [count_videos]. rewrite (H c) by left. cbn [mbind result_bind].
    rewrite IH by (intros d Hd; apply H; now right).
    rewrite videos_of_channels_cons, length_app. cbn [foldl]. do 2 f_equal. lia.
Qed.

Lemma set_property_lookup (m : gmap string Z) (key k : string) (n : Z) :
  set_property m key n !! k
  = if decide (key = k /\ key <> "__proto__") then Some n else m !! k.
Proof.
  unfold set_property. destruct (String.eqb_spec key "__proto__") as [->|Hne].
  - rewrite decide_False by tauto. reflexivity.
  - destruct (decide (key = k)) as [->|Hk].
    + rewrite decide_True by tauto. apply lookup_insert_eq.
    + rewrite decide_False by tauto. now apply lookup_insert_ne.
Qed.

(** The counts of the summary object: an own property for every slug
    written, none under [__proto__]. *)
Lemma counts_lookup t (cs : list ChannelRow) (k : string) :
  k <> "__proto__" ->
  forall counts : gmap string Z,
    (exists c, c ∈ cs /\ ch_slug c = k)
    \/ counts !! k = Some (Z.of_nat (length (channel_items k t))) ->
    foldl (fun m c =>
             set_property m (ch_slug c) (Z.of_nat (length (channel_items (ch_slug c) t))))
          counts cs !! k
    = Some (Z.of_nat (length (channel_items k t))).
Proof.
  intros Hk. induction cs as [|c cs IH]; intros counts H.
  - destruct H as [(c & Hc & _)|H]; [inversion Hc|exact H].
  - cbn [foldl]. apply IH. rewrite set_property_lookup.
    destruct (decide (ch_slug c = k)) as [<-|Hne].
    + right. now rewrite decide_True by tauto.
    + rewrite decide_False by tauto.
      destruct H as [(d & Hd & Ek)|H]; [|now right].
      apply elem_of_cons in Hd as [->|Hd]; [contradiction|]. left. eauto.
Qed.

Lemma counts_lookup_proto t (cs : list ChannelRow) :
  forall counts : gmap string Z,
    foldl (fun m c =>
             set_property m (ch_slug c) (Z.of_nat (length (channel_items (ch_slug c) t))))
          counts cs !! "__proto__"
    = counts !! "__proto__".
Proof.
  induction cs as [|c cs IH]; intros counts; [reflexivity|].
  cbn [foldl]. rewrite IH, set_property_lookup. now rewrite decide_False by tauto.
Qed.

(** The summary a successful export writes. *)
Lemma exported_summary be timestamp t s :
  (forall c, c ∈ tv_channels t ->
     getChannelMediaItems be (ch_slug c) t = Ok (channel_items (ch_slug c) t)) ->
  generateSummaryReport be timestamp t = Ok s ->
  total_channels s = Z.of_nat (length (tv_channels t))
  /\ total_videos s = Z.of_nat (length (videos_of_channels t (tv_channels t)))
  /\ (forall c, c ∈ tv_channels t -> ch_slug c <> "__proto__" ->
        videos_per_channel s !! ch_slug c
        = Some (Z.of_nat (length (channel_items (ch_slug c) t))))
  /\ videos_per_channel s !! "__proto__" = None.
Proof.
  intros Hread. unfold generateSummaryReport.
  destruct (getAllChannels be t) as [channels|e] eqn:E; [|discriminate].
  apply getAllChannels_Ok in E. subst channels. cbn [mbind result_bind].
  rewrite (count_videos_items be t _ Hread). cbn [mbind result_bind].
  intros [= <-]. cbn. split; [reflexivity|]. split; [reflexivity|]. split.
  - intros c Hc Hk. apply counts_lookup; [assumption|]. left. eauto.
  - now rewrite counts_lookup_proto.
Qed.

(** The loop of the video count check, when the reads are answered. *)
Lemma video_count_loop_mismatches be t (s : Summary) (cs : list ChannelRow) :
  (forall c, c ∈ cs ->
     getChannelMediaItems be (ch_slug c) t = Ok (channel_items (ch_slug c) t)) ->
  forall total mismatches,
    video_count_loop be t s cs total mismatches
    = Ok (total + Z.of_nat (length (videos_of_channels t cs)),
          mismatches ++ count_mismatches t s cs).
Proof.
  induction cs as [|c cs IH]; intros Hread total mismatches.
  - cbn. rewrite app_nil_r. do 2 f_equal. lia.
  - cbn [video_count_loop]. rewrite (Hread c) by left. cbn [mbind result_bind].
    rewrite IH by (intros d Hd; apply Hread; now right).
    rewrite videos_of_channels_cons, length_app.
    unfold count_mismatches, get_property. cbn [omap list_omap].
    destruct (videos_per_channel s !! ch_slug c) as [n|]; cbn [property_or_zero].
    + destruct (_ =? n); cbn [negb]; rewrite <- ?app_assoc; do 2 f_equal; lia.
    + destruct (inherited_name (ch_slug c)); cbn [property_or_zero].
      * rewrite <- app_assoc. do 2 f_equal. lia.
      * destruct (_ =? 0); cbn [negb]; rewrite <- ?app_assoc; do 2 f_equal; lia.
Qed.

Lemma count_mismatches_none t (s : Summary) (cs : list ChannelRow) :
  count_mismatches t s cs = [] <-> Forall (agrees_with_summary t s) cs.
Proof.
  unfold count_mismatches. induction cs as [|c cs IH]; [split; [constructor|reflexivity]|].
  cbn [omap list_omap]. rewrite Forall_cons, <- IH. unfold agrees_with_summary.
  destruct (videos_per_channel s !! ch_slug c) as [n|].
  - destruct (Z.eqb_spec (Z.of_nat (length (channel_items (ch_slug c) t))) n) as [E|NE].
    + split; [auto|]. now intros [_ H].
    + split; [discriminate|]. intros [E _]. congruence.
  - destruct (inherited_name (ch_slug c)).
    + split; [discriminate|]. intros [[E _] _]. discriminate.
    + destruct (channel_items (ch_slug c) t) as [|r rows]; cbn.
      * split; [auto|]. now intros [_ H].
      * split; [discriminate|]. intros [[_ E] _]. discriminate.
Qed.


(** What a successful export run has read and written. *)
Lemma export_main_Ok be timestamp t files files' :
  export_main be timestamp t files = (files', Ok ()) ->
  getAllChannels be t = Ok (tv_channels t)
  /\ (forall c, c ∈ tv_channels t ->
        getChannelMediaItems be (ch_slug c) t = Ok (channel_items (ch_slug c) t))
  /\ exists statistics_csv summary,
       generateSummaryReport be timestamp t = Ok summary
       /\ files' = {| export_channels_csv :=
                        Some (arrayToCSV channel_column (tv_channels t) channels_headers);
                      export_videos_csv :=
                        Some (arrayToCSV media_item_column
                                (videos_of_channels t (tv_channels t)) videos_headers);
                      export_channel_statistics_csv := Some statistics_csv;
                      export_summary_json := Some summary |}.
Proof.
  unfold export_main, exportChannelsToCSV.
  destruct (getAllChannels be t) as [channels|e] eqn:Ech; [|discriminate].
  pose proof (getAllChannels_Ok _ _ _ Ech) as ->. cbn [mbind result_bind].
  destruct (exportVideosToCSV be t) as [videos_csv|e] eqn:Ev; [|discriminate].
  pose proof (export_reads be t videos_csv Ech Ev) as Hread.
  unfold exportVideosToCSV in Ev. rewrite Ech in Ev. cbn [mbind result_bind] in Ev.
  rewrite (concat_results_items be t _ Hread) in Ev. cbn [mbind result_bind] in Ev.
  injection Ev as <-.
  destruct (exportChannelStatisticsToCSV be t) as [statistics_csv|e]; [|discriminate].
  destruct (generateSummaryReport be timestamp t) as [summary|e] eqn:Es; [|discriminate].
  intros [= <-]. split; [reflexivity|]. split; [exact Hread|eauto].
Qed.





Lemma double_quotes_newline (s : string) :
  includes_char (double_quotes s) newline = includes_char s newline.
Proof.
  induction s as [|c s IH]; [reflexivity|].
  cbn [double_quotes]. destruct (Ascii.eqb c dquote) eqn:E.
  - apply Ascii.eqb_eq in E. subst c. cbn [includes_char]. now rewrite IH.
  - cbn [includes_char]. now rewrite IH.
Qed.

Lemma escapeCSV_newline (f : string) :
  includes_char (escapeCSV (VString f)) newline = includes_char f newline.
Proof.
  unfold escapeCSV. cbn [to_String]. destruct (needs_quoting f); [|reflexivity].
  cbn [includes_char]. rewrite includes_char_app, double_quotes_newline.
  cbn. now rewrite orb_false_r.
Qed.

Lemma row_text_one_line (fields : list string) :
  Forall one_line fields -> one_line (row_text fields).
Proof.
  unfold one_line.
  induction 1 as [|f [|g gs] Hf _ IH]; [reflexivity| |].
  - change (row_text [f]) with (escapeCSV (VString f)). now rewrite escapeCSV_newline.
  - rewrite row_text_cons, includes_char_app, escapeCSV_newline, Hf.
    cbn [includes_char]. now rewrite IH.
Qed.

Lemma split_lines_rows_text (rows : list (list string)) :
  Forall (fun r => one_line (row_text r)) rows -> rows <> [] ->
  split_lines (rows_text rows) = row_text <$> rows.
Proof.
  induction 1 as [|r [|r' rows] Hr _ IH]; [congruence| |]; intros _.
  - change (rows_text [r]) with (row_text r). now rewrite split_lines_plain.
  - rewrite rows_text_cons, split_lines_app_newline, split_lines_plain by assumption.
    rewrite IH by discriminate. reflexivity.
Qed.

Lemma space_is_not (c d : ascii) :
  Ascii.is_space c = false -> Ascii.is_space d = true -> Ascii.eqb d c = false.
Proof.
  intros Hc Hd. destruct (Ascii.eqb d c) eqn:E; [|reflexivity].
  apply Ascii.eqb_eq in E. congruence.
Qed.

Lemma trimStart_keeps (s : string) (c : ascii) :
  Ascii.is_space c = false ->
  includes_char (trimStart s) c = includes_char s c.
Proof.
  intros Hc. induction s as [|d s IH]; [reflexivity|].
  cbn [trimStart]. destruct (Ascii.is_space d) eqn:Ed; [|reflexivity].
  cbn [includes_char]. now rewrite IH, (space_is_not c d).
Qed.

Lemma trimEnd_keeps (s : string) (c : ascii) :
  Ascii.is_space c = false ->
  includes_char (trimEnd s) c = includes_char s c.
Proof.
  intros Hc. induction s as [|d s IH]; [reflexivity|].
  cbn [trimEnd includes_char]. rewrite <- IH.
  destruct (trimEnd s) as [|e r]; [|reflexivity].
  destruct (Ascii.is_space d) eqn:Ed; cbn [includes_char]; [|reflexivity].
  now rewrite (space_is_not c d).
Qed.

Lemma line_with_comma_counts (line : string) :
  includes_char line comma = true -> negb (String.eqb (trim line) "") = true.
Proof.
  intros H. unfold trim.
  rewrite <- (trimStart_keeps line comma), <- (trimEnd_keeps _ comma) in H by reflexivity.
  destruct (trimEnd (trimStart line)); [discriminate|reflexivity].
Qed.

Lemma row_text_has_comma (f g : string) (gs : list string) :
  includes_char (row_text (f :: g :: gs)) comma = true.
Proof.
  rewrite row_text_cons, includes_char_app. cbn [includes_char].
  rewrite Ascii.eqb_refl. cbn. apply orb_true_r.
Qed.

Lemma count_all {A : Type} (p : A -> bool) (xs : list A) :
  Forall (fun x => p x = true) xs -> count p xs = Z.of_nat (length xs).
Proof.
  induction 1 as [|x xs Hx _ IH]; [reflexivity|].
  rewrite count_cons, Hx, IH. cbn [length]. lia.
Qed.

Lemma channel_cells (c : ChannelRow) :
  cells channel_column channels_headers c
  = [ch_slug c; ch_name c; text_of (nullable_string (ch_youtube_id c));
     text_of (nullable_boolean (ch_visible c));
     text_of (nullable_string (ch_created_at c))].
Proof. reflexivity. Qed.

Lemma channel_cells_one_line (c : ChannelRow) :
  channel_on_one_line c -> one_line (row_text (cells channel_column channels_headers c)).
Proof.
  intros (Hs & Hn & Hy & Hc). apply row_text_one_line. rewrite channel_cells.
  repeat constructor; try assumption.
  - destruct (ch_youtube_id c); [exact Hy|reflexivity].
  - destruct (ch_visible c) as [[]|]; reflexivity.
  - destruct (ch_created_at c); [exact Hc|reflexivity].
Qed.

(** The lines of the channels file that are not blank: the header and
    one line for each channel. *)
Lemma channels_file_lines (channels : list ChannelRow) :
  Forall channel_on_one_line channels ->
  count (fun line => negb (String.eqb (trim line) ""))
        (split_lines (arrayToCSV channel_column channels channels_headers))
  = Z.of_nat (length channels) + 1.
Proof.
  intros H.
  rewrite arrayToCSV_rows_text by (repeat constructor).
  rewrite split_lines_rows_text; [|constructor|discriminate].
  - rewrite count_all.
    + rewrite length_fmap. cbn [length]. rewrite length_fmap. lia.
    + apply Forall_fmap. constructor; [reflexivity|].
      apply Forall_fmap, Forall_forall. intros c _. cbn [compose].
      apply line_with_comma_counts. rewrite channel_cells. apply row_text_has_comma.
  - reflexivity.
  - apply Forall_fmap. eapply Forall_impl; [exact H|].
    intros c Hc. apply channel_cells_one_line, Hc.
Qed.

Lemma videos_of_channels_stored t (cs : list ChannelRow) (P : MediaItemRow -> Prop) :
  Forall P (tv_media_items t) -> Forall P (videos_of_channels t cs).
Proof.
  intros H. unfold videos_of_channels. apply Forall_concat, Forall_fmap, Forall_forall.
  intros c _. cbn [compose]. unfold channel_items. apply Forall_forall.
  intros r Hr. apply list_elem_of_filter in Hr as [_ Hr].
  rewrite Forall_forall in H. auto.
Qed.

(** Files that agree with the store. *)
Lemma file_check_on_files t files s :
  export_channels_csv files
  = Some (arrayToCSV channel_column (tv_channels t) channels_headers) ->
  export_videos_csv files
  = Some (arrayToCSV media_item_column (videos_of_channels t (tv_channels t))
            videos_headers) ->
  is_null (export_channel_statistics_csv files) = false ->
  export_summary_json files = Some s ->
  total_channels s = Z.of_nat (length (tv_channels t)) ->
  total_videos s = Z.of_nat (length (videos_of_channels t (tv_channels t))) ->
  Forall channel_on_one_line (tv_channels t) ->
  Forall (fun v => video_id_like (mi_id v) = true) (tv_media_items t) ->
  verifyCSVFiles files
  = Ok {| passed := true;
          message :=
            CsvFilesVerified (Z.of_nat (length (tv_channels t)))
              (Z.of_nat (length (videos_of_channels t (tv_channels t))));
          details := [] |}.
Proof.
  intros Hc Hv Hst Hs Htc Htv Hlines Hids.
  unfold verifyCSVFiles, missing_files, read_summary. rewrite Hc, Hv, Hst, Hs.
  cbn [is_null app default from_option id mbind result_bind].
  rewrite (channels_file_lines _ Hlines).
  change videos_headers with ("id" :: "title" :: List.tail (List.tail videos_headers)).
  rewrite record_counter_on_arrayToCSV;
    [|repeat constructor|exact (videos_of_channels_stored t _ _ Hids)].
  rewrite Htc, Htv.
  replace (Z.of_nat (length (tv_channels t)) + 1 - 1)
    with (Z.of_nat (length (tv_channels t))) by lia.
  rewrite !Z.eqb_refl. reflexivity.
Qed.

(** X13. The file check of the verification passes on the files a
    successful export has just written, when no column of a channel
    holds a line break and every stored video id has the shape of a
    YouTube id (11 characters among letters, digits, [_] and [-]). *)
Theorem export_then_file_check_passes (be : Backend) (timestamp : string)
    (t : Tables) (files files' : Files) :
  export_main be timestamp t files = (files', Ok ()) ->
  Forall channel_on_one_line (tv_channels t) ->
  Forall (fun v => video_id_like (mi_id v) = true) (tv_media_items t) ->
  verifyCSVFiles files'
  = Ok {| passed := true;
          message :=
            CsvFilesVerified (Z.of_nat (length (tv_channels t)))
              (Z.of_nat (length (videos_of_channels t (tv_channels t))));
          details := [] |}.
Proof.
  intros H Hlines Hids.
  destruct (export_main_Ok _ _ _ _ _ H) as (Hch & Hread & statistics_csv & s & Hs & ->).
  destruct (exported_summary _ _ _ _ Hread Hs) as (Htc & Htv & _).
  now apply (file_check_on_files t _ s).
Qed.

Lemma export_then_file_check_passes_witness :
  verifyCSVFiles scenario_files
  = Ok {| passed := true;
          message :=
            CsvFilesVerified (Z.of_nat (length (tv_channels scenario_tables)))
              (Z.of_nat (length (videos_of_channels scenario_tables
                                   (tv_channels scenario_tables))));
          details := [] |}.
Proof.
  apply (export_then_file_check_passes reliable "2024-05-01T09:00:00.000Z"
           scenario_tables no_files scenario_files).
  - reflexivity.
  - repeat constructor.
  - repeat constructor.
Defined.

(** ** The integrity check *)

Lemma required_text_issue (s : string) (issue : Issue) :
  (if negb (truthy_string (Some s)) then [issue] else []) = [] <-> s <> "".
Proof. destruct s; cbn; split; congruence. Qed.

Lemma date_issue (d : option string) (issue : Issue) :
  (if negb (truthy_string d) then [issue] else []) = [] <-> truthy_string d = true.
Proof. destruct (truthy_string d); cbn; split; congruence. Qed.

Lemma url_issue (u : option string) (issue : Issue) :
  match u with
  | Some (String c r) =>
      if negb (includes (String c r) "youtube.com/watch?v=") then [issue] else []
  | _ => []
  end = []
  <-> forall url, u = Some url -> url <> "" -> includes url "youtube.com/watch?v=" = true.
Proof.
  destruct u as [[|c r]|].
  - split; [|reflexivity]. intros _ url [= <-]. congruence.
  - destruct (includes (String c r) _) eqn:E; cbn [negb]; split.
    + intros _ url [= <-] _. exact E.
    + reflexivity.
    + discriminate.
    + intros H. specialize (H _ eq_refl). rewrite E in H.
      discriminate H. discriminate.
  - split; [|reflexivity]. intros _ url. discriminate.
Qed.

Lemma counter_issue (o : option Z) (issue : Issue) :
  match o with
  | Some n => if n <? 0 then [issue] else []
  | None => []
  end = []
  <-> forall n, o = Some n -> 0 <= n.
Proof.
  destruct o as [n|].
  - destruct (Z.ltb_spec n 0); split.
    + discriminate.
    + intros Hn. specialize (Hn n eq_refl). lia.
    + intros _ k [= <-]. assumption.
    + reflexivity.
  - split; [|reflexivity]. intros _ n. discriminate.
Qed.

Lemma video_issues_clean (slug : string) (v : MediaItemRow) :
  video_issues slug v = [] <-> clean_video v.
Proof.
  unfold video_issues, clean_video.
  rewrite !app_nil, required_text_issue, required_text_issue, date_issue, url_issue,
    !counter_issue.
  reflexivity.
Qed.

Lemma concat_nil_Forall {A : Type} (ls : list (list A)) :
  concat ls = [] <-> Forall (fun l => l = []) ls.
Proof.
  induction ls as [|l ls IH]; [split; [constructor|reflexivity]|].
  cbn [concat]. rewrite app_nil, IH, Forall_cons. reflexivity.
Qed.

Lemma channel_issues_none t (c : ChannelRow) :
  channel_issues t c = []
  <-> truthy_string (ch_youtube_id c) = true
      /\ Forall clean_video (channel_items (ch_slug c) t).
Proof.
  unfold channel_issues. rewrite app_nil, concat_nil_Forall, Forall_fmap.
  split; intros [H1 H2]; split.
  - destruct (truthy_string _); congruence.
  - eapply Forall_impl; [exact H2|]. intros v Hv. now apply (video_issues_clean (ch_slug c)).
  - now rewrite H1.
  - eapply Forall_impl; [exact H2|]. intros v Hv. now apply video_issues_clean.
Qed.

Lemma integrity_issues_none t (cs : list ChannelRow) :
  integrity_issues t cs = []
  <-> Forall (fun c => truthy_string (ch_youtube_id c) = true) cs
      /\ Forall clean_video (videos_of_channels t cs).
Proof.
  unfold integrity_issues, videos_of_channels.
  rewrite concat_nil_Forall, Forall_fmap, Forall_concat, Forall_fmap.
  rewrite <- Forall_and. apply Forall_iff. intros c. cbn [compose].
  apply channel_issues_none.
Qed.

Lemma integrity_loop_issues be t (cs : list ChannelRow) :
  (forall c, c ∈ cs ->
     getChannelMediaItems be (ch_slug c) t = Ok (channel_items (ch_slug c) t)) ->
  forall issues,
    integrity_loop be t cs issues = Ok (issues ++ integrity_issues t cs).
Proof.
  induction cs as [|c cs IH]; intros Hread issues.
  - cbn. now rewrite app_nil_r.
  - cbn [integrity_loop]. rewrite (Hread c) by left.
    cbn [mbind result_bind]. rewrite IH by (intros d Hd; apply Hread; now right).
    f_equal.
    unfold integrity_issues, channel_issues. cbn [fmap list_fmap concat].
    destruct (truthy_string (ch_youtube_id c)); cbn [negb app];
      rewrite <- ?app_assoc; reflexivity.
Qed.

Lemma verifyDataIntegrity_issues be t :
  getAllChannels be t = Ok (tv_channels t) ->
  (forall c, c ∈ tv_channels t ->
     getChannelMediaItems be (ch_slug c) t = Ok (channel_items (ch_slug c) t)) ->
  verifyDataIntegrity be t
  = Ok (integrity_result (tv_channels t) (integrity_issues t (tv_channels t))).
Proof.
  intros Hch Hread. unfold verifyDataIntegrity. rewrite Hch. cbn [mbind result_bind].
  rewrite (integrity_loop_issues be t _ Hread). cbn [mbind result_bind app].
  unfold integrity_result. now destruct (0 <? length _)%nat.
Qed.

Lemma integrity_result_passed t :
  passed (integrity_result (tv_channels t) (integrity_issues t (tv_channels t))) = true
  <-> Forall (fun c => truthy_string (ch_youtube_id c) = true) (tv_channels t)
      /\ Forall clean_video (videos_of_channels t (tv_channels t)).
Proof.
  rewrite <- integrity_issues_none. unfold integrity_result.
  destruct (integrity_issues t (tv_channels t)); cbn; split; congruence.
Qed.

(** X14. The integrity check, when the store answers its reads: it
    passes exactly when every channel has a YouTube id and every item of
    a listed channel has an id, a title and a date, a url that is absent,
    empty or a watch url, and no negative counter; when it fails it
    reports the number of issues found and shows the first 20 of them. *)
Theorem integrity_check_verdict (be : Backend) (t : Tables) :
  fault be TvChannels Select = None ->
  fault be TvMediaItems Select = None ->
  exists r,
    verifyDataIntegrity be t = Ok r
    /\ (passed r = true
        <-> Forall (fun c => truthy_string (ch_youtube_id c) = true) (tv_channels t)
            /\ Forall clean_video (videos_of_channels t (tv_channels t)))
    /\ (passed r = true ->
        message r = DataIntegrityVerified (length (tv_channels t)) /\ details r = [])
    /\ (passed r = false ->
        message r = DataIntegrityIssues (length (integrity_issues t (tv_channels t)))
        /\ details r = take 20 (integrity_issues t (tv_channels t))
        /\ (0 < length (integrity_issues t (tv_channels t)))%nat).
Proof.
  intros Hc Hm. eexists. split; [|split; [apply integrity_result_passed|]].
  - apply verifyDataIntegrity_issues.
    + unfold getAllChannels, select_channels. now rewrite Hc.
    + intros c _. now apply getChannelMediaItems_items.
  - unfold integrity_result.
    destruct (integrity_issues t (tv_channels t)) as [|i rest];
      cbn [length Nat.ltb Nat.leb passed message details].
    + split; [auto|discriminate].
    + split; [discriminate|]. intros _. repeat split. lia.
Qed.

Lemma integrity_check_verdict_witness :
  exists r,
    verifyDataIntegrity reliable scenario_tables = Ok r
    /\ (passed r = true
        <-> Forall (fun c => truthy_string (ch_youtube_id c) = true)
              (tv_channels scenario_tables)
            /\ Forall clean_video
                 (videos_of_channels scenario_tables (tv_channels scenario_tables)))
    /\ (passed r = true ->
        message r = DataIntegrityVerified (length (tv_channels scenario_tables))
        /\ details r = [])
    /\ (passed r = false ->
        message r
        = DataIntegrityIssues
            (length (integrity_issues scenario_tables (tv_channels scenario_tables)))
        /\ details r = take 20 (integrity_issues scenario_tables (tv_channels scenario_tables))
        /\ (0 < length (integrity_issues scenario_tables (tv_channels scenario_tables)))%nat).
Proof. apply (integrity_check_verdict reliable scenario_tables); reflexivity. Defined.

(** ** The whole verification after an export *)



(** ** The import run *)

Lemma getVideosFromChannel_long toISODate remote limitVideos v :
  v ∈ getVideosFromChannel toISODate remote limitVideos ->
  from_long_record toISODate (remote_records (playlistPages remote)) v.
Proof.
  unfold getVideosFromChannel.
  destruct (truthy_string (uploadsPlaylistId remote)); [|intros H; inversion H].
  intros H. apply fetch_pages_sound in H as [H|H]; [inversion H|exact H].
Qed.

Lemma upsertChannel_media be channelData t :
  tv_media_items (fst (upsertChannel be channelData t)) = tv_media_items t.
Proof. destruct (upsertChannel_rows be channelData t) as [-> | ->]; reflexivity. Qed.

Lemma upsertChannelStatistics_others be today slug statistics date t :
  tv_channels (fst (upsertChannelStatistics be today slug statistics date t))
  = tv_channels t
  /\ tv_media_items (fst (upsertChannelStatistics be today slug statistics date t))
     = tv_media_items t.
Proof.
  unfold upsertChannelStatistics. destruct (select_media_items be slug t); [|now split].
  unfold upsert_statistics.
  destruct (fault be TvChannelStatistics Upsert); [now split|].
  destruct (new_statistics _ _ _); [|now split].
  destruct (statistics_ok _ _); now split.
Qed.

Lemma imported_row_descriptive toISODate world config (r r' : MediaItemRow) :
  descriptive r = descriptive r' ->
  imported_row toISODate world config r -> imported_row toISODate world config r'.
Proof.
  intros E (channel & channelId & v & Hc & Hid & Hv & H1 & H2 & H3 & H4 & H5).
  exists channel, channelId, v. pose proof (descriptive_canonical r r' E H5) as Hcan.
  unfold descriptive in E. inversion E.
  split; [assumption|]. split; [assumption|]. split; [assumption|].
  split; [congruence|]. split; [congruence|]. split; [congruence|].
  split; [congruence|exact Hcan].
Qed.

Lemma imported_row_mono toISODate world (config config' : list ChannelConfig) r :
  (forall channel, channel ∈ config -> channel ∈ config') ->
  imported_row toISODate world config r -> imported_row toISODate world config' r.
Proof.
  intros Hsub (channel & channelId & v & Hc & H). exists channel, channelId, v. auto.
Qed.

(** The rows of [tv_media_items] after a channel has been processed. *)
Lemma process_channel_rows toISODate world be limitVideos today channel t :
  exists rows1 new,
    tv_media_items (fst (process_channel toISODate world be limitVideos today channel t))
    = rows1 ++ new
    /\ same_descriptive (tv_media_items t) rows1
    /\ Forall (imported_row toISODate world [channel]) new.
Proof.
  assert (Hsame : forall t', tv_media_items t' = tv_media_items t ->
            exists rows1 new,
              tv_media_items t' = rows1 ++ new
              /\ same_descriptive (tv_media_items t) rows1
              /\ Forall (imported_row toISODate world [channel]) new).
  { intros t' E. exists (tv_media_items t), []. rewrite E, app_nil_r.
    repeat split; [apply same_descriptive_refl|constructor]. }
  unfold process_channel.
  pose proof (upsertChannel_media be (cfg_data channel) t) as Hm.
  destruct (upsertChannel be (cfg_data channel) t) as [t1 [[]|e]]; cbn [fst] in Hm;
    [|now apply Hsame].
  destruct (resolveChannelId world channel) as [channelId|] eqn:Hid; [|now apply Hsame].
  set (videos := getVideosFromChannel toISODate (remote_of world channelId) limitVideos).
  assert (Hlong : forall v, v ∈ videos ->
            from_long_record toISODate
              (remote_records (playlistPages (remote_of world channelId))) v)
    by (intros v; apply getVideosFromChannel_long).
  destruct videos as [|v0 vs] eqn:Ev; [now apply Hsame|]. rewrite <- Ev in *.
  destruct (insertNewMediaItems be (cd_slug (cfg_data channel)) videos t1)
    as [t2 res] eqn:Ei.
  destruct (insertNewMediaItems_rows be _ videos t1 t2 res Ei)
    as (_ & _ & rows1 & new & Hrows & Hd & Hnew & _).
  rewrite Hm in Hd.
  assert (Himp : Forall (imported_row toISODate world [channel]) new).
  { destruct Hnew as [->|Hnew]; [constructor|].
    apply Forall_forall. intros r Hr.
    apply list_elem_of_lookup in Hr as [i Hi].
    destruct (Forall2_lookup_r _ _ _ _ _ Hnew Hi) as (v & Hv & Hcr).
    apply list_elem_of_lookup_2, list_elem_of_filter in Hv as [_ Hv].
    destruct (created_canonical _ _ _ _ Hcr) as [Hcan _].
    exists channel, channelId, v.
    split; [left|]. split; [exact Hid|]. split; [now apply Hlong|].
    unfold created_from in Hcr. cbn in Hcr. injection Hcr as <-.
    repeat split; assumption || reflexivity || apply Hcan. }
  assert (Hres : forall t', tv_media_items t' = tv_media_items t2 ->
            exists rows1 new,
              tv_media_items t' = rows1 ++ new
              /\ same_descriptive (tv_media_items t) rows1
              /\ Forall (imported_row toISODate world [channel]) new).
  { intros t' E. exists rows1, new. rewrite E. auto. }
  destruct res as [[]|e]; cbn [fst]; [|now apply Hres].
  destruct (has_keys _); [|now apply Hres].
  pose proof (upsertChannelStatistics_others be today (cd_slug (cfg_data channel))
                (fetchChannelStatistics world channelId) None t2) as [_ Hst].
  destruct (upsertChannelStatistics _ _ _ _ _ _) as [t3 [[]|e]]; cbn [fst] in *;
    now apply Hres.
Qed.

Lemma import_from_rows toISODate world be limitVideos today config :
  forall i t,
  exists rows1 new,
    tv_media_items (fst (import_from toISODate world be i limitVideos today config t))
    = rows1 ++ new
    /\ same_descriptive (tv_media_items t) rows1
    /\ Forall (imported_row toISODate world config) new.
Proof.
  induction config as [|channel rest IH]; intros i t.
  - exists (tv_media_items t), []. cbn. rewrite app_nil_r.
    repeat split; [apply same_descriptive_refl|constructor].
  - cbn [import_from].
    destruct (process_channel_rows toISODate world be limitVideos (today i) channel t)
      as (r1 & n1 & E1 & Hd1 & Hn1).
    destruct (process_channel _ _ _ _ _ channel t) as [t1 outcome]. cbn [fst] in E1.
    destruct (IH (S i) t1) as (r2 & n2 & E2 & Hd2 & Hn2).
    destruct (import_from _ _ _ (S i) _ _ rest t1) as [t2 outcomes]. cbn [fst] in *.
    rewrite E1 in Hd2. unfold same_descriptive in Hd2.
    apply Forall2_app_inv_l in Hd2 as (r2a & r2b & Ha & Hb & ->).
    exists r2a, (r2b ++ n2). rewrite E2, <- app_assoc. split; [reflexivity|].
    split; [eapply same_descriptive_trans; eauto|].
    apply Forall_app. split.
    + apply Forall_forall. intros r Hr.
      apply list_elem_of_lookup in Hr as [k Hk].
      destruct (Forall2_lookup_r _ _ _ _ _ Hb Hk) as (r0 & Hr0 & E).
      apply list_elem_of_lookup_2 in Hr0. rewrite Forall_forall in Hn1.
      apply (imported_row_descriptive _ _ _ r0 r E).
      apply (imported_row_mono _ _ [channel]); [|auto].
      intros c Hc. apply list_elem_of_singleton in Hc as ->. left.
    + eapply Forall_impl; [exact Hn2|]. intros r.
      apply imported_row_mono. intros c Hc. now right.
Qed.

(** X16. The import run only adds to [tv_media_items]: whatever the
    remote API and the store answer, the rows stored before the run are
    still there, in place, with every column other than the three
    counters unchanged; and every row the run has added belongs to a
    configured channel, has the watch url of its id, and carries the id,
    title and date of a listed video that comes from a remote record of
    at least 120 seconds. *)
Theorem import_only_adds_long_videos (toISODate : string -> option string)
    (world : World) (be : Backend) (args : list string) (today : nat -> string)
    (channelsConfig : list ChannelConfig) (t : Tables) :
  same_descriptive (tv_media_items t)
    (kept_rows t (fst (import_main toISODate world be args today channelsConfig t)))
  /\ Forall (imported_row toISODate world channelsConfig)
       (added_rows t (fst (import_main toISODate world be args today channelsConfig t))).
Proof.
  unfold import_main.
  destruct (import_from_rows toISODate world be (limit_of_args args) today
              channelsConfig 0%nat t) as (rows1 & new & E & Hd & Hn).
  destruct (kept_and_added t _ rows1 new E Hd) as [-> ->]. auto.
Qed.

(** The channels after a channel has been processed. *)
Lemma process_channel_channels toISODate world be limitVideos today channel t :
  fault be TvChannels Upsert = None ->
  channels_ok (tv_channels t) = true ->
  tv_channels (fst (process_channel toISODate world be limitVideos today channel t))
  = upserted (cfg_data channel) be (tv_channels t).
Proof.
  intros Hf Hok. unfold process_channel.
  rewrite (upsertChannel_result (cfg_data channel) be t Hf Hok).
  destruct (resolveChannelId world channel) as [channelId|]; [|reflexivity].
  destruct (getVideosFromChannel _ _ _) as [|v0 vs] eqn:Ev; [reflexivity|].
  destruct (insertNewMediaItems be _ (v0 :: vs) _) as [t2 res] eqn:Ei.
  destruct (insertNewMediaItems_rows be _ _ _ t2 res Ei) as (Hc & _).
  cbn [tv_channels set_channels] in Hc.
  destruct res as [[]|e]; cbn [fst]; [|exact Hc].
  destruct (has_keys _); [|exact Hc].
  pose proof (upsertChannelStatistics_others be today (cd_slug (cfg_data channel))
                (fetchChannelStatistics world channelId) None t2) as [Hst _].
  destruct (upsertChannelStatistics _ _ _ _ _ _) as [t3 [[]|e]]; cbn [fst] in *;
    congruence.
Qed.

Lemma upserted_slugs channelData be (rows : list ChannelRow) :
  list_to_set (ch_slug <$> upserted channelData be rows)
  = (list_to_set (ch_slug <$> rows) : gset string) ∪ {[cd_slug channelData]}.
Proof.
  unfold upserted, slug_known. case_bool_decide as Hk.
  - rewrite overwrite_slugs. apply set_eq. intros x.
    rewrite elem_of_union, elem_of_singleton, !elem_of_list_to_set.
    split; [auto|]. intros [H| ->]; assumption.
  - rewrite fmap_app, list_to_set_app_L. cbn [fmap list_fmap ch_slug].
    f_equal. apply set_eq. intros x.
    rewrite elem_of_list_to_set, elem_of_singleton, list_elem_of_singleton. reflexivity.
Qed.

Lemma import_from_channels toISODate world be limitVideos today config :
  fault be TvChannels Upsert = None ->
  forall i t,
    channels_ok (tv_channels t) = true ->
    channels_ok (tv_channels
                   (fst (import_from toISODate world be i limitVideos today config t)))
    = true
    /\ channel_slugs (fst (import_from toISODate world be i limitVideos today config t))
       = channel_slugs t ∪ configured_slugs config.
Proof.
  intros Hf. induction config as [|channel rest IH]; intros i t Hok.
  - cbn [import_from fst]. split; [assumption|].
    unfold configured_slugs. cbn. now rewrite union_empty_r_L.
  - cbn [import_from].
    pose proof (process_channel_channels toISODate world be limitVideos (today i)
                  channel t Hf Hok) as Hc.
    destruct (process_channel _ _ _ _ _ channel t) as [t1 outcome]. cbn [fst] in Hc.
    destruct (upserted_ok (cfg_data channel) be _ Hok) as (Hok1 & _).
    rewrite <- Hc in Hok1.
    destruct (IH (S i) t1 Hok1) as (Hok2 & Hs2).
    destruct (import_from _ _ _ (S i) _ _ rest t1) as [t2 outcomes]. cbn [fst] in *.
    split; [assumption|]. rewrite Hs2. unfold channel_slugs at 1. rewrite Hc.
    rewrite upserted_slugs. unfold configured_slugs, channel_slugs.
    cbn [fmap list_fmap list_to_set]. rewrite <- assoc_L by apply _. reflexivity.
Qed.

(** X17. The import run registers every configured channel, whatever
    happens to its videos: when the store accepts the channel upserts
    and its slugs are unique, the slugs stored after the run are those
    stored before together with those of the configuration, still
    unique, whatever the remote API answers and whichever requests on
    the other tables the store refuses. *)
Theorem import_registers_every_channel (toISODate : string -> option string)
    (world : World) (be : Backend) (args : list string) (today : nat -> string)
    (channelsConfig : list ChannelConfig) (t : Tables) :
  fault be TvChannels Upsert = None ->
  channels_ok (tv_channels t) = true ->
  channels_ok (tv_channels
                 (fst (import_main toISODate world be args today channelsConfig t)))
  = true
  /\ channel_slugs (fst (import_main toISODate world be args today channelsConfig t))
     = channel_slugs t ∪ configured_slugs channelsConfig.
Proof. intros Hf Hok. now apply import_from_channels. Qed.

Lemma import_registers_every_channel_witness :
  channels_ok (tv_channels
                 (fst (import_main utc_date sample_world
                         (refusing Insert "permission denied") ["--limit-videos"; "5"]
                         (fun _ => "2024-05-01") sample_config empty_tables)))
  = true
  /\ channel_slugs (fst (import_main utc_date sample_world
                           (refusing Insert "permission denied") ["--limit-videos"; "5"]
                           (fun _ => "2024-05-01") sample_config empty_tables))
     = channel_slugs empty_tables ∪ configured_slugs sample_config.
Proof.
  apply (import_registers_every_channel utc_date sample_world
           (refusing Insert "permission denied") ["--limit-videos"; "5"]
           (fun _ => "2024-05-01") sample_config empty_tables); reflexivity.
Defined.

(** ** Persistence gateway: when the bulk insert is accepted *)

Lemma created_rows be slug (vs : list VideoData) :
  exists new,
    mapM (new_media_item be) (newRecord slug <$> vs) = Some new
    /\ Forall2 (created_from be slug) vs new.
Proof.
  assert (exists new, Forall2 (created_from be slug) vs new) as [new H].
  { induction vs as [|v vs [new IH]]; [exists []; constructor|].
    destruct (new_media_item_newRecord be slug v) as (row & Er & _).
    exists (row :: new). now constructor. }
  exists new. split; [|exact H].
  apply mapM_Some, Forall2_fmap_l. exact H.
Qed.

Lemma after_updates_ids (vs : list VideoData) (rows : list MediaItemRow) :
  mi_id <$> (after_updates vs <$> rows) = mi_id <$> rows.
Proof.
  rewrite <- list_fmap_compose. apply list_fmap_ext. intros _ r _. apply after_updates_id.
Qed.

Lemma created_slug_known be slug channels (vs : list VideoData) (new : list MediaItemRow) :
  Forall2 (created_from be slug) vs new ->
  vs <> [] ->
  forallb (fun r => match mi_channel_slug r with
                    | Some slug => slug_known channels slug
                    | None => true
                    end) new
  = slug_known channels slug.
Proof.
  induction 1 as [|v row vs new H Hrest IH]; [congruence|]. intros _.
  apply created_from_fields in H as (_ & Hs & _). cbn [forallb]. rewrite Hs.
  destruct vs as [|w vs].
  - inversion Hrest. subst. cbn. now rewrite andb_true_r.
  - rewrite IH by discriminate. now destruct (slug_known channels slug).
Qed.

(** X18. When the store answers every request, a sync with at least one
    video that is new for the channel returns normally exactly when the
    new videos have pairwise distinct ids, none of these ids is stored
    under any channel, and the channel is registered; otherwise it
    throws and adds no row.  A video listed twice in one batch, or
    already stored under another channel, so fails the whole batch. *)
Theorem sync_succeeds_iff (be : Backend) (channelSlug : string)
    (B : list VideoData) (t : Tables) :
  fault be TvMediaItems Select = None ->
  fault be TvMediaItems Update = None ->
  fault be TvMediaItems Insert = None ->
  media_items_ok (tv_channels t) (tv_media_items t) = true ->
  filter (fun v => vd_id v ∉ stored_ids channelSlug t) B <> [] ->
  (snd (insertNewMediaItems be channelSlug B t) = Ok ()
   <-> NoDup (vd_id <$> filter (fun v => vd_id v ∉ stored_ids channelSlug t) B)
       /\ Forall (fun v => vd_id v ∉ mi_id <$> tv_media_items t)
            (filter (fun v => vd_id v ∉ stored_ids channelSlug t) B)
       /\ slug_known (tv_channels t) channelSlug = true)
  /\ (snd (insertNewMediaItems be channelSlug B t) <> Ok () ->
      snd (insertNewMediaItems be channelSlug B t)
      = Throw ("Failed to insert new media items: " +:+ constraint_violation)
      /\ length (tv_media_items (fst (insertNewMediaItems be channelSlug B t)))
         = length (tv_media_items t)).
Proof.
  intros Hs Hu Hi Hok Hne.
  unfold insertNewMediaItems, select_media_items. rewrite Hs.
  fold (stored_ids channelSlug t). rewrite partition_videos_filter, committed_updates.
  set (olds := committed be channelSlug B t).
  set (news := filter (fun v => vd_id v ∉ stored_ids channelSlug t) B) in *.
  rewrite (run_updates_tables be olds t Hu Hok).
  assert (Hok1 : media_items_ok (tv_channels t) (after_updates olds <$> tv_media_items t)
                 = true).
  { rewrite (media_items_ok_same _ (tv_media_items t)); [assumption|].
    unfold same_descriptive. apply Forall2_fmap_r, Forall_Forall2_diag, Forall_forall.
    intros r _. unfold compose. symmetry. apply after_updates_descriptive. }
  destruct (newRecord channelSlug <$> news) as [|n ns] eqn:En.
  { apply fmap_nil_inv in En. contradiction. }
  rewrite <- En. clear En n ns.
  unfold insert_media_items. rewrite Hi.
  destruct (created_rows be channelSlug news) as (new & -> & Hnew).
  cbn [set_media_items tv_channels tv_media_items].
  set (rows1 := after_updates olds <$> tv_media_items t) in *.
  assert (Hiff : media_items_ok (tv_channels t) (rows1 ++ new) = true
                 <-> NoDup (vd_id <$> news)
                     /\ Forall (fun v => vd_id v ∉ mi_id <$> tv_media_items t) news
                     /\ slug_known (tv_channels t) channelSlug = true).
  { unfold media_items_ok in *. apply andb_prop in Hok1 as [Hnd1 Hfk1].
    apply bool_decide_eq_true in Hnd1.
    rewrite andb_true_iff, bool_decide_eq_true, forallb_app, Hfk1, andb_true_l.
    rewrite (created_slug_known be channelSlug _ news new Hnew Hne).
    rewrite fmap_app, (created_ids _ _ _ _ Hnew).
    unfold rows1 in *. rewrite after_updates_ids in *.
    rewrite NoDup_app, Forall_forall. split.
    - intros [(_ & Hdisj & Hnd) Hk]. repeat split; [assumption| |assumption].
      intros v Hv Hin. apply (Hdisj _ Hin). apply list_elem_of_fmap. eauto.
    - intros (Hnd & Hfresh & Hk). repeat split; [assumption| |assumption|assumption].
      intros id Hin Hid. apply list_elem_of_fmap in Hid as (v & -> & Hv).
      exact (Hfresh v Hv Hin). }
  destruct (media_items_ok (tv_channels t) (rows1 ++ new)) eqn:Ok2; cbn [fst snd].
  - split; [split; [intros _; now apply Hiff|reflexivity]|]. congruence.
  - split.
    + split; [discriminate|]. intros H. apply Hiff in H. discriminate.
    + intros _. split; [reflexivity|].
      cbn [set_media_items tv_media_items]. unfold rows1. now rewrite length_fmap.
Qed.

Lemma sync_succeeds_iff_witness :
  snd (insertNewMediaItems reliable "A"
         [sample_video "a0000000009" "Ninth" 1; sample_video "a0000000009" "Ninth" 1]
         scenario_tables)
  = Throw ("Failed to insert new media items: " +:+ constraint_violation).
Proof.
  destruct (sync_succeeds_iff reliable "A"
              [sample_video "a0000000009" "Ninth" 1; sample_video "a0000000009" "Ninth" 1]
              scenario_tables eq_refl eq_refl eq_refl eq_refl) as [_ H].
  - vm_compute. discriminate.
  - apply H. vm_compute. discriminate.
Defined.

(** ** The export run: a failure part of the way *)

(** X19. The export is not all-or-nothing: when the store answers the
    reads of the channels and refuses those of the media items, and at
    least one channel is stored, the run writes the channels file, stops
    with the error of the videos export, and leaves the three other
    files as they were before the run. *)
Theorem export_stops_at_first_failure (be : Backend) (m timestamp : string)
    (t : Tables) (files : Files) :
  fault be TvChannels Select = None ->
  fault be TvMediaItems Select = Some m ->
  tv_channels t <> [] ->
  export_main be timestamp t files
  = ({| export_channels_csv :=
          Some (arrayToCSV channel_column (tv_channels t) channels_headers);
        export_videos_csv := export_videos_csv files;
        export_channel_statistics_csv := export_channel_statistics_csv files;
        export_summary_json := export_summary_json files |},
     Throw ("Failed to get channel media items: " +:+ m)).
Proof.
  intros Hc Hm Hne. unfold export_main, exportChannelsToCSV, exportVideosToCSV.
  assert (getAllChannels be t = Ok (tv_channels t)) as ->
    by (unfold getAllChannels, select_channels; now rewrite Hc).
  cbn [mbind result_bind].
  destruct (tv_channels t) as [|c cs]; [congruence|].
  cbn [concat_results].
  assert (getChannelMediaItems be (ch_slug c) t
          = Throw ("Failed to get channel media items: " +:+ m)) as ->
    by (unfold getChannelMediaItems, select_media_items; now rewrite Hm).
  reflexivity.
Qed.

Lemma export_stops_at_first_failure_witness :
  export_main (refusing Select "permission denied") "2024-05-01T09:00:00.000Z"
    scenario_tables scenario_files
  = ({| export_channels_csv :=
          Some (arrayToCSV channel_column (tv_channels scenario_tables) channels_headers);
        export_videos_csv := export_videos_csv scenario_files;
        export_channel_statistics_csv := export_channel_statistics_csv scenario_files;
        export_summary_json := export_summary_json scenario_files |},
     Throw ("Failed to get channel media items: " +:+ "permission denied")).
Proof.
  apply (export_stops_at_first_failure (refusing Select "permission denied")
           "permission denied" "2024-05-01T09:00:00.000Z" scenario_tables scenario_files).
  - reflexivity.
  - reflexivity.
  - vm_compute. discriminate.
Defined.

(** ** The video count check *)

(** X20. The video count check, when the store answers its reads and a
    summary is on file: it passes exactly when the total of the summary
    is the number of items of the listed channels and every listed
    channel agrees with the summary: the count the summary holds under
    its slug is its number of items, or the summary holds none, the
    channel has no item and its slug is not the name of a property that
    every object inherits (under such a slug the check finds that
    property instead of a count, and reports a mismatch).  A wrong total
    is reported first, and the details list one mismatch for each
    channel that disagrees. *)
Theorem video_count_check_verdict (be : Backend) (t : Tables) (files : Files)
    (summary : Summary) :
  fault be TvChannels Select = None ->
  fault be TvMediaItems Select = None ->
  export_summary_json files = Some summary ->
  exists r,
    verifyVideoCounts be t files = Ok r
    /\ (passed r = true
        <-> total_videos summary
            = Z.of_nat (length (videos_of_channels t (tv_channels t)))
            /\ Forall (agrees_with_summary t summary) (tv_channels t))
    /\ (passed r = false -> details r = count_mismatches t summary (tv_channels t))
    /\ (total_videos summary <> Z.of_nat (length (videos_of_channels t (tv_channels t))) ->
        message r
        = TotalVideoCountMismatch
            (Z.of_nat (length (videos_of_channels t (tv_channels t))))
            (total_videos summary)).
Proof.
  intros Hc Hm Hs. unfold verifyVideoCounts, read_summary, getAllChannels, select_channels.
  rewrite Hc, Hs. cbn [mbind result_bind].
  rewrite video_count_loop_mismatches
    by (intros c _; now apply getChannelMediaItems_items).
  cbn [mbind result_bind app]. rewrite Z.add_0_l.
  pose proof (count_mismatches_none t summary (tv_channels t)) as Hnone.
  set (n := Z.of_nat (length (videos_of_channels t (tv_channels t)))) in *.
  destruct (Z.eqb_spec n (total_videos summary)) as [E|NE]; cbn [negb].
  - destruct (count_mismatches t summary (tv_channels t)) as [|i rest];
      cbn [length Nat.ltb Nat.leb]; eexists; (split; [reflexivity|]);
      cbn [passed message details].
    + split; [|split; [discriminate|congruence]].
      split; [intros _; split; [congruence|now apply Hnone]|reflexivity].
    + split; [|split; [reflexivity|congruence]].
      split; [discriminate|]. intros [_ H]. apply Hnone in H. discriminate.
  - eexists. split; [reflexivity|]. cbn [passed message details].
    split; [|split; [reflexivity|reflexivity]].
    split; [discriminate|]. intros [H _]. congruence.
Qed.

Lemma video_count_check_verdict_witness :
  exists r,
    verifyVideoCounts reliable scenario_tables (with_total_videos 7 scenario_files) = Ok r
    /\ message r = TotalVideoCountMismatch 8 7.
Proof.
  edestruct (video_count_check_verdict reliable scenario_tables
               (with_total_videos 7 scenario_files))
    as (r & Hr & _ & _ & Hmsg); [reflexivity|reflexivity|vm_compute; reflexivity|].
  exists r. split; [exact Hr|]. apply Hmsg. vm_compute. discriminate.
Defined.
